(** * tailreader: a shallow embedding of the tailing reader and its properties

    The Go package [tailreader] implements an [io.Reader] that follows a file
    which another process appends to, truncates, deletes or recreates.  The
    reader talks to the outside world through a handful of primitives
    ([os.Stat], [os.Open], [File.Read], [File.Close], the [fsnotify]
    watcher channels).  The embedding keeps the reader's fields as
    a record, threads it through a small state-and-error monad, and lets a
    finite script of environment observations answer the primitives, one
    observation per primitive call. *)

From Stdlib Require Import ZArith String List Bool Lia.
From Stdlib Require Import Init.Byte.
Import ListNotations.
Open Scope Z_scope.

(** ** Errors *)

(** The error values the package can hand to its caller.  [io_EOF],
    [ErrIdleTimeout], [ErrWaitTimeout] and [errTimeout] are the package-level
    variables of the source; [PathError] stands for what the [os] primitives
    return (carrying an errno) and [WatcherError] for what arrives on the
    watcher's error channel. *)
Inductive error : Type :=
| io_EOF
| ErrIdleTimeout
| ErrWaitTimeout
| errTimeout
| PathError (errno : nat)
| WatcherError (code : nat).

Definition ENOENT : nat := 2%nat.

(** [errors.Is(err, errTimeout)]: none of the errors of the model wraps
    another one, so the test is an identity test; a nil error is never
    [errTimeout]. *)
Definition errors_Is_errTimeout (err : option error) : bool :=
  match err with
  | Some errTimeout => true
  | _ => false
  end.

(** ** fsnotify operations *)

(** [fsnotify.Op] is a [uint32] bit mask. *)
Module fsnotify.
Definition Create : Z := Z.shiftl 1 0.
Definition Write  : Z := Z.shiftl 1 1.
Definition Remove : Z := Z.shiftl 1 2.
Definition Rename : Z := Z.shiftl 1 3.
Definition Chmod  : Z := Z.shiftl 1 4.

(** [func (o Op) Has(h Op) bool { return o&h == h }] *)
Definition Has (o h : Z) : bool := Z.land o h =? h.

Record Event : Type := { Name : string; Op : Z }.
End fsnotify.

(** ** Options (options.go) *)

Module Options.
Record t : Type := {
  WaitForFile : bool;
  WaitForFileTimeout : Z;
  CloseOnDelete : bool;
  CloseOnTruncate : bool;
  IdleTimeout : Z;
  TreatTimeoutsAsEOF : bool
}.

(** [&Options{}]: the zero value. *)
Definition zero : t :=
  {| WaitForFile := false; WaitForFileTimeout := 0; CloseOnDelete := false;
     CloseOnTruncate := false; IdleTimeout := 0; TreatTimeoutsAsEOF := false |}.
End Options.

Definition Option : Type := Options.t -> Options.t.

Definition WithWaitForFile (wait : bool) (timeout : Z) : Option := fun opts =>
  {| Options.WaitForFile := wait;
     Options.WaitForFileTimeout := timeout;
     Options.CloseOnDelete := Options.CloseOnDelete opts;
     Options.CloseOnTruncate := Options.CloseOnTruncate opts;
     Options.IdleTimeout := Options.IdleTimeout opts;
     Options.TreatTimeoutsAsEOF := Options.TreatTimeoutsAsEOF opts |}.

Definition WithCloseOnDelete (close : bool) : Option := fun opts =>
  {| Options.WaitForFile := Options.WaitForFile opts;
     Options.WaitForFileTimeout := Options.WaitForFileTimeout opts;
     Options.CloseOnDelete := close;
     Options.CloseOnTruncate := Options.CloseOnTruncate opts;
     Options.IdleTimeout := Options.IdleTimeout opts;
     Options.TreatTimeoutsAsEOF := Options.TreatTimeoutsAsEOF opts |}.

Definition WithCloseOnTruncate (close : bool) : Option := fun opts =>
  {| Options.WaitForFile := Options.WaitForFile opts;
     Options.WaitForFileTimeout := Options.WaitForFileTimeout opts;
     Options.CloseOnDelete := Options.CloseOnDelete opts;
     Options.CloseOnTruncate := close;
     Options.IdleTimeout := Options.IdleTimeout opts;
     Options.TreatTimeoutsAsEOF := Options.TreatTimeoutsAsEOF opts |}.

Definition WithIdleTimeout (timeout : Z) : Option := fun opts =>
  {| Options.WaitForFile := Options.WaitForFile opts;
     Options.WaitForFileTimeout := Options.WaitForFileTimeout opts;
     Options.CloseOnDelete := Options.CloseOnDelete opts;
     Options.CloseOnTruncate := Options.CloseOnTruncate opts;
     Options.IdleTimeout := timeout;
     Options.TreatTimeoutsAsEOF := Options.TreatTimeoutsAsEOF opts |}.

Definition WithTimeoutsAsEOF (timeoutsAsEOF : bool) : Option := fun opts =>
  {| Options.WaitForFile := Options.WaitForFile opts;
     Options.WaitForFileTimeout := Options.WaitForFileTimeout opts;
     Options.CloseOnDelete := Options.CloseOnDelete opts;
     Options.CloseOnTruncate := Options.CloseOnTruncate opts;
     Options.IdleTimeout := Options.IdleTimeout opts;
     Options.TreatTimeoutsAsEOF := timeoutsAsEOF |}.

Definition DefaultOptions : list Option :=
  [WithWaitForFile true 0; WithCloseOnDelete false].

(** ** The reader *)

(** An open [os.File]: the inode it was opened on and the position of the
    file description. *)
Record File : Type := { ino : nat; pos : nat }.

(** An [fsnotify.Watcher] with the paths added to it. *)
Record Watcher : Type := { watched : list string }.

Record TailingReader : Type := {
  file : option File;
  filePath : string;
  options : Options.t;
  watcher : option Watcher;
  offset : Z
}.

Definition set_file (f : option File) (off : Z) (r : TailingReader) : TailingReader :=
  {| file := f; filePath := filePath r; options := options r;
     watcher := watcher r; offset := off |}.

Definition set_watcher (w : option Watcher) (r : TailingReader) : TailingReader :=
  {| file := file r; filePath := filePath r; options := options r;
     watcher := w; offset := offset r |}.

(** [int64] addition wraps around. *)
Definition wrap64 (z : Z) : Z := (z + 2 ^ 63) mod 2 ^ 64 - 2 ^ 63.

(** ** The environment *)

(** The file system as far as the reader can see it: which inode the target
    path names (if any) and what every inode holds. *)
Record World : Type := {
  w_path : option nat;
  w_data : list (nat * list byte)
}.

Fixpoint content (d : list (nat * list byte)) (i : nat) : list byte :=
  match d with
  | [] => []
  | (j, c) :: d' => if Nat.eqb i j then c else content d' i
  end.

(** What a [select] over the watcher channels and the timer yields. *)
Inductive Sel : Type :=
| SelEvent (ev : fsnotify.Event)
| SelError (code : nat)
| SelTimer.

(** One observation of the environment.  Every primitive call consumes one:
    [t_world] is the file system at that instant, [t_fault] an I/O failure
    injected into the call, [t_sel] what a [select] would receive. *)
Record Tick : Type := {
  t_world : World;
  t_fault : option nat;
  t_sel : Sel
}.

(** The primitives, for the call log. *)
Inductive Call : Type :=
| CNewWatcher
| CWatcherAdd (dir : string)
| CWatcherClose
| CStat
| COpen
| CFileRead
| CFileClose
| CWait (eventType timeout : Z).

(** A log entry: the call, the reader as it was when the call was made, and
    the observation the call consumed ([CWait] marks the start of a blocking
    wait and consumes none itself). *)
Record Entry : Type := {
  call : Call;
  before : TailingReader;
  seen : option Tick
}.

(** The whole machine: the reader, the observations still to come, and the
    calls made so far (newest first). *)
Record Machine : Type := {
  rd : TailingReader;
  env : list Tick;
  log : list Entry
}.

(** ** The monad *)

(** A call returns, is still pending when the script of observations ends,
    panics (nil dereference), or exhausts the loop budget of the model. *)
Inductive outcome (A : Type) : Type :=
| Ret (a : A) (m : Machine)
| Pending (m : Machine)
| Panic
| OutOfFuel.
Arguments Ret {A} a m.
Arguments Pending {A} m.
Arguments Panic {A}.
Arguments OutOfFuel {A}.

Definition M (A : Type) : Type := Machine -> outcome A.

Definition ret {A} (a : A) : M A := fun m => Ret a m.

Definition bind {A B} (c : M A) (k : A -> M B) : M B := fun m =>
  match c m with
  | Ret a m' => k a m'
  | Pending m' => Pending m'
  | Panic => Panic
  | OutOfFuel => OutOfFuel
  end.

Notation "x <- c ;; k" := (bind c (fun x => k))
  (at level 61, c at next level, right associativity).
Notation "' p <- c ;; k" := (bind c (fun x => let p := x in k))
  (at level 61, p pattern, c at next level, right associativity).
Notation "c ;;; k" := (bind c (fun _ => k))
  (at level 61, right associativity).

Definition get : M TailingReader := fun m => Ret (rd m) m.


Definition panic {A} : M A := fun _ => Panic.

Definition out_of_fuel {A} : M A := fun _ => OutOfFuel.

(** The machine after primitive [c] consumed [t], leaving [rest]. *)
Definition advance (c : Call) (t : Tick) (rest : list Tick) (m : Machine) : Machine :=
  {| rd := rd m; env := rest;
     log := {| call := c; before := rd m; seen := Some t |} :: log m |}.

(** Consume the next observation on behalf of primitive [c]. *)
Definition tick (c : Call) : M Tick := fun m =>
  match env m with
  | [] => Pending m
  | t :: rest => Ret t (advance c t rest m)
  end.

(** The machine after the start of a blocking wait was recorded. *)
Definition marked (c : Call) (m : Machine) : Machine :=
  {| rd := rd m; env := env m;
     log := {| call := c; before := rd m; seen := None |} :: log m |}.

Definition mark (c : Call) : M unit := fun m => Ret tt (marked c m).

Definition with_rd (r : TailingReader) (m : Machine) : Machine :=
  {| rd := r; env := env m; log := log m |}.

Definition with_env (ticks : list Tick) (m : Machine) : Machine :=
  {| rd := rd m; env := ticks; log := log m |}.

Definition put (r : TailingReader) : M unit := fun m => Ret tt (with_rd r m).

(** ** Primitives of the operating system and of fsnotify *)

(** Each primitive is a pure function of the observation it consumes. *)

(** [os.Stat(path)] followed by [fileInfo.Size()]. *)
Definition stat_of (t : Tick) : Z + error :=
  match t_fault t with
  | Some e => inr (PathError e)
  | None =>
      match w_path (t_world t) with
      | None => inr (PathError ENOENT)
      | Some i => inl (Z.of_nat (length (content (w_data (t_world t)) i)))
      end
  end.

Definition os_Stat : M (Z + error) :=
  t <- tick CStat ;; ret (stat_of t).

(** [os.Open(path)]. *)
Definition open_of (t : Tick) : File + error :=
  match t_fault t with
  | Some e => inr (PathError e)
  | None =>
      match w_path (t_world t) with
      | None => inr (PathError ENOENT)
      | Some i => inl {| ino := i; pos := 0 |}
      end
  end.

Definition os_Open : M (File + error) :=
  t <- tick COpen ;; ret (open_of t).

(** The bytes a read of [f] into a buffer of [n] bytes finds. *)
Definition available (f : File) (n : nat) (t : Tick) : list byte :=
  firstn n (skipn (pos f) (content (w_data (t_world t)) (ino f))).

(** [f.Read(p)] on a regular file: up to [len(p)] bytes from the position of
    the file description, which advances; [0, io.EOF] at end of file; [0, nil]
    for an empty buffer.  The result is the count, the error, the buffer after
    the call and the file description after the call. *)
Definition read_of (f : File) (p : list byte) (t : Tick)
  : Z * option error * list byte * File :=
  match t_fault t with
  | Some e => (0, Some (PathError e), p, f)
  | None =>
      match p with
      | [] => (0, None, p, f)
      | _ :: _ =>
          let d := available f (length p) t in
          match d with
          | [] => (0, Some io_EOF, p, f)
          | _ :: _ =>
              (Z.of_nat (length d), None, d ++ skipn (length d) p,
               {| ino := ino f; pos := pos f + length d |})
          end
      end
  end.

Definition file_Read (f : File) (p : list byte)
  : M (Z * option error * list byte * File) :=
  t <- tick CFileRead ;; ret (read_of f p t).

(** [f.Close()]. *)
Definition close_of (t : Tick) : option error :=
  match t_fault t with
  | Some e => Some (PathError e)
  | None => None
  end.

Definition file_Close : M (option error) :=
  t <- tick CFileClose ;; ret (close_of t).

(** [w.Close()]. *)
Definition watcher_close_of (t : Tick) : option error :=
  match t_fault t with
  | Some e => Some (WatcherError e)
  | None => None
  end.

Definition watcher_Close : M (option error) :=
  t <- tick CWatcherClose ;; ret (watcher_close_of t).

(** ** The methods of the reader (tailreader.go) *)

Definition closeFile : M (option error) :=
  r <- get ;;
  match file r with
  | None => ret None
  | Some _ =>
      err <- file_Close ;;
      put (set_file None 0 r) ;;;
      match err with
      | Some e => ret (Some e)
      | None => ret None
      end
  end.

Definition openFile : M (option error) :=
  r <- get ;;
  match file r with
  | Some _ => ret None
  | None =>
      res <- os_Open ;;
      match res with
      | inr e => ret (Some e)
      | inl f => put (set_file (Some f) 0 r) ;;; ret None
      end
  end.

Definition getFileSize : M (Z * option error) :=
  res <- os_Stat ;;
  match res with
  | inr e => ret (0, Some e)
  | inl size => ret (size, None)
  end.

(** The test of the event case of the [select]:
    [eventType&event.Op == event.Op && event.Name == r.filePath]. *)
Definition accepts (eventType : Z) (path : string) (ev : fsnotify.Event) : bool :=
  (Z.land eventType (fsnotify.Op ev) =? fsnotify.Op ev)
  && String.eqb (fsnotify.Name ev) path.

(** The [for { select { ... } }] of [waitForEventWithTimeout]: every turn
    receives one observation.  The timer channel is nil unless
    [timeout > 0], so a timer observation is not received then.  [None]: the
    observations ran out while the loop was still waiting. *)
Fixpoint select_loop (eventType timeout : Z) (path : string) (ticks : list Tick)
  : option ((option error * Z) * list Tick) :=
  match ticks with
  | [] => None
  | t :: rest =>
      match t_sel t with
      | SelEvent ev =>
          if accepts eventType path ev
          then Some ((None, fsnotify.Op ev), rest)
          else select_loop eventType timeout path rest
      | SelError e => Some ((Some (WatcherError e), 0), rest)
      | SelTimer =>
          if 0 <? timeout
          then Some ((Some errTimeout, 0), rest)
          else select_loop eventType timeout path rest
      end
  end.

Definition waitForEventWithTimeout (eventType timeout : Z) : M (option error * Z) :=
  r <- get ;;
  match watcher r with
  | None => panic
  | Some _ =>
      mark (CWait eventType timeout) ;;;
      fun m =>
        match select_loop eventType timeout (filePath r) (env m) with
        | None => Pending (with_env [] m)
        | Some (res, rest) => Ret res (with_env rest m)
        end
  end.

(** The tail of a turn of [waitForFile]: wait for the file to be created,
    then take the next turn [again]. *)
Definition waitForFile_wait (again : M (Z * option error)) : M (Z * option error) :=
  r <- get ;;
  '(err, _) <- waitForEventWithTimeout fsnotify.Create
                 (Options.WaitForFileTimeout (options r)) ;;
  if errors_Is_errTimeout err
  then
    if Options.TreatTimeoutsAsEOF (options r)
    then ret (0, Some io_EOF)
    else ret (0, Some ErrWaitTimeout)
  else
    match err with
    | Some e => ret (0, Some e)
    | None => again
    end.

(** One turn of the loop of [waitForFile]; [again] is the next turn. *)
Definition waitForFile_body (forceWait : bool) (again : M (Z * option error))
  : M (Z * option error) :=
  '(size, err) <- getFileSize ;;
  match err with
  | None => ret (size, None)
  | Some e =>
      r <- get ;;
      if negb (Options.WaitForFile (options r)) && negb forceWait
      then ret (0, Some e)
      else
        match file r with
        | Some _ =>
            if Options.CloseOnDelete (options r)
            then closeFile ;;; ret (0, Some io_EOF)
            else waitForFile_wait again
        | None => waitForFile_wait again
        end
  end.

Fixpoint waitForFile (fuel : nat) (forceWait : bool) : M (Z * option error) :=
  match fuel with
  | O => out_of_fuel
  | S fuel' => waitForFile_body forceWait (waitForFile fuel' forceWait)
  end.

(** [WaitForFile] drops the size and returns the error only. *)
Definition WaitForFile : M (option error) := fun m =>
  ('(_, err) <- waitForFile (S (length (env m))) true ;; ret err) m.

(** The mask of the idle wait of [Read]. *)
Definition idle_mask : Z :=
  Z.lor (Z.lor (Z.lor fsnotify.Write fsnotify.Remove) fsnotify.Rename) fsnotify.Chmod.

(** What [Read] returns: the count, the error, and the caller's buffer. *)
Definition ReadResult : Type := (Z * option error * list byte)%type.

(** The tail of a turn of [Read]: wait for changes to the file, then take the
    next turn [again]. *)
Definition Read_idle (again : M ReadResult) (p : list byte) : M ReadResult :=
  r <- get ;;
  '(err, event) <- waitForEventWithTimeout idle_mask (Options.IdleTimeout (options r)) ;;
  if errors_Is_errTimeout err
  then
    if Options.TreatTimeoutsAsEOF (options r)
    then ret (0, Some io_EOF, p)
    else ret (0, Some ErrIdleTimeout, p)
  else
    match err with
    | Some e => ret (0, Some e, p)
    | None =>
        if fsnotify.Has event fsnotify.Remove || fsnotify.Has event fsnotify.Rename
        then
          if Options.CloseOnDelete (options r)
          then ret (0, Some io_EOF, p)
          else closeFile ;;; again
        else again
    end.

(** The middle of a turn of [Read]: read new data if the size says there is
    some. *)
Definition Read_data (again : M ReadResult) (p : list byte) (size : Z) : M ReadResult :=
  r <- get ;;
  if offset r <? size
  then
    err <- openFile ;;
    match err with
    | Some e => ret (0, Some e, p)
    | None =>
        r <- get ;;
        match file r with
        | None => panic
        | Some f =>
            '(n, err, p', f') <- file_Read f p ;;
            match err with
            | Some io_EOF | None =>
                if 0 <? n
                then
                  put (set_file (Some f') (wrap64 (offset r + n)) r) ;;;
                  ret (n, None, p')
                else Read_idle again p
            | Some e => ret (0, Some e, p)
            end
        end
    end
  else Read_idle again p.

(** One turn of the loop of [Read]. *)
Definition Read_body (size_of : M (Z * option error)) (again : M ReadResult)
  (p : list byte) : M ReadResult :=
  '(size, err) <- size_of ;;
  match err with
  | Some e => ret (0, Some e, p)
  | None =>
      r <- get ;;
      if size <? offset r
      then
        closeFile ;;;
        if Options.CloseOnTruncate (options r)
        then ret (0, Some io_EOF, p)
        else Read_data again p size
      else Read_data again p size
  end.

Fixpoint Read_loop (fuel : nat) (p : list byte) : M ReadResult :=
  match fuel with
  | O => out_of_fuel
  | S fuel' => Read_body (waitForFile (S fuel') false) (Read_loop fuel' p) p
  end.

(** Every turn of either loop consumes an observation, so the number of
    observations left bounds the number of turns. *)
Definition Read (p : list byte) : M ReadResult := fun m =>
  Read_loop (S (length (env m))) p m.

Definition Close : M (option error) :=
  r <- get ;;
  match watcher r with
  | None => panic
  | Some _ =>
      err <- watcher_Close ;;
      put (set_watcher None r) ;;;
      match err with
      | Some e => ret (Some e)
      | None => closeFile
      end
  end.

(** ** Construction *)

(** What [NewTailingReader] yields: a machine holding the new reader, an
    error with the observations left, or nothing yet when the observations
    ran out. *)
Inductive constructed : Type :=
| Built (m : Machine)
| Failed (e : error) (rest : list Tick)
| Unfinished.

Section Construction.

(** [filepath.Dir] of the Go standard library. *)
Variable filepath_Dir : string -> string.

Definition NewTailingReader (path : string) (opts : list Option)
  (ticks : list Tick) : constructed :=
  let opts := match opts with [] => DefaultOptions | _ :: _ => opts end in
  let tr := {| file := None; filePath := path;
               options := fold_left (fun o (option : Option) => option o) opts Options.zero;
               watcher := None; offset := 0 |} in
  match ticks with
  | [] => Unfinished
  | t1 :: ticks1 =>
      match t_fault t1 with
      | Some e => Failed (WatcherError e) ticks1
      | None =>
          let w := {| watched := [] |} in
          let tr1 := set_watcher (Some w) tr in
          match ticks1 with
          | [] => Unfinished
          | t2 :: ticks2 =>
              match t_fault t2 with
              | Some e => Failed (WatcherError e) ticks2
              | None =>
                  let dir := filepath_Dir path in
                  Built {| rd := set_watcher (Some {| watched := [dir] |}) tr1;
                           env := ticks2;
                           log := [ {| call := CWatcherAdd dir; before := tr1; seen := Some t2 |};
                                    {| call := CNewWatcher; before := tr; seen := Some t1 |} ] |}
              end
          end
      end
  end.

End Construction.

(** ** Sequences of calls *)

Inductive Operation : Type :=
| OpRead (p : list byte)
| OpWaitForFile
| OpClose.

(** Run one call and forget what it returned. *)
Definition run_op (o : Operation) : M unit :=
  match o with
  | OpRead p => Read p ;;; ret tt
  | OpWaitForFile => WaitForFile ;;; ret tt
  | OpClose => Close ;;; ret tt
  end.

Fixpoint run_ops (os : list Operation) : M unit :=
  match os with
  | [] => ret tt
  | o :: os' => run_op o ;;; run_ops os'
  end.

(** ** Well-formedness *)

(** File sizes fit [int64]. *)
Definition wf_world (w : World) : bool :=
  forallb (fun ic => Z.of_nat (length (snd ic)) <? 2 ^ 63) (w_data w).

Definition wf_env (ticks : list Tick) : bool :=
  forallb (fun t => wf_world (t_world t)) ticks.

(** The reader's invariant: the offset is the position of the open file
    description, and it is zero when no file is open. *)
Definition inv (r : TailingReader) : Prop :=
  match file r with
  | None => offset r = 0
  | Some f => offset r = Z.of_nat (pos f)
  end.

(** ** Scenarios *)

Definition bytes (s : string) : list byte := list_byte_of_string s.

Definition world (i : option nat) (d : list (nat * list byte)) : World :=
  {| w_path := i; w_data := d |}.

(** An observation of the file system alone. *)
Definition see (w : World) : Tick :=
  {| t_world := w; t_fault := None; t_sel := SelTimer |}.

(** An observation of a failing call. *)
Definition fail_with (w : World) (e : nat) : Tick :=
  {| t_world := w; t_fault := Some e; t_sel := SelTimer |}.

(** An observation of an event arriving. *)
Definition event (w : World) (name : string) (op : Z) : Tick :=
  {| t_world := w; t_fault := None;
     t_sel := SelEvent {| fsnotify.Name := name; fsnotify.Op := op |} |}.

Definition reader (f : option File) (path : string) (o : Options.t) (off : Z)
  : TailingReader :=
  {| file := f; filePath := path; options := o;
     watcher := Some {| watched := [] |}; offset := off |}.

Definition start (r : TailingReader) (ticks : list Tick) : Machine :=
  {| rd := r; env := ticks; log := [] |}.

(** The value a call returned, if it returned. *)
Definition returned {A} (o : outcome A) : option A :=
  match o with
  | Ret a _ => Some a
  | _ => None
  end.

(** The machine a call left behind, if it returned. *)
Definition final {A} (o : outcome A) : option Machine :=
  match o with
  | Ret _ m => Some m
  | _ => None
  end.

(** ** Predicates and scenarios of the statements *)

(** What [getFileSize] makes of an observation. *)
Definition size_of_tick (t : Tick) : Z * option error :=
  match stat_of t with
  | inr e => (0, Some e)
  | inl size => (size, None)
  end.

(** The reader satisfies its invariant now and did so at every call made so
    far, and the observations to come are well formed. *)
Definition ok (m : Machine) : Prop :=
  inv (rd m) /\ wf_env (env m) = true /\ Forall (fun e => inv (before e)) (log m).

(** A blocking wait was the last thing the machine did, and the reader is as
    it was when the wait began. *)
Definition waited (eventType timeout : Z) (m : Machine) : Prop :=
  exists l,
    log m = {| call := CWait eventType timeout; before := rd m; seen := None |} :: l.

(** [r] is the reader [waitForFile] was entered with. *)
Definition waitForFile_post (r : TailingReader) (res : Z * option error)
  (m' : Machine) : Prop :=
  ok m' /\
  match snd res with
  | None =>
      rd m' = r /\
      exists t l, log m' = {| call := CStat; before := r; seen := Some t |} :: l /\
                  stat_of t = inl (fst res)
  | Some e =>
      fst res = 0 /\ e <> ErrIdleTimeout /\
      (e = ErrWaitTimeout ->
       waited fsnotify.Create (Options.WaitForFileTimeout (options (rd m'))) m' /\
       rd m' = r)
  end.

(** The last thing the machine did was a read of [n > 0] bytes into [p] from
    the open file, at the reader's offset, and the reader moved on by [n]. *)
Definition delivered (p : list byte) (n : Z) (p' : list byte) (m' : Machine) : Prop :=
  exists st f t l,
    log m' = {| call := CFileRead; before := st; seen := Some t |} :: l /\
    file st = Some f /\
    offset st = Z.of_nat (pos f) /\
    n = Z.of_nat (length (available f (length p) t)) /\
    p' = available f (length p) t ++ skipn (length (available f (length p) t)) p /\
    rd m' = set_file (Some {| ino := ino f;
                              pos := pos f + length (available f (length p) t) |})
              (offset st + n) st.

Definition Read_post (p : list byte) (res : ReadResult) (m' : Machine) : Prop :=
  ok m' /\
  match snd (fst res) with
  | None => 0 < fst (fst res) /\ delivered p (fst (fst res)) (snd res) m'
  | Some e =>
      fst (fst res) = 0 /\ snd res = p /\
      (e = ErrIdleTimeout ->
       waited idle_mask (Options.IdleTimeout (options (rd m'))) m') /\
      (e = ErrWaitTimeout ->
       waited fsnotify.Create (Options.WaitForFileTimeout (options (rd m'))) m')
  end.

(** A count with no error is positive; an error comes with a count of zero. *)
Definition shape (res : ReadResult) : Prop :=
  match snd (fst res) with
  | None => 0 < fst (fst res)
  | Some _ => fst (fst res) = 0
  end.

(** The bytes of [c] in the range [[lo, lo + n)]. *)
Definition range (c : list byte) (lo n : nat) : list byte := firstn n (skipn lo c).

(** A read that finds nothing: zero bytes, with no error or with [io.EOF]. *)
Definition reads_nothing (f : File) (p : list byte) (t : Tick) : Prop :=
  t_fault t = None /\ fst (fst (fst (read_of f p t))) = 0.

Definition defaults : Options.t :=
  fold_left (fun o (option : Option) => option o) DefaultOptions Options.zero.

Definition buffer16 : list byte := repeat x00 16.

Definition hello_world : World := world (Some 1%nat) [(1%nat, bytes "Hello, World!")].

(** A fresh reader, the file holds "Hello, World!". *)
Definition hello_start : Machine :=
  start (reader None "app.log" defaults 0) [see hello_world; see hello_world; see hello_world].

Definition hello_buffer : list byte := bytes "Hello, World!" ++ repeat x00 3.

Definition hello_end : Machine :=
  Eval vm_compute in
    match final (Read buffer16 hello_start) with
    | Some m => m
    | None => hello_start
    end.

(** Five bytes were delivered; eight more are there to be read. *)
Definition more_start : Machine :=
  start (reader (Some {| ino := 1; pos := 5 |}) "app.log" defaults 5)
    [see hello_world; see hello_world].

Definition more_buffer : list byte := bytes ", World!" ++ repeat x00 8.

Definition is_timeout (e : error) : Prop := e = ErrIdleTimeout \/ e = ErrWaitTimeout.

(** The last thing the machine did was to begin a blocking wait, and the
    reader's offset and file handle are what they were at that moment. *)
Definition unchanged_since_wait (m' : Machine) : Prop :=
  exists eventType timeout st l,
    log m' = {| call := CWait eventType timeout; before := st; seen := None |} :: l /\
    offset (rd m') = offset st /\
    file (rd m') = file st.

Definition patient : Options.t := WithIdleTimeout 5 (WithWaitForFile true 5 defaults).

(** The reader has delivered all thirteen bytes; nothing more arrives. *)
Definition idle_start : Machine :=
  start (reader (Some {| ino := 1; pos := 13 |}) "app.log" patient 13)
    [see hello_world; see hello_world].

Definition idle_end : Machine :=
  Eval vm_compute in
    match final (Read buffer16 idle_start) with
    | Some m => m
    | None => idle_start
    end.

Definition no_file : World := world None [].

(** The file never shows up. *)
Definition absent_start : Machine :=
  start (reader None "app.log" patient 0) [see no_file; see no_file].

Definition absent_end : Machine :=
  Eval vm_compute in
    match final (WaitForFile absent_start) with
    | Some m => m
    | None => absent_start
    end.

(** The offset is never negative, and it is zero when no file is open. *)
Definition sound (r : TailingReader) : Prop :=
  0 <= offset r /\ (file r = None -> offset r = 0).

Definition session_ticks : list Tick := repeat (see hello_world) 8.

Definition session_calls : list Operation := [OpRead buffer16; OpWaitForFile; OpClose].

Definition session_start : Machine :=
  Eval vm_compute in
    match NewTailingReader (fun _ => "."%string) "app.log" [] session_ticks with
    | Built m => m
    | _ => hello_start
    end.

Definition session_end : Machine :=
  Eval vm_compute in
    match final (run_ops session_calls session_start) with
    | Some m => m
    | None => session_start
    end.

(** An observation a wait passes over: an event that is not accepted, or a
    timer when the wait has no timeout. *)
Definition ignored (eventType timeout : Z) (path : string) (t : Tick) : bool :=
  match t_sel t with
  | SelEvent ev => negb (accepts eventType path ev)
  | SelError _ => false
  | SelTimer => negb (0 <? timeout)
  end.

(** What a timed-out idle wait makes [Read] return. *)
Definition idle_verdict (o : Options.t) : error :=
  if Options.TreatTimeoutsAsEOF o then io_EOF else ErrIdleTimeout.

(** All thirteen bytes are delivered; a sibling file is written to, then the
    idle timeout elapses. *)
Definition quiet_ticks : list Tick :=
  [see hello_world; event hello_world "other.log" fsnotify.Write; see hello_world].

Definition quiet_start : Machine :=
  start (reader (Some {| ino := 1; pos := 13 |}) "app.log" patient 13) quiet_ticks.

Definition quiet_eof_start : Machine :=
  start (reader (Some {| ino := 1; pos := 13 |}) "app.log"
           (WithTimeoutsAsEOF true patient) 13) (tl quiet_ticks).

(** The machine after a [Read] found the file shorter than the offset and
    released the handle: [t1] answered [os.Stat], [t2] answered [Close]. *)
Definition after_truncation (t1 t2 : Tick) (rest : list Tick) (m : Machine) : Machine :=
  with_rd (set_file None 0 (rd m))
    (advance CFileClose t2 rest (advance CStat t1 (t2 :: rest) m)).

Definition strict : Options.t := WithCloseOnTruncate true defaults.

Definition empty_world : World := world (Some 1%nat) [(1%nat, [])].

Definition again_world : World :=
  world (Some 1%nat) [(1%nat, bytes "Hello again")].

(** Thirteen bytes were delivered, then the file was emptied. *)
Definition emptied_start : Machine :=
  start (reader (Some {| ino := 1; pos := 13 |}) "app.log" strict 13)
    [see empty_world; see empty_world].

(** Thirteen bytes were delivered, then the file was rewritten with eleven. *)
Definition rewritten_start : Machine :=
  start (reader (Some {| ino := 1; pos := 13 |}) "app.log" defaults 13)
    [see again_world; see again_world; see again_world; see again_world].

Definition again_buffer : list byte := bytes "Hello again" ++ repeat x00 5.

Definition leaky_start : Machine :=
  start (reader (Some {| ino := 1; pos := 13 |}) "app.log" defaults 13)
    [fail_with hello_world 5; see hello_world].

(** The creation event arrives for the very file the reader follows, while
    the reader is idle; then the idle timeout elapses. *)
Definition created_start : Machine :=
  start (reader (Some {| ino := 1; pos := 13 |}) "app.log" patient 13)
    [see hello_world; event hello_world "app.log" fsnotify.Create; see hello_world].

(** What a timed-out wait for the file makes the caller get. *)
Definition wait_verdict (o : Options.t) : error :=
  if Options.TreatTimeoutsAsEOF o then io_EOF else ErrWaitTimeout.

(** The part of the options and of the reader that decides whether a missing
    file makes [waitForFile] wait. *)
Definition waits_when_missing (forceWait : bool) (r : TailingReader) : Prop :=
  negb (Options.WaitForFile (options r)) && negb forceWait = false /\
  (file r = None \/ Options.CloseOnDelete (options r) = false).

(** The call has not returned: it is still waiting. *)
Definition pending {A} (o : outcome A) : bool :=
  match o with
  | Pending _ => true
  | _ => false
  end.

(** The file is gone; the reader had it open, is told to close on deletion,
    and is told not to wait for files. *)
Definition gone_start : Machine :=
  start (reader (Some {| ino := 1; pos := 13 |}) "app.log"
           (WithCloseOnDelete true Options.zero) 13)
    [see no_file; see no_file].

(** No file, and the reader is told not to wait for it. *)
Definition refused_start : Machine :=
  start (reader None "app.log" Options.zero 0) [see no_file].

(** The file is gone; the reader had it open and is told to close on
    deletion. *)
Definition deleted_start : Machine :=
  start (reader (Some {| ino := 1; pos := 13 |}) "app.log"
           (WithCloseOnDelete true defaults) 13)
    [see no_file; see no_file].

(** No file, and only a sibling file is heard of. *)
Definition lonely_start : Machine :=
  start (reader None "app.log" defaults 0)
    [see no_file; event no_file "other.log" fsnotify.Create].

(** The file exists on two occasions, with different sizes. *)
Definition found13_start : Machine :=
  start (reader None "app.log" defaults 0) [see hello_world].

Definition found11_start : Machine :=
  start (reader None "app.log" defaults 0) [see again_world].

(** The reader is told not to wait for files; the file is missing, then
    created. *)
Definition forced_start : Machine :=
  start (reader None "app.log" (WithWaitForFile false 5 Options.zero) 0)
    [see no_file; event hello_world "app.log" fsnotify.Create; see hello_world].

(** The call does not use up the loop budget, and it only consumes
    observations. *)
Definition within {A} (c : M A) (m : Machine) : Prop :=
  c m <> OutOfFuel /\
  forall a m', c m = Ret a m' -> (length (env m') <= length (env m))%nat.

Definition grown_world : World :=
  world (Some 1%nat) [(1%nat, bytes "Hello, World! More")].

Definition grown_buffer : list byte := bytes " More" ++ repeat x00 11.

(** The reader is told that its file is gone: a removal or a rename. *)
Definition reports_removal (op : Z) : bool :=
  fsnotify.Has op fsnotify.Remove || fsnotify.Has op fsnotify.Rename.

(** The machine when the idle wait of a [Read] that found nothing new ends:
    [t0] answered [os.Stat] and the wait left [rest]. *)
Definition after_idle_wait (t0 : Tick) (ticks rest : list Tick) (m : Machine) : Machine :=
  with_env rest
    (marked (CWait idle_mask (Options.IdleTimeout (options (rd m))))
       (advance CStat t0 ticks m)).

(** The file is removed while the reader, told to close on deletion, is
    idle. *)
Definition removed_start : Machine :=
  start (reader (Some {| ino := 1; pos := 13 |}) "app.log"
           (WithCloseOnDelete true patient) 13)
    [see hello_world; event no_file "app.log" fsnotify.Remove].

(** Every kind the event carries is one of [ks]: each bit set in [op] is set
    in one of them. *)
Definition only_kinds (ks : list Z) (op : Z) : Prop :=
  forall i, Z.testbit op i = true -> exists k, In k ks /\ Z.testbit k i = true.

(** The file is written to while the reader is idle. *)
Definition written_start : Machine :=
  start (reader (Some {| ino := 1; pos := 13 |}) "app.log" patient 13)
    [see hello_world; event grown_world "app.log" fsnotify.Write;
     see grown_world; see grown_world].

(** No file at first; a sibling file is created, then the file itself. *)
Definition appeared_start : Machine :=
  start (reader None "app.log" patient 0)
    [see no_file; event no_file "other.log" fsnotify.Create;
     event hello_world "app.log" fsnotify.Create;
     see hello_world; see hello_world; see hello_world].

(** ** Predicates and scenarios of the further properties *)

(** [for _, option := range options { option(tr.options) }] *)
Definition apply_options (opts : list Option) (o : Options.t) : Options.t :=
  fold_left (fun o (option : Option) => option o) opts o.

(** The option functions as data, to state facts about all of them. *)
Inductive Setting : Type :=
| SetWaitForFile (wait : bool) (timeout : Z)
| SetCloseOnDelete (close : bool)
| SetCloseOnTruncate (close : bool)
| SetIdleTimeout (timeout : Z)
| SetTimeoutsAsEOF (timeoutsAsEOF : bool).

Definition option_of (s : Setting) : Option :=
  match s with
  | SetWaitForFile wait timeout => WithWaitForFile wait timeout
  | SetCloseOnDelete close => WithCloseOnDelete close
  | SetCloseOnTruncate close => WithCloseOnTruncate close
  | SetIdleTimeout timeout => WithIdleTimeout timeout
  | SetTimeoutsAsEOF b => WithTimeoutsAsEOF b
  end.

(** Two settings are of the same kind when they come from the same option
    function. *)
Definition same_kind (s1 s2 : Setting) : bool :=
  match s1, s2 with
  | SetWaitForFile _ _, SetWaitForFile _ _ => true
  | SetCloseOnDelete _, SetCloseOnDelete _ => true
  | SetCloseOnTruncate _, SetCloseOnTruncate _ => true
  | SetIdleTimeout _, SetIdleTimeout _ => true
  | SetTimeoutsAsEOF _, SetTimeoutsAsEOF _ => true
  | _, _ => false
  end.

(** What an observation that ends a wait makes the wait return. *)
Definition decisive (eventType timeout : Z) (path : string) (t : Tick)
  : option (option error * Z) :=
  match t_sel t with
  | SelEvent ev =>
      if accepts eventType path ev then Some (None, fsnotify.Op ev) else None
  | SelError e => Some (Some (WatcherError e), 0)
  | SelTimer => if 0 <? timeout then Some (Some errTimeout, 0) else None
  end.

(** The machine [m'] is what a successful read of [n] bytes into [p] makes of
    the machine [m1]: the observation is consumed by the read of the open
    file, and the reader moves on by [n]. *)
Definition read_step (m1 : Machine) (p : list byte) (n : Z) (p' : list byte)
  (m' : Machine) : Prop :=
  exists f t rest rerr f',
    file (rd m1) = Some f /\ env m1 = t :: rest /\
    read_of f p t = (n, rerr, p', f') /\ 0 < n /\
    m' = with_rd (set_file (Some f') (wrap64 (offset (rd m1) + n)) (rd m1))
           (advance CFileRead t rest m1).

(** What holds when a turn of [Read] returns, for a property [J] of machines
    and a set [E] of errors: with an error, [J] holds and the error is in
    [E]; with data, the machine is a read step away from a machine on which
    [J] held. *)
Definition Read_kept (J : Machine -> Prop) (E : error -> Prop)
  (p : list byte) (res : ReadResult) (m' : Machine) : Prop :=
  match snd (fst res) with
  | Some e => J m' /\ E e
  | None => exists m1, J m1 /\ read_step m1 p (fst (fst res)) (snd res) m'
  end.

(** The path, the options and the watcher of the reader of [m] are those of
    [r]. *)
Definition configured_as (r : TailingReader) (m : Machine) : Prop :=
  filePath (rd m) = filePath r /\ options (rd m) = options r /\
  watcher (rd m) = watcher r.

(** The errors a reader with options [o] can return. *)
Definition allowed (o : Options.t) (e : error) : Prop :=
  (Options.TreatTimeoutsAsEOF o = true -> e <> ErrIdleTimeout /\ e <> ErrWaitTimeout) /\
  (Options.IdleTimeout o <= 0 -> e <> ErrIdleTimeout) /\
  (Options.WaitForFileTimeout o <= 0 -> e <> ErrWaitTimeout) /\
  e <> errTimeout.

(** The calls made between the machines [m] and [m'], newest first. *)
Definition logged_by (m m' : Machine) : list Entry :=
  firstn (length (log m') - length (log m)) (log m').

(** Since the log was [l0] the file has been closed, or else the reader is
    still [r0]. *)
Definition closed_or_same (r0 : TailingReader) (l0 : list Entry) (m : Machine) : Prop :=
  exists new,
    log m = new ++ l0 /\ (In CFileClose (map call new) \/ rd m = r0).

(** A fresh reader; the file holds thirteen bytes at the first read and has
    grown by five at the second. *)
Definition two_reads_start : Machine :=
  start (reader None "app.log" defaults 0)
    [see hello_world; see hello_world; see hello_world;
     see grown_world; see grown_world].

Definition two_reads_mid : Machine :=
  Eval vm_compute in
    match final (Read buffer16 two_reads_start) with
    | Some m => m
    | None => two_reads_start
    end.

Definition two_reads_end : Machine :=
  Eval vm_compute in
    match final (Read buffer16 two_reads_mid) with
    | Some m => m
    | None => two_reads_mid
    end.

(** The file is there when its size is taken and gone when it is opened. *)
Definition vanished_start : Machine :=
  start (reader None "app.log" defaults 0) [see hello_world; see no_file].

(** Reading the open file fails. *)
Definition faulty_start : Machine :=
  start (reader (Some {| ino := 1; pos := 5 |}) "app.log" defaults 5)
    [see hello_world; fail_with hello_world 5].

(** Data is there, but the caller's buffer is empty. *)
Definition no_room_start : Machine :=
  start (reader (Some {| ino := 1; pos := 5 |}) "app.log" patient 5)
    [see hello_world; see hello_world; see hello_world].

Definition no_room_end : Machine :=
  Eval vm_compute in
    match final (Read [] no_room_start) with
    | Some m => m
    | None => no_room_start
    end.

(** A reader with nothing open is closed; then the file is looked at
    again. *)
Definition closing_start : Machine :=
  start (reader None "app.log" defaults 0)
    [see empty_world; see empty_world].

Definition closing_end : Machine :=
  Eval vm_compute in
    match final (Close closing_start) with
    | Some m => m
    | None => closing_start
    end.

(** The reader [r'] is [r], or [r] with its file handle released because the
    file was found deleted. *)
Definition same_or_released (r r' : TailingReader) (err : option error) : Prop :=
  r' = r \/
  (err = Some io_EOF /\ Options.CloseOnDelete (options r) = true /\
   file r <> None /\ r' = set_file None 0 r).

(** Nothing new, no idle timeout, and time goes by. *)
Definition forever_start : Machine :=
  start (reader (Some {| ino := 1; pos := 13 |}) "app.log" defaults 13)
    [see hello_world; see hello_world;
     event hello_world "other.log" fsnotify.Write; see hello_world].

(** The old file is still there under its inode; the path names a new one. *)
Definition rotated_world : World :=
  world (Some 2%nat) [(1%nat, bytes "Hello, World!"); (2%nat, bytes "fresh log")].

(** All of the old file was delivered; then the file is rotated. *)
Definition rotation_start : Machine :=
  start (reader (Some {| ino := 1; pos := 13 |}) "app.log" defaults 13)
    [see hello_world; event rotated_world "app.log" fsnotify.Rename;
     see rotated_world; see rotated_world; see rotated_world; see rotated_world].

Definition fresh_buffer : list byte := bytes "fresh log" ++ repeat x00 7.

(** The file was unlinked; its inode still holds the old bytes. *)
Definition unlinked_world : World :=
  world None [(1%nat, bytes "Hello, World!")].

(** Five bytes of the old file were delivered; the file is removed, and a
    new file of nine bytes is created in its place. *)
Definition recreated_start : Machine :=
  start (reader (Some {| ino := 1; pos := 5 |}) "app.log" defaults 5)
    [see unlinked_world; event rotated_world "app.log" fsnotify.Create;
     see rotated_world; see rotated_world].

(** * Reasoning about calls *)

(** ** Equations of the straight-line methods *)

Lemma bind_Ret {A B} (c : M A) (k : A -> M B) m a m1 :
  c m = Ret a m1 -> bind c k m = k a m1.
Proof. unfold bind; intros ->; reflexivity. Qed.

Lemma tick_cons c m t rest :
  env m = t :: rest -> tick c m = Ret t (advance c t rest m).
Proof. unfold tick; intros ->; reflexivity. Qed.

Lemma tick_nil c m : env m = [] -> tick c m = Pending m.
Proof. unfold tick; intros ->; reflexivity. Qed.

Lemma getFileSize_cons m t rest :
  env m = t :: rest ->
  getFileSize m = Ret (size_of_tick t) (advance CStat t rest m).
Proof.
  intros E. unfold getFileSize, os_Stat, size_of_tick, bind.
  rewrite (tick_cons _ _ _ _ E). unfold ret.
  destruct (stat_of t); reflexivity.
Qed.

Lemma closeFile_closed m :
  file (rd m) = None -> closeFile m = Ret None m.
Proof. unfold closeFile, bind, get; intros ->; reflexivity. Qed.

Lemma closeFile_open m f t rest :
  file (rd m) = Some f -> env m = t :: rest ->
  closeFile m = Ret (close_of t) (with_rd (set_file None 0 (rd m)) (advance CFileClose t rest m)).
Proof.
  intros F E. unfold closeFile, bind, get, file_Close, bind. rewrite F.
  rewrite (tick_cons _ _ _ _ E). unfold ret, put.
  destruct (close_of t); reflexivity.
Qed.

Lemma openFile_open m f :
  file (rd m) = Some f -> openFile m = Ret None m.
Proof. unfold openFile, bind, get; intros ->; reflexivity. Qed.

Lemma openFile_closed m t rest :
  file (rd m) = None -> env m = t :: rest ->
  openFile m =
  match open_of t with
  | inr e => Ret (Some e) (advance COpen t rest m)
  | inl f => Ret None (with_rd (set_file (Some f) 0 (rd m)) (advance COpen t rest m))
  end.
Proof.
  intros F E. unfold openFile, bind, get, os_Open, bind. rewrite F.
  rewrite (tick_cons _ _ _ _ E). unfold ret, put.
  destruct (open_of t); reflexivity.
Qed.

Lemma file_Read_cons f p m t rest :
  env m = t :: rest ->
  file_Read f p m = Ret (read_of f p t) (advance CFileRead t rest m).
Proof.
  intros E. unfold file_Read, bind. rewrite (tick_cons _ _ _ _ E).
  reflexivity.
Qed.

Lemma waitForEventWithTimeout_eq eventType timeout m w :
  watcher (rd m) = Some w ->
  waitForEventWithTimeout eventType timeout m =
  match select_loop eventType timeout (filePath (rd m)) (env m) with
  | None => Pending (with_env [] (marked (CWait eventType timeout) m))
  | Some (res, rest) => Ret res (with_env rest (marked (CWait eventType timeout) m))
  end.
Proof.
  intros W. unfold waitForEventWithTimeout, bind, get, mark. rewrite W.
  reflexivity.
Qed.

(** ** What a returning call went through *)

Lemma bind_inv {A B} (c : M A) (k : A -> M B) m b m' :
  bind c k m = Ret b m' ->
  exists a m1, c m = Ret a m1 /\ k a m1 = Ret b m'.
Proof.
  unfold bind. destruct (c m) as [a m1| | |]; try discriminate.
  intros H. exists a, m1. split; [reflexivity | exact H].
Qed.

Lemma ret_inv {A} (a b : A) m m' : ret a m = Ret b m' -> b = a /\ m' = m.
Proof. unfold ret. intros H. inversion H. split; reflexivity. Qed.

Lemma tick_inv c m t m' :
  tick c m = Ret t m' ->
  exists rest, env m = t :: rest /\ m' = advance c t rest m.
Proof.
  unfold tick. destruct (env m) as [|t0 rest] eqn:E; try discriminate.
  intros H. inversion H. subst. exists rest. split; reflexivity.
Qed.

Lemma getFileSize_inv m res m' :
  getFileSize m = Ret res m' ->
  exists t rest, env m = t :: rest /\ m' = advance CStat t rest m /\
                 res = size_of_tick t.
Proof.
  destruct (env m) as [|t rest] eqn:E.
  - unfold getFileSize, os_Stat, bind. rewrite (tick_nil _ _ E). discriminate.
  - rewrite (getFileSize_cons _ _ _ E). intros H. inversion H. subst.
    exists t, rest. repeat split.
Qed.

Lemma closeFile_inv m err m' :
  closeFile m = Ret err m' ->
  (file (rd m) = None /\ m' = m /\ err = None) \/
  (exists f t rest, file (rd m) = Some f /\ env m = t :: rest /\
     m' = with_rd (set_file None 0 (rd m)) (advance CFileClose t rest m) /\
     err = close_of t).
Proof.
  destruct (file (rd m)) as [f|] eqn:F.
  - destruct (env m) as [|t rest] eqn:E.
    + unfold closeFile, bind, get, file_Close, bind. rewrite F, (tick_nil _ _ E).
      discriminate.
    + rewrite (closeFile_open _ _ _ _ F E). intros H. inversion H. subst.
      right. exists f, t, rest. repeat split.
  - rewrite (closeFile_closed _ F). intros H. inversion H. subst.
    left. repeat split.
Qed.

Lemma openFile_inv m err m' :
  openFile m = Ret err m' ->
  (exists f, file (rd m) = Some f /\ m' = m /\ err = None) \/
  (exists t rest, file (rd m) = None /\ env m = t :: rest /\
     match open_of t with
     | inr e => err = Some e /\ m' = advance COpen t rest m
     | inl f => err = None /\
                m' = with_rd (set_file (Some f) 0 (rd m)) (advance COpen t rest m)
     end).
Proof.
  destruct (file (rd m)) as [f|] eqn:F.
  - rewrite (openFile_open _ _ F). intros H. inversion H. subst.
    left. exists f. repeat split.
  - destruct (env m) as [|t rest] eqn:E.
    + unfold openFile, bind, get, os_Open, bind. rewrite F, (tick_nil _ _ E).
      discriminate.
    + rewrite (openFile_closed _ _ _ F E).
      destruct (open_of t) as [f|e] eqn:O; intros H; inversion H; subst;
        right; exists t, rest; rewrite O; repeat split.
Qed.

Lemma file_Read_inv f p m res m' :
  file_Read f p m = Ret res m' ->
  exists t rest, env m = t :: rest /\ m' = advance CFileRead t rest m /\
                 res = read_of f p t.
Proof.
  destruct (env m) as [|t rest] eqn:E.
  - unfold file_Read, bind. rewrite (tick_nil _ _ E). discriminate.
  - rewrite (file_Read_cons _ _ _ _ _ E). intros H. inversion H. subst.
    exists t, rest. repeat split.
Qed.

Lemma waitForEventWithTimeout_inv eventType timeout m res m' :
  waitForEventWithTimeout eventType timeout m = Ret res m' ->
  exists rest,
    select_loop eventType timeout (filePath (rd m)) (env m) = Some (res, rest) /\
    m' = with_env rest (marked (CWait eventType timeout) m).
Proof.
  destruct (watcher (rd m)) as [w|] eqn:W.
  - rewrite (waitForEventWithTimeout_eq _ _ _ _ W).
    destruct (select_loop _ _ _ _) as [[res0 rest]|]; try discriminate.
    intros H. inversion H. subst. exists rest. split; reflexivity.
  - unfold waitForEventWithTimeout, bind, get. rewrite W. discriminate.
Qed.

(** The observations left over by [select_loop] are a suffix of those it
    started with. *)
Lemma select_loop_suffix eventType timeout path ticks res rest :
  select_loop eventType timeout path ticks = Some (res, rest) ->
  exists pre, ticks = pre ++ rest /\ pre <> [].
Proof.
  induction ticks as [|t ticks IH]; simpl; try discriminate.
  destruct (t_sel t) as [ev|e|].
  - destruct (accepts eventType path ev).
    + intros H. inversion H. subst. exists [t]. split; [reflexivity|discriminate].
    + intros H. destruct (IH H) as (pre & -> & _).
      exists (t :: pre). split; [reflexivity|discriminate].
  - intros H. inversion H. subst. exists [t]. split; [reflexivity|discriminate].
  - destruct (0 <? timeout).
    + intros H. inversion H. subst. exists [t]. split; [reflexivity|discriminate].
    + intros H. destruct (IH H) as (pre & -> & _).
      exists (t :: pre). split; [reflexivity|discriminate].
Qed.

(** ** The machine invariant *)

(** A machine that starts from a sound reader and an empty log. *)
Ltac ok_start := split; [reflexivity | split; [reflexivity | apply Forall_nil]].

Lemma wf_env_app pre rest :
  wf_env (pre ++ rest) = true -> wf_env rest = true.
Proof.
  unfold wf_env. rewrite forallb_app. intros H.
  apply andb_true_iff in H. apply H.
Qed.

Lemma ok_advance c t rest m :
  ok m -> env m = t :: rest -> ok (advance c t rest m).
Proof.
  intros (I & W & L) E. split; [exact I|]. split.
  - simpl. rewrite E in W. simpl in W. apply andb_true_iff in W. apply W.
  - simpl. constructor; [exact I | exact L].
Qed.

Lemma wf_tick t rest :
  wf_env (t :: rest) = true -> wf_world (t_world t) = true.
Proof. simpl. intros H. apply andb_true_iff in H. apply H. Qed.

Lemma ok_with_rd r m : inv r -> ok m -> ok (with_rd r m).
Proof. intros I (_ & W & L). split; [|split]; assumption. Qed.

Lemma inv_closed r : inv (set_file None 0 r).
Proof. reflexivity. Qed.

Lemma inv_fresh i r : inv (set_file (Some {| ino := i; pos := 0 |}) 0 r).
Proof. reflexivity. Qed.

Lemma inv_nonneg r : inv r -> 0 <= offset r.
Proof. unfold inv. destruct (file r); intros ->; lia. Qed.

Lemma ok_waited c rest m pre :
  ok m -> env m = pre ++ rest -> ok (with_env rest (marked c m)).
Proof.
  intros (I & W & L) E. split; [exact I|]. split.
  - simpl. rewrite E in W. exact (wf_env_app _ _ W).
  - simpl. constructor; [exact I | exact L].
Qed.

(** The only errors a wait ends with are the timeout and the errors of the
    watcher. *)
Lemma select_loop_error eventType timeout path ticks e op rest :
  select_loop eventType timeout path ticks = Some ((Some e, op), rest) ->
  e = errTimeout \/ exists code, e = WatcherError code.
Proof.
  induction ticks as [|t ticks IH]; simpl; try discriminate.
  destruct (t_sel t) as [ev|code|].
  - destruct (accepts eventType path ev); [discriminate | exact IH].
  - intros H. inversion H. right. exists code. reflexivity.
  - destruct (0 <? timeout); [|exact IH].
    intros H. inversion H. left. reflexivity.
Qed.

(** ** What [waitForFile] guarantees when it returns *)

Lemma waitForFile_wait_spec again m res m' :
  (forall m1, ok m1 -> rd m1 = rd m -> again m1 = Ret res m' ->
              waitForFile_post (rd m) res m') ->
  ok m ->
  waitForFile_wait again m = Ret res m' ->
  waitForFile_post (rd m) res m'.
Proof.
  intros IH OK H. unfold waitForFile_wait in H.
  apply bind_inv in H. destruct H as (r & m0 & G & H).
  unfold get in G. inversion G; subst r m0; clear G.
  apply bind_inv in H. destruct H as ([err ev] & m1 & Hw & H).
  apply waitForEventWithTimeout_inv in Hw. destruct Hw as (rest & Hs & ->).
  pose proof (select_loop_suffix _ _ _ _ _ _ Hs) as (pre & E & _).
  pose proof (ok_waited (CWait fsnotify.Create
                           (Options.WaitForFileTimeout (options (rd m))))
                rest m pre OK E) as OK1.
  simpl in H.
  destruct (errors_Is_errTimeout err) eqn:T.
  - destruct (Options.TreatTimeoutsAsEOF (options (rd m)));
      apply ret_inv in H; destruct H as [-> ->]; (split; [exact OK1|]); simpl.
    + repeat split; discriminate.
    + repeat split; try discriminate. eexists. reflexivity.
  - destruct err as [e|].
    + apply ret_inv in H; destruct H as [-> ->]. split; [exact OK1|]. simpl.
      destruct (select_loop_error _ _ _ _ _ _ _ Hs) as [->|[c ->]];
        [discriminate|].
      repeat split; discriminate.
    + apply IH in H; [exact H | exact OK1 | reflexivity].
Qed.

Lemma size_of_tick_ok t size :
  size_of_tick t = (size, None) -> stat_of t = inl size.
Proof.
  unfold size_of_tick. destruct (stat_of t); intros H; inversion H; reflexivity.
Qed.

Lemma size_of_tick_err t size e :
  size_of_tick t = (size, Some e) -> size = 0 /\ stat_of t = inr e.
Proof.
  unfold size_of_tick. destruct (stat_of t); intros H; inversion H; subst.
  split; reflexivity.
Qed.

(** A failing [os.Stat] is never one of the package's timeouts. *)
Lemma stat_of_err t e : stat_of t = inr e -> exists errno, e = PathError errno.
Proof.
  unfold stat_of. destruct (t_fault t) as [c|].
  - intros H. inversion H. exists c. reflexivity.
  - destruct (w_path (t_world t)); intros H; inversion H.
    exists ENOENT. reflexivity.
Qed.

Lemma waitForFile_spec fuel forceWait m res m' :
  ok m ->
  waitForFile fuel forceWait m = Ret res m' ->
  waitForFile_post (rd m) res m'.
Proof.
  revert m. induction fuel as [|fuel IH]; intros m OK H; [discriminate|].
  simpl in H. unfold waitForFile_body in H.
  apply bind_inv in H. destruct H as ([size err] & m1 & Hs & H).
  apply getFileSize_inv in Hs. destruct Hs as (t & rest & E & -> & Hs).
  pose proof (ok_advance CStat t rest m OK E) as OK1.
  simpl in H. destruct err as [e|].
  - symmetry in Hs. apply size_of_tick_err in Hs. destruct Hs as [-> Hs].
    apply bind_inv in H. destruct H as (r & m0 & G & H).
    unfold get in G. inversion G; subst r m0; clear G. simpl in H.
    destruct (negb (Options.WaitForFile (options (rd m))) && negb forceWait).
    + apply ret_inv in H. destruct H as [-> ->]. split; [exact OK1|]. simpl.
      destruct (stat_of_err _ _ Hs) as [c ->].
      repeat split; discriminate.
    + assert (W : waitForFile_wait (waitForFile fuel forceWait)
                    (advance CStat t rest m) = Ret res m' ->
                  waitForFile_post (rd m) res m').
      { intros H1. apply (waitForFile_wait_spec _ _ _ _) in H1; [exact H1| |exact OK1].
        intros m1 OKm1 R1 H2. rewrite <- R1. apply IH; assumption. }
      destruct (file (rd m)) as [f|] eqn:F; [|exact (W H)].
      destruct (Options.CloseOnDelete (options (rd m))); [|exact (W H)].
      apply bind_inv in H. destruct H as (cerr & m2 & Hc & H).
      apply ret_inv in H. destruct H as [-> ->].
      apply closeFile_inv in Hc.
      destruct Hc as [(_ & -> & _)|(f' & t' & rest' & _ & E' & -> & _)].
      * split; [exact OK1|]. simpl. repeat split; discriminate.
      * split.
        -- apply ok_with_rd; [apply inv_closed|].
           apply (ok_advance CFileClose t' rest' _ OK1 E').
        -- simpl. repeat split; discriminate.
  - symmetry in Hs. apply size_of_tick_ok in Hs.
    apply ret_inv in H. destruct H as [-> ->]. split; [exact OK1|]. simpl.
    split; [reflexivity|]. exists t, (log m). split; [reflexivity|exact Hs].
Qed.

(** ** What [Read] guarantees when it returns *)

Lemma wrap64_small z : - 2 ^ 63 <= z < 2 ^ 63 -> wrap64 z = z.
Proof.
  intros H. unfold wrap64.
  rewrite Z.mod_small by lia. lia.
Qed.

Lemma content_wf w i :
  wf_world w = true -> Z.of_nat (length (content (w_data w) i)) < 2 ^ 63.
Proof.
  unfold wf_world. induction (w_data w) as [|[j c] d IH]; simpl.
  - intros _. lia.
  - intros H. apply andb_true_iff in H. destruct H as [Hc Hd].
    destruct (Nat.eqb i j); [apply Z.ltb_lt; exact Hc | exact (IH Hd)].
Qed.

Lemma available_bound f n t :
  (pos f + length (available f n t) <= Nat.max (pos f) (length (content (w_data (t_world t)) (ino f))))%nat.
Proof.
  unfold available. rewrite length_firstn, length_skipn. lia.
Qed.

Lemma read_of_cases f p t :
  (exists c, read_of f p t = (0, Some (PathError c), p, f)) \/
  read_of f p t = (0, Some io_EOF, p, f) \/
  read_of f p t = (0, None, p, f) \/
  (available f (length p) t <> [] /\
   read_of f p t =
   (Z.of_nat (length (available f (length p) t)), None,
    available f (length p) t ++ skipn (length (available f (length p) t)) p,
    {| ino := ino f; pos := pos f + length (available f (length p) t) |})).
Proof.
  unfold read_of. destruct (t_fault t) as [e|].
  - left. exists e. reflexivity.
  - destruct p as [|b p]; [right; right; left; reflexivity|].
    destruct (available f (length (b :: p)) t) as [|x d] eqn:D.
    + right. left. reflexivity.
    + right. right. right. split; [discriminate|reflexivity].
Qed.

Lemma Read_post_error p e m' :
  ok m' -> e <> ErrIdleTimeout -> e <> ErrWaitTimeout ->
  Read_post p (0, Some e, p) m'.
Proof.
  intros OK H1 H2. split; [exact OK|]. simpl.
  repeat split; intros ->; contradiction.
Qed.

Lemma Read_idle_spec again p m res m' :
  (forall m1, ok m1 -> again m1 = Ret res m' -> Read_post p res m') ->
  ok m ->
  Read_idle again p m = Ret res m' ->
  Read_post p res m'.
Proof.
  intros IH OK H. unfold Read_idle in H.
  apply bind_inv in H. destruct H as (r & m0 & G & H).
  unfold get in G. inversion G; subst r m0; clear G.
  apply bind_inv in H. destruct H as ([err ev] & m1 & Hw & H).
  apply waitForEventWithTimeout_inv in Hw. destruct Hw as (rest & Hs & ->).
  pose proof (select_loop_suffix _ _ _ _ _ _ Hs) as (pre & E & _).
  pose proof (ok_waited (CWait idle_mask (Options.IdleTimeout (options (rd m))))
                rest m pre OK E) as OK1.
  simpl in H.
  destruct (errors_Is_errTimeout err) eqn:T.
  - destruct (Options.TreatTimeoutsAsEOF (options (rd m)));
      apply ret_inv in H; destruct H as [-> ->].
    + apply Read_post_error; [exact OK1|discriminate|discriminate].
    + split; [exact OK1|]. simpl. repeat split; try discriminate.
      intros _. eexists. reflexivity.
  - destruct err as [e|].
    + apply ret_inv in H; destruct H as [-> ->].
      destruct (select_loop_error _ _ _ _ _ _ _ Hs) as [->|[c ->]];
        [discriminate|].
      apply Read_post_error; [exact OK1|discriminate|discriminate].
    + destruct (fsnotify.Has ev fsnotify.Remove || fsnotify.Has ev fsnotify.Rename).
      * destruct (Options.CloseOnDelete (options (rd m))).
        -- apply ret_inv in H; destruct H as [-> ->].
           apply Read_post_error; [exact OK1|discriminate|discriminate].
        -- apply bind_inv in H. destruct H as (cerr & m2 & Hc & H).
           apply closeFile_inv in Hc.
           destruct Hc as [(_ & -> & _)|(f' & t' & rest' & _ & E' & -> & _)].
           ++ exact (IH _ OK1 H).
           ++ refine (IH _ _ H). apply ok_with_rd; [apply inv_closed|].
              apply (ok_advance CFileClose t' rest' _ OK1 E').
      * exact (IH _ OK1 H).
Qed.

Lemma openFile_spec m err m' :
  ok m -> openFile m = Ret err m' ->
  ok m' /\
  match err with
  | None => exists f, file (rd m') = Some f
  | Some e => exists c, e = PathError c
  end.
Proof.
  intros OK Ho. apply openFile_inv in Ho.
  destruct Ho as [(f & F & -> & ->)|(t & rest & F & E & Ho)].
  - split; [exact OK|]. exists f; exact F.
  - pose proof (ok_advance COpen t rest m OK E) as OKa.
    unfold open_of in Ho.
    destruct (t_fault t) as [c|].
    + destruct Ho as [-> ->]. split; [exact OKa|]. exists c. reflexivity.
    + destruct (w_path (t_world t)) as [i|].
      * destruct Ho as [-> ->]. split.
        -- apply ok_with_rd; [apply inv_fresh|exact OKa].
        -- eexists. reflexivity.
      * destruct Ho as [-> ->]. split; [exact OKa|]. exists ENOENT. reflexivity.
Qed.

Lemma Read_data_spec again p size m res m' :
  (forall m1, ok m1 -> again m1 = Ret res m' -> Read_post p res m') ->
  ok m ->
  Read_data again p size m = Ret res m' ->
  Read_post p res m'.
Proof.
  intros IH OK H. unfold Read_data in H.
  apply bind_inv in H. destruct H as (r & m0 & G & H).
  unfold get in G. inversion G; subst r m0; clear G. simpl in H.
  destruct (offset (rd m) <? size); [|exact (Read_idle_spec _ _ _ _ _ IH OK H)].
  apply bind_inv in H. destruct H as (oerr & m1 & Ho & H).
  destruct (openFile_spec _ _ _ OK Ho) as [OK1 Hf]. clear Ho.
  destruct oerr as [e|].
  - apply ret_inv in H. destruct H as [-> ->].
    destruct Hf as [c ->].
    apply Read_post_error; [exact OK1|discriminate|discriminate].
  - destruct Hf as [f F].
    apply bind_inv in H. destruct H as (r & m0 & G & H).
    unfold get in G. inversion G; subst r m0; clear G. simpl in H.
    rewrite F in H.
    apply bind_inv in H. destruct H as ([[[n rerr] p'] f'] & m2 & Hr & H).
    apply file_Read_inv in Hr. destruct Hr as (t & rest & E & -> & Hr).
    pose proof (ok_advance CFileRead t rest m1 OK1 E) as OK2.
    simpl in H.
    destruct (read_of_cases f p t) as [[c Hc]|[Hc|[Hc|[Hd Hc]]]];
      rewrite Hc in Hr; inversion Hr; subst n rerr p' f'; clear Hr.
    + apply ret_inv in H; destruct H as [-> ->].
      apply Read_post_error; [exact OK2|discriminate|discriminate].
    + exact (Read_idle_spec _ _ _ _ _ IH OK2 H).
    + exact (Read_idle_spec _ _ _ _ _ IH OK2 H).
    + set (d := available f (length p) t) in *.
      assert (L : 0 < Z.of_nat (length d)).
      { destruct d; [contradiction|simpl; lia]. }
      apply Z.ltb_lt in L. rewrite L in H. apply Z.ltb_lt in L.
      apply bind_inv in H. destruct H as ([] & m3 & Hp & H).
      unfold put in Hp. inversion Hp; subst m3; clear Hp.
      apply ret_inv in H; destruct H as [-> ->].
      destruct OK1 as (I1 & W1 & _). unfold inv in I1. rewrite F in I1.
      assert (B : wrap64 (offset (rd m1) + Z.of_nat (length d)) =
                  offset (rd m1) + Z.of_nat (length d)).
      { apply wrap64_small.
        pose proof (available_bound f (length p) t) as B. fold d in B.
        rewrite E in W1. apply wf_tick in W1.
        pose proof (content_wf _ (ino f) W1) as C.
        rewrite I1. lia. }
      split.
      * apply ok_with_rd; [|exact OK2]. unfold inv. simpl. rewrite B, I1. lia.
      * simpl. split; [exact L|].
        exists (rd m1), f, t, (log m1). fold d.
        repeat split; try assumption. simpl. rewrite B. reflexivity.
Qed.

Lemma Read_body_spec size_of again p m res m' :
  (forall sz m1, size_of m = Ret sz m1 -> waitForFile_post (rd m) sz m1) ->
  (forall m1, ok m1 -> again m1 = Ret res m' -> Read_post p res m') ->
  ok m ->
  Read_body size_of again p m = Ret res m' ->
  Read_post p res m'.
Proof.
  intros Hsz IH OK H. unfold Read_body in H.
  apply bind_inv in H. destruct H as ([size err] & m1 & Hs & H).
  apply Hsz in Hs. destruct Hs as [OK1 Hs]. simpl in Hs, H.
  destruct err as [e|].
  - apply ret_inv in H; destruct H as [-> ->]. destruct Hs as (_ & Hn & Hs).
    split; [exact OK1|]. simpl. repeat split.
    + intros ->. contradiction.
    + intros He. apply (Hs He).
  - apply bind_inv in H. destruct H as (r & m0 & G & H).
    unfold get in G. inversion G; subst r m0; clear G. simpl in H.
    destruct (size <? offset (rd m1));
      [|exact (Read_data_spec _ _ _ _ _ _ IH OK1 H)].
    apply bind_inv in H. destruct H as (cerr & m2 & Hc & H).
    assert (OK2 : ok m2).
    { apply closeFile_inv in Hc.
      destruct Hc as [(_ & -> & _)|(f' & t' & rest' & _ & E' & -> & _)].
      - exact OK1.
      - apply ok_with_rd; [apply inv_closed|].
        apply (ok_advance CFileClose t' rest' _ OK1 E'). }
    destruct (Options.CloseOnTruncate (options (rd m1))).
    + apply ret_inv in H; destruct H as [-> ->].
      apply Read_post_error; [exact OK2|discriminate|discriminate].
    + exact (Read_data_spec _ _ _ _ _ _ IH OK2 H).
Qed.

Lemma Read_loop_spec fuel p m res m' :
  ok m ->
  Read_loop fuel p m = Ret res m' ->
  Read_post p res m'.
Proof.
  revert m. induction fuel as [|fuel IH]; intros m OK H; [discriminate|].
  cbn [Read_loop] in H. refine (Read_body_spec _ _ _ _ _ _ _ _ OK H).
  - intros sz m1. apply (waitForFile_spec (S fuel) false). exact OK.
  - intros m1 OK1 H1. exact (IH m1 OK1 H1).
Qed.

(** ** The loop budget is never exhausted *)

(** Every turn of the loops of [waitForFile] and [Read] consumes at least one
    observation, so a budget above the number of observations left is never
    used up: [Read] and [WaitForFile] return, are pending, or panic. *)

Lemma bind_within {A B} (c : M A) (k : A -> M B) m :
  within c m ->
  (forall a m1, c m = Ret a m1 -> within (k a) m1) ->
  within (bind c k) m.
Proof.
  intros [N L] K. unfold within, bind.
  destruct (c m) as [a m1| m1 | |] eqn:E.
  - destruct (K a m1 eq_refl) as [N1 L1]. split; [exact N1|].
    intros b m' H. pose proof (L1 b m' H). pose proof (L a m1 eq_refl). lia.
  - split; [discriminate|]. intros b m' H. discriminate.
  - split; [discriminate|]. intros b m' H. discriminate.
  - contradiction.
Qed.

Lemma ret_within {A} (a : A) m : within (ret a) m.
Proof.
  split; [discriminate|]. intros b m' H. apply ret_inv in H.
  destruct H as [_ ->]. lia.
Qed.

Lemma get_within m : within get m.
Proof. split; [discriminate|]. intros b m' H. inversion H. lia. Qed.

Lemma put_within r m : within (put r) m.
Proof. split; [discriminate|]. intros b m' H. inversion H. simpl. lia. Qed.

Lemma tick_within c m : within (tick c) m.
Proof.
  split.
  - unfold tick. destruct (env m); discriminate.
  - intros t m' H. apply tick_inv in H. destruct H as (rest & E & ->).
    rewrite E. simpl. lia.
Qed.

Lemma getFileSize_within m : within getFileSize m.
Proof.
  split.
  - unfold getFileSize, os_Stat, bind, tick. destruct (env m); [discriminate|].
    unfold ret. destruct (stat_of t); discriminate.
  - intros res m' H. apply getFileSize_inv in H.
    destruct H as (t & rest & E & -> & _). rewrite E. simpl. lia.
Qed.

Lemma getFileSize_consumes m res m' :
  getFileSize m = Ret res m' -> (length (env m') < length (env m))%nat.
Proof.
  intros H. apply getFileSize_inv in H.
  destruct H as (t & rest & E & -> & _). rewrite E. simpl. lia.
Qed.

Lemma closeFile_within m : within closeFile m.
Proof.
  split.
  - unfold closeFile, bind, get. destruct (file (rd m)); [|discriminate].
    unfold file_Close, bind, tick. destruct (env m); [discriminate|].
    unfold ret, put. destruct (close_of t); discriminate.
  - intros err m' H. apply closeFile_inv in H.
    destruct H as [(_ & -> & _)|(f & t & rest & _ & E & -> & _)]; [lia|].
    rewrite E. simpl. lia.
Qed.

Lemma openFile_within m : within openFile m.
Proof.
  split.
  - unfold openFile, bind, get. destruct (file (rd m)); [discriminate|].
    unfold os_Open, bind, tick. destruct (env m); [discriminate|].
    unfold ret, put. destruct (open_of t); discriminate.
  - intros err m' H. apply openFile_inv in H.
    destruct H as [(f & _ & -> & _)|(t & rest & _ & E & H)]; [lia|].
    rewrite E. destruct (open_of t); destruct H as [_ ->]; simpl; lia.
Qed.

Lemma file_Read_within f p m : within (file_Read f p) m.
Proof.
  split.
  - unfold file_Read, bind, tick. destruct (env m); discriminate.
  - intros res m' H. apply file_Read_inv in H.
    destruct H as (t & rest & E & -> & _). rewrite E. simpl. lia.
Qed.

Lemma waitForEventWithTimeout_within eventType timeout m :
  within (waitForEventWithTimeout eventType timeout) m.
Proof.
  split.
  - unfold waitForEventWithTimeout, bind, get.
    destruct (watcher (rd m)); [|discriminate]. unfold mark.
    destruct (select_loop _ _ _ _) as [[res rest]|]; discriminate.
  - intros res m' H. apply waitForEventWithTimeout_inv in H.
    destruct H as (rest & Hs & ->).
    apply select_loop_suffix in Hs. destruct Hs as (pre & E & _).
    simpl. rewrite E, length_app. lia.
Qed.

Lemma waitForFile_wait_within again m :
  (forall m1, (length (env m1) <= length (env m))%nat -> within again m1) ->
  within (waitForFile_wait again) m.
Proof.
  intros IH. unfold waitForFile_wait.
  apply bind_within; [apply get_within|]. intros r m0 G.
  inversion G; subst r m0; clear G.
  apply bind_within; [apply waitForEventWithTimeout_within|].
  intros [err ev] m1 Hw. simpl.
  pose proof (proj2 (waitForEventWithTimeout_within _ _ m) _ _ Hw) as L.
  destruct (errors_Is_errTimeout err).
  - destruct (Options.TreatTimeoutsAsEOF (options (rd m))); apply ret_within.
  - destruct err; [apply ret_within | exact (IH m1 L)].
Qed.

Lemma waitForFile_within fuel forceWait m :
  (length (env m) < fuel)%nat -> within (waitForFile fuel forceWait) m.
Proof.
  revert m. induction fuel as [|fuel IH]; intros m B; [lia|].
  cbn [waitForFile]. unfold waitForFile_body.
  apply bind_within; [apply getFileSize_within|]. intros [size err] m1 Hs.
  apply getFileSize_consumes in Hs. simpl.
  destruct err as [e|]; [|apply ret_within].
  apply bind_within; [apply get_within|]. intros r m0 G.
  inversion G; subst r m0; clear G. simpl.
  destruct (negb (Options.WaitForFile (options (rd m1))) && negb forceWait);
    [apply ret_within|].
  assert (W : within (waitForFile_wait (waitForFile fuel forceWait)) m1).
  { apply waitForFile_wait_within. intros m2 L. apply IH. lia. }
  destruct (file (rd m1)); [|exact W].
  destruct (Options.CloseOnDelete (options (rd m1))); [|exact W].
  apply bind_within; [apply closeFile_within|]. intros cerr m2 _.
  apply ret_within.
Qed.

Lemma Read_idle_within again p m :
  (forall m1, (length (env m1) <= length (env m))%nat -> within again m1) ->
  within (Read_idle again p) m.
Proof.
  intros IH. unfold Read_idle.
  apply bind_within; [apply get_within|]. intros r m0 G.
  inversion G; subst r m0; clear G.
  apply bind_within; [apply waitForEventWithTimeout_within|].
  intros [err ev] m1 Hw. simpl.
  pose proof (proj2 (waitForEventWithTimeout_within _ _ m) _ _ Hw) as L.
  destruct (errors_Is_errTimeout err).
  - destruct (Options.TreatTimeoutsAsEOF (options (rd m))); apply ret_within.
  - destruct err; [apply ret_within|].
    destruct (fsnotify.Has ev fsnotify.Remove || fsnotify.Has ev fsnotify.Rename);
      [|exact (IH m1 L)].
    destruct (Options.CloseOnDelete (options (rd m))); [apply ret_within|].
    apply bind_within; [apply closeFile_within|]. intros cerr m2 Hc.
    pose proof (proj2 (closeFile_within m1) _ _ Hc). apply IH. lia.
Qed.

Lemma Read_data_within again p size m :
  (forall m1, (length (env m1) <= length (env m))%nat -> within again m1) ->
  within (Read_data again p size) m.
Proof.
  intros IH. unfold Read_data.
  apply bind_within; [apply get_within|]. intros r m0 G.
  inversion G; subst r m0; clear G. simpl.
  destruct (offset (rd m) <? size); [|exact (Read_idle_within _ _ _ IH)].
  apply bind_within; [apply openFile_within|]. intros oerr m1 Ho.
  pose proof (proj2 (openFile_within m) _ _ Ho) as L1.
  destruct oerr; [apply ret_within|].
  apply bind_within; [apply get_within|]. intros r m0 G.
  inversion G; subst r m0; clear G. simpl.
  destruct (file (rd m1)) as [f|]; [|split; [discriminate|intros ? ? H; discriminate]].
  apply bind_within; [apply file_Read_within|].
  intros [[[n rerr] p'] f'] m2 Hr.
  pose proof (proj2 (file_Read_within f p m1) _ _ Hr) as L2. simpl.
  assert (I : within (Read_idle again p) m2).
  { apply Read_idle_within. intros m3 L3. apply IH. lia. }
  assert (G : within (if 0 <? n
                      then put (set_file (Some f') (wrap64 (offset (rd m1) + n)) (rd m1)) ;;;
                           ret (n, None, p')
                      else Read_idle again p) m2).
  { destruct (0 <? n); [|exact I].
    apply bind_within; [apply put_within|]. intros u m3 _. apply ret_within. }
  destruct rerr as [e|]; [|exact G].
  destruct e; try exact G; apply ret_within.
Qed.

Lemma waitForFile_consumes fuel forceWait m res m' :
  waitForFile fuel forceWait m = Ret res m' ->
  (length (env m') < length (env m))%nat.
Proof.
  revert m. induction fuel as [|fuel IH]; intros m H; [discriminate|].
  cbn [waitForFile] in H. unfold waitForFile_body in H.
  apply bind_inv in H. destruct H as ([size err] & m1 & Hs & H).
  apply getFileSize_consumes in Hs. simpl in H.
  destruct err as [e|].
  - apply bind_inv in H. destruct H as (r & m0 & G & H).
    inversion G; subst r m0; clear G. simpl in H.
    destruct (negb (Options.WaitForFile (options (rd m1))) && negb forceWait).
    { apply ret_inv in H. destruct H as [_ ->]. exact Hs. }
    assert (W : waitForFile_wait (waitForFile fuel forceWait) m1 = Ret res m' ->
                (length (env m') < length (env m))%nat).
    { clear H. intros H. unfold waitForFile_wait in H.
      apply bind_inv in H. destruct H as (r & m0 & G & H).
      inversion G; subst r m0; clear G.
      apply bind_inv in H. destruct H as ([werr ev] & m2 & Hw & H).
      pose proof (proj2 (waitForEventWithTimeout_within _ _ m1) _ _ Hw) as L.
      simpl in H.
      destruct (errors_Is_errTimeout werr).
      - destruct (Options.TreatTimeoutsAsEOF (options (rd m1)));
          apply ret_inv in H; destruct H as [_ ->]; lia.
      - destruct werr.
        + apply ret_inv in H; destruct H as [_ ->]; lia.
        + apply IH in H. lia. }
    destruct (file (rd m1)); [|exact (W H)].
    destruct (Options.CloseOnDelete (options (rd m1))); [|exact (W H)].
    apply bind_inv in H. destruct H as (cerr & m2 & Hc & H).
    apply ret_inv in H. destruct H as [_ ->].
    pose proof (proj2 (closeFile_within m1) _ _ Hc). lia.
  - apply ret_inv in H. destruct H as [_ ->]. exact Hs.
Qed.

Lemma Read_loop_within fuel p m :
  (length (env m) < fuel)%nat -> within (Read_loop fuel p) m.
Proof.
  revert m. induction fuel as [|fuel IH]; intros m B; [lia|].
  cbn [Read_loop]. unfold Read_body.
  apply bind_within; [apply (waitForFile_within (S fuel) false); exact B|].
  intros [size err] m1 Hs. simpl.
  apply (waitForFile_consumes (S fuel) false) in Hs.
  destruct err; [apply ret_within|].
  apply bind_within; [apply get_within|]. intros r m0 G.
  inversion G; subst r m0; clear G. simpl.
  assert (D : forall m2, (length (env m2) <= length (env m1))%nat ->
                         within (Read_data (Read_loop fuel p) p size) m2).
  { intros m2 L2. apply Read_data_within. intros m3 L3. apply IH. lia. }
  destruct (size <? offset (rd m1)); [|apply D; lia].
  apply bind_within; [apply closeFile_within|]. intros cerr m2 Hc.
  pose proof (proj2 (closeFile_within m1) _ _ Hc) as L2.
  destruct (Options.CloseOnTruncate (options (rd m1))); [apply ret_within|].
  apply D. exact L2.
Qed.

(** [Read] and [WaitForFile] never exhaust their budget. *)
Lemma Read_budget p m : Read p m <> OutOfFuel.
Proof.
  unfold Read. apply (Read_loop_within (S (length (env m))) p m). lia.
Qed.

Lemma WaitForFile_budget m : WaitForFile m <> OutOfFuel.
Proof.
  unfold WaitForFile.
  refine (proj1 (bind_within _ _ m _ _)).
  - apply waitForFile_within. lia.
  - intros [size err] m1 _. apply ret_within.
Qed.

(** ** The loop budget does not matter *)

(** Any two budgets above the number of observations left give the same
    outcome, so a turn of [Read] that starts over behaves as a new [Read]. *)

Lemma bind_ext {A B} (c : M A) (k1 k2 : A -> M B) m :
  (forall a m1, c m = Ret a m1 -> k1 a m1 = k2 a m1) ->
  bind c k1 m = bind c k2 m.
Proof.
  intros H. unfold bind. destruct (c m) as [a m1| | |]; [|reflexivity..].
  exact (H a m1 eq_refl).
Qed.

Lemma waitForFile_wait_ext a1 a2 m :
  (forall m1, (length (env m1) <= length (env m))%nat -> a1 m1 = a2 m1) ->
  waitForFile_wait a1 m = waitForFile_wait a2 m.
Proof.
  intros H. unfold waitForFile_wait.
  apply bind_ext. intros r m0 G. inversion G; subst r m0; clear G.
  apply bind_ext. intros [err ev] m1 Hw. cbv beta iota zeta.
  pose proof (proj2 (waitForEventWithTimeout_within _ _ m) _ _ Hw) as L.
  destruct (errors_Is_errTimeout err); [reflexivity|].
  destruct err; [reflexivity|]. exact (H m1 L).
Qed.

Lemma waitForFile_fuel fuel1 fuel2 forceWait m :
  (length (env m) < fuel1)%nat -> (length (env m) < fuel2)%nat ->
  waitForFile fuel1 forceWait m = waitForFile fuel2 forceWait m.
Proof.
  revert fuel2 m. induction fuel1 as [|fuel1 IH]; intros fuel2 m B1 B2; [lia|].
  destruct fuel2 as [|fuel2]; [lia|].
  cbn [waitForFile]. unfold waitForFile_body.
  apply bind_ext. intros [size err] m1 Hs. cbv beta iota zeta.
  apply getFileSize_consumes in Hs.
  destruct err as [e|]; [|reflexivity].
  apply bind_ext. intros r m0 G. inversion G; subst r m0; clear G.
  assert (W : waitForFile_wait (waitForFile fuel1 forceWait) m1 =
              waitForFile_wait (waitForFile fuel2 forceWait) m1).
  { apply waitForFile_wait_ext. intros m2 L. apply IH; lia. }
  cbv beta.
  destruct (negb (Options.WaitForFile (options (rd m1))) && negb forceWait);
    [reflexivity|].
  destruct (file (rd m1)); [|exact W].
  destruct (Options.CloseOnDelete (options (rd m1))); [reflexivity|exact W].
Qed.

Lemma Read_idle_ext a1 a2 p m :
  (forall m1, (length (env m1) <= length (env m))%nat -> a1 m1 = a2 m1) ->
  Read_idle a1 p m = Read_idle a2 p m.
Proof.
  intros H. unfold Read_idle.
  apply bind_ext. intros r m0 G. inversion G; subst r m0; clear G.
  apply bind_ext. intros [err ev] m1 Hw. cbv beta iota zeta.
  pose proof (proj2 (waitForEventWithTimeout_within _ _ m) _ _ Hw) as L.
  destruct (errors_Is_errTimeout err); [reflexivity|].
  destruct err; [reflexivity|].
  destruct (fsnotify.Has ev fsnotify.Remove || fsnotify.Has ev fsnotify.Rename);
    [|exact (H m1 L)].
  destruct (Options.CloseOnDelete (options (rd m))); [reflexivity|].
  apply bind_ext. intros cerr m2 Hc.
  pose proof (proj2 (closeFile_within m1) _ _ Hc). apply H. lia.
Qed.

Lemma Read_data_ext a1 a2 p size m :
  (forall m1, (length (env m1) <= length (env m))%nat -> a1 m1 = a2 m1) ->
  Read_data a1 p size m = Read_data a2 p size m.
Proof.
  intros H. unfold Read_data.
  apply bind_ext. intros r m0 G. inversion G; subst r m0; clear G.
  cbv beta.
  destruct (offset (rd m) <? size); [|exact (Read_idle_ext _ _ _ _ H)].
  apply bind_ext. intros oerr m1 Ho.
  pose proof (proj2 (openFile_within m) _ _ Ho) as L1.
  destruct oerr; [reflexivity|].
  apply bind_ext. intros r m0 G. inversion G; subst r m0; clear G.
  cbv beta.
  destruct (file (rd m1)) as [f|]; [|reflexivity].
  apply bind_ext. intros [[[n rerr] p'] f'] m2 Hr.
  pose proof (proj2 (file_Read_within f p m1) _ _ Hr) as L2. cbv beta iota zeta.
  assert (I : Read_idle a1 p m2 = Read_idle a2 p m2).
  { apply Read_idle_ext. intros m3 L3. apply H. lia. }
  destruct rerr as [e|].
  - destruct e; try reflexivity. destruct (0 <? n); [reflexivity|exact I].
  - destruct (0 <? n); [reflexivity|exact I].
Qed.

Lemma Read_body_ext s1 s2 a1 a2 p m :
  s1 m = s2 m ->
  (forall res m1, s1 m = Ret res m1 -> (length (env m1) < length (env m))%nat) ->
  (forall m1, (length (env m1) < length (env m))%nat -> a1 m1 = a2 m1) ->
  Read_body s1 a1 p m = Read_body s2 a2 p m.
Proof.
  intros Hs C H. unfold Read_body.
  transitivity (bind s1 (fun x : Z * option error => let '(size, err) := x in
     match err with
     | Some e => ret (0, Some e, p)
     | None =>
         r <- get ;;
         if size <? offset r
         then
           closeFile ;;;
           if Options.CloseOnTruncate (options r)
           then ret (0, Some io_EOF, p)
           else Read_data a2 p size
         else Read_data a2 p size
     end) m).
  - apply bind_ext. intros [size err] m1 Hr. cbv beta iota zeta.
    pose proof (C _ _ Hr) as L.
    destruct err; [reflexivity|].
    apply bind_ext. intros r m0 G. inversion G; subst r m0; clear G.
    cbv beta.
    assert (D : forall m2, (length (env m2) <= length (env m1))%nat ->
                           Read_data a1 p size m2 = Read_data a2 p size m2).
    { intros m2 L2. apply Read_data_ext. intros m3 L3. apply H. lia. }
    destruct (size <? offset (rd m1)); [|apply D; lia].
    apply bind_ext. intros cerr m2 Hc.
    pose proof (proj2 (closeFile_within m1) _ _ Hc) as L2.
    destruct (Options.CloseOnTruncate (options (rd m1))); [reflexivity|].
    apply D. exact L2.
  - unfold bind. rewrite Hs. reflexivity.
Qed.

Lemma Read_loop_fuel fuel1 fuel2 p m :
  (length (env m) < fuel1)%nat -> (length (env m) < fuel2)%nat ->
  Read_loop fuel1 p m = Read_loop fuel2 p m.
Proof.
  revert fuel2 m. induction fuel1 as [|fuel1 IH]; intros fuel2 m B1 B2; [lia|].
  destruct fuel2 as [|fuel2]; [lia|].
  cbn [Read_loop]. apply Read_body_ext.
  - apply waitForFile_fuel; assumption.
  - intros res m1 Hr. exact (waitForFile_consumes _ _ _ _ _ Hr).
  - intros m1 L. apply IH; lia.
Qed.

Lemma Read_eq_loop fuel p m :
  (length (env m) < fuel)%nat -> Read_loop fuel p m = Read p m.
Proof. intros B. unfold Read. apply Read_loop_fuel; [exact B|lia]. Qed.

Lemma Read_loop_resume fuel p m m2 :
  waitForFile (S fuel) false m = waitForFile fuel false m2 ->
  (length (env m2) < fuel)%nat ->
  Read_loop (S fuel) p m = Read p m2.
Proof.
  intros H B. rewrite <- (Read_eq_loop (S fuel) p m2) by lia.
  cbn [Read_loop].
  transitivity (Read_body (waitForFile fuel false) (Read_loop fuel p) p m2).
  - unfold Read_body, bind. rewrite H. reflexivity.
  - apply Read_body_ext.
    + apply waitForFile_fuel; lia.
    + intros res m1 Hr. exact (waitForFile_consumes _ _ _ _ _ Hr).
    + intros m1 L. reflexivity.
Qed.

(** ** The shape of what [Read] returns *)

Lemma Read_idle_shape again p m res m' :
  (forall m1, again m1 = Ret res m' -> shape res) ->
  Read_idle again p m = Ret res m' -> shape res.
Proof.
  intros IH H. unfold Read_idle in H.
  apply bind_inv in H. destruct H as (r & m0 & _ & H).
  apply bind_inv in H. destruct H as ([err ev] & m1 & _ & H).
  simpl in H.
  destruct (errors_Is_errTimeout err).
  - destruct (Options.TreatTimeoutsAsEOF (options r));
      apply ret_inv in H; destruct H as [-> _]; reflexivity.
  - destruct err as [e|].
    + apply ret_inv in H; destruct H as [-> _]; reflexivity.
    + destruct (fsnotify.Has ev fsnotify.Remove || fsnotify.Has ev fsnotify.Rename).
      * destruct (Options.CloseOnDelete (options r)).
        -- apply ret_inv in H; destruct H as [-> _]; reflexivity.
        -- apply bind_inv in H. destruct H as (cerr & m2 & _ & H).
           exact (IH _ H).
      * exact (IH _ H).
Qed.

Lemma Read_data_shape again p size m res m' :
  (forall m1, again m1 = Ret res m' -> shape res) ->
  Read_data again p size m = Ret res m' -> shape res.
Proof.
  intros IH H. unfold Read_data in H.
  apply bind_inv in H. destruct H as (r & m0 & _ & H).
  destruct (offset r <? size); [|exact (Read_idle_shape _ _ _ _ _ IH H)].
  apply bind_inv in H. destruct H as (oerr & m1 & _ & H).
  destruct oerr as [e|].
  - apply ret_inv in H; destruct H as [-> _]; reflexivity.
  - apply bind_inv in H. destruct H as (r1 & m2 & _ & H).
    destruct (file r1) as [f|]; [|discriminate].
    apply bind_inv in H. destruct H as ([[[n rerr] p'] f'] & m3 & _ & H).
    simpl in H.
    assert (G : (if 0 <? n
                 then put (set_file (Some f') (wrap64 (offset r1 + n)) r1) ;;;
                      ret (n, None, p')
                 else Read_idle again p) m3 = Ret res m' -> shape res).
    { destruct (0 <? n) eqn:L.
      - intros G. apply bind_inv in G. destruct G as (u & m4 & _ & G).
        apply ret_inv in G; destruct G as [-> _].
        apply Z.ltb_lt in L. exact L.
      - exact (Read_idle_shape _ _ _ _ _ IH). }
    destruct rerr as [e|]; [|exact (G H)].
    destruct e; try exact (G H);
      apply ret_inv in H; destruct H as [-> _]; reflexivity.
Qed.

Lemma Read_loop_shape fuel p m res m' :
  Read_loop fuel p m = Ret res m' -> shape res.
Proof.
  revert m. induction fuel as [|fuel IH]; intros m H; [discriminate|].
  cbn [Read_loop] in H. unfold Read_body in H.
  apply bind_inv in H. destruct H as ([size err] & m1 & _ & H).
  simpl in H. destruct err as [e|].
  - apply ret_inv in H; destruct H as [-> _]; reflexivity.
  - apply bind_inv in H. destruct H as (r & m0 & _ & H).
    destruct (size <? offset r); [|exact (Read_data_shape _ _ _ _ _ _ IH H)].
    apply bind_inv in H. destruct H as (cerr & m2 & _ & H).
    destruct (Options.CloseOnTruncate (options r)).
    + apply ret_inv in H; destruct H as [-> _]; reflexivity.
    + exact (Read_data_shape _ _ _ _ _ _ IH H).
Qed.

(** C10. Whenever [Read] returns an error (end of stream, either timeout, a
    file-access error or an error of the watcher) the byte count is zero; a
    positive byte count only ever comes with a nil error. *)
Theorem Read_error_means_no_bytes p m n err p' m' :
  Read p m = Ret (n, err, p') m' ->
  (err <> None -> n = 0) /\ (0 < n -> err = None).
Proof.
  intros H. apply Read_loop_shape in H. unfold shape in H. simpl in H.
  destruct err as [e|].
  - split; [intros _; exact H|]. intros L. rewrite H in L. inversion L.
  - split; [intros N; contradiction|reflexivity].
Qed.

Lemma firstn_length_firstn {A} k (l : list A) :
  firstn (length (firstn k l)) l = firstn k l.
Proof.
  revert l. induction k as [|k IH]; intros [|x l]; simpl; try reflexivity.
  rewrite IH. reflexivity.
Qed.

Lemma delivered_range p n p' m' :
  0 < n -> delivered p n p' m' ->
  exists st f t l,
    log m' = {| call := CFileRead; before := st; seen := Some t |} :: l /\
    file st = Some f /\
    offset st = Z.of_nat (pos f) /\
    firstn (Z.to_nat n) p' =
      range (content (w_data (t_world t)) (ino f)) (Z.to_nat (offset st)) (Z.to_nat n) /\
    offset st + n <= Z.of_nat (length (content (w_data (t_world t)) (ino f))) /\
    n <= Z.of_nat (length p) /\
    skipn (Z.to_nat n) p' = skipn (Z.to_nat n) p /\
    offset (rd m') = offset st + n /\
    file (rd m') = Some {| ino := ino f; pos := Z.to_nat (offset st + n) |}.
Proof.
  intros L (st & f & t & l & Hl & F & O & N & P & R).
  exists st, f, t, l.
  set (d := available f (length p) t) in *.
  assert (Nd : Z.to_nat n = length d) by (rewrite N; apply Nat2Z.id).
  assert (Od : Z.to_nat (offset st) = pos f) by (rewrite O; apply Nat2Z.id).
  pose proof (available_bound f (length p) t) as B. fold d in B.
  assert (Lp : (length d <= length p)%nat).
  { unfold d, available. rewrite length_firstn. lia. }
  repeat split; try assumption.
  - rewrite P, Nd, Od. rewrite firstn_app, Nat.sub_diag, firstn_all. simpl.
    rewrite app_nil_r. unfold range, d, available.
    symmetry. apply firstn_length_firstn.
  - lia.
  - lia.
  - rewrite P, Nd. rewrite skipn_app, Nat.sub_diag, skipn_all. reflexivity.
  - rewrite R. reflexivity.
  - rewrite R. simpl. f_equal. f_equal. lia.
Qed.

(** ** Equations of the loops *)

Lemma waitForFile_found fuel forceWait m t rest size :
  env m = t :: rest -> stat_of t = inl size ->
  waitForFile (S fuel) forceWait m = Ret (size, None) (advance CStat t rest m).
Proof.
  intros E S. cbn [waitForFile]. unfold waitForFile_body, bind.
  rewrite (getFileSize_cons _ _ _ E). unfold size_of_tick. rewrite S.
  reflexivity.
Qed.

Lemma Read_loop_found fuel p m t rest size :
  env m = t :: rest -> stat_of t = inl size ->
  Read_loop (S fuel) p m =
  (if size <? offset (rd m)
   then closeFile ;;;
        if Options.CloseOnTruncate (options (rd m))
        then ret (0, Some io_EOF, p)
        else Read_data (Read_loop fuel p) p size
   else Read_data (Read_loop fuel p) p size) (advance CStat t rest m).
Proof.
  intros E S. cbn [Read_loop]. unfold Read_body.
  rewrite (bind_Ret _ _ _ _ _ (waitForFile_found fuel false m t rest size E S)).
  reflexivity.
Qed.

Lemma Read_data_nothing again p size m f t rest :
  file (rd m) = Some f -> env m = t :: rest -> offset (rd m) < size ->
  reads_nothing f p t ->
  Read_data again p size m = Read_idle again p (advance CFileRead t rest m).
Proof.
  intros F E L [Hf Hn]. unfold Read_data.
  unfold bind at 1. unfold get at 1. cbv beta iota.
  apply Z.ltb_lt in L. rewrite L.
  rewrite (bind_Ret _ _ _ _ _ (openFile_open m f F)).
  unfold bind at 1. unfold get at 1. cbv beta iota. rewrite F.
  rewrite (bind_Ret _ _ _ _ _ (file_Read_cons f p m t rest E)).
  destruct (read_of_cases f p t) as [[c Hc]|[Hc|[Hc|[Hd Hc]]]].
  - unfold read_of in Hc. rewrite Hf in Hc. exfalso.
    destruct p; [discriminate|].
    destruct (available f (length (b :: p)) t); discriminate.
  - rewrite Hc. reflexivity.
  - rewrite Hc. reflexivity.
  - rewrite Hc in Hn. simpl in Hn. exfalso.
    destruct (available f (length p) t); [contradiction|discriminate].
Qed.

Lemma Read_data_more again p size m f t rest :
  inv (rd m) -> file (rd m) = Some f -> offset (rd m) < size ->
  env m = t :: rest ->
  t_fault t = None ->
  wf_world (t_world t) = true ->
  available f (length p) t <> [] ->
  Read_data again p size m =
  Ret (Z.of_nat (length (available f (length p) t)), None,
       available f (length p) t ++ skipn (length (available f (length p) t)) p)
    (with_rd (set_file (Some {| ino := ino f;
                                pos := pos f + length (available f (length p) t) |})
                (offset (rd m) + Z.of_nat (length (available f (length p) t)))
                (rd m))
       (advance CFileRead t rest m)).
Proof.
  intros I F L E Hf W Hd.
  set (d := available f (length p) t) in *.
  unfold Read_data.
  unfold bind at 1. unfold get at 1. cbv beta iota.
  apply Z.ltb_lt in L. rewrite L.
  rewrite (bind_Ret _ _ _ _ _ (openFile_open m f F)).
  unfold bind at 1. unfold get at 1. cbv beta iota. rewrite F.
  rewrite (bind_Ret _ _ _ _ _ (file_Read_cons f p m t rest E)).
  destruct (read_of_cases f p t) as [[c Hc]|[Hc|[Hc|[_ Hc]]]].
  - exfalso. unfold read_of in Hc. rewrite Hf in Hc.
    destruct p; [discriminate|].
    destruct (available f (length (b :: p)) t); discriminate.
  - exfalso. unfold read_of in Hc. rewrite Hf in Hc.
    destruct p; [discriminate|]. fold d in Hc.
    destruct d; [contradiction|discriminate].
  - exfalso. unfold read_of in Hc. rewrite Hf in Hc.
    destruct p as [|b p]; [apply Hd; unfold d, available; reflexivity|].
    fold d in Hc. destruct d; [contradiction|discriminate].
  - rewrite Hc. fold d. cbv beta iota.
    assert (P : 0 < Z.of_nat (length d)).
    { destruct d; [contradiction|simpl; lia]. }
    apply Z.ltb_lt in P. rewrite P.
    assert (B : wrap64 (offset (rd m) + Z.of_nat (length d)) =
                offset (rd m) + Z.of_nat (length d)).
    { apply wrap64_small.
      pose proof (available_bound f (length p) t) as B. fold d in B.
      pose proof (content_wf _ (ino f) W) as C.
      unfold inv in I. rewrite F in I. rewrite I.
      apply Z.ltb_lt in P. lia. }
    unfold bind, put, ret. cbn [rd advance]. rewrite B. reflexivity.
Qed.



Lemma Read_error_means_no_bytes_witness :
  Read buffer16 hello_start = Ret (13, None, hello_buffer) hello_end /\
  (@None error <> None -> 13 = 0) /\ (0 < 13 -> @None error = None).
Proof.
  assert (H : Read buffer16 hello_start = Ret (13, None, hello_buffer) hello_end)
    by (vm_compute; reflexivity).
  split; [exact H|].
  exact (Read_error_means_no_bytes _ _ _ _ _ _ H).
Defined.

(** ** Timeouts *)

Lemma waited_unchanged eventType timeout m' :
  waited eventType timeout m' -> unchanged_since_wait m'.
Proof.
  intros [l Hl]. exists eventType, timeout, (rd m'), l.
  repeat split. exact Hl.
Qed.

(** C7. When [Read] or [WaitForFile] returns a timeout error
    ([ErrIdleTimeout] or [ErrWaitTimeout]), the reader's offset and file
    handle are what they were when the blocking wait that timed out began:
    the start of that wait is the last entry of the call log, and the reader
    recorded there agrees with the reader the call leaves behind. *)
Theorem timeout_leaves_reader_unchanged :
  (forall p m n e p' m',
     ok m -> Read p m = Ret (n, Some e, p') m' -> is_timeout e ->
     unchanged_since_wait m') /\
  (forall m e m',
     ok m -> WaitForFile m = Ret (Some e) m' -> is_timeout e ->
     unchanged_since_wait m').
Proof.
  split.
  - intros p m n e p' m' OK H T.
    pose proof (Read_loop_spec _ _ _ _ _ OK H) as [_ S]. simpl in S.
    destruct S as (_ & _ & Hi & Hw).
    destruct T as [->| ->].
    + exact (waited_unchanged _ _ _ (Hi eq_refl)).
    + exact (waited_unchanged _ _ _ (Hw eq_refl)).
  - intros m e m' OK H T. unfold WaitForFile in H.
    apply bind_inv in H. destruct H as ([size err] & m1 & Hw & H).
    apply ret_inv in H. destruct H as [E ->]. simpl in E. subst err.
    pose proof (waitForFile_spec _ _ _ _ _ OK Hw) as [_ S]. simpl in S.
    destruct S as (_ & Hn & Ht).
    destruct T as [->| ->]; [contradiction|].
    exact (waited_unchanged _ _ _ (proj1 (Ht eq_refl))).
Qed.

Lemma timeout_leaves_reader_unchanged_witness :
  (ok idle_start /\
   Read buffer16 idle_start = Ret (0, Some ErrIdleTimeout, buffer16) idle_end /\
   is_timeout ErrIdleTimeout /\
   unchanged_since_wait idle_end) /\
  (ok absent_start /\
   WaitForFile absent_start = Ret (Some ErrWaitTimeout) absent_end /\
   is_timeout ErrWaitTimeout /\
   unchanged_since_wait absent_end).
Proof.
  assert (OK1 : ok idle_start) by ok_start.
  assert (H1 : Read buffer16 idle_start = Ret (0, Some ErrIdleTimeout, buffer16) idle_end)
    by (vm_compute; reflexivity).
  assert (T1 : is_timeout ErrIdleTimeout) by (left; reflexivity).
  assert (OK2 : ok absent_start) by ok_start.
  assert (H2 : WaitForFile absent_start = Ret (Some ErrWaitTimeout) absent_end)
    by (vm_compute; reflexivity).
  assert (T2 : is_timeout ErrWaitTimeout) by (right; reflexivity).
  split.
  - split; [exact OK1|]. split; [exact H1|]. split; [exact T1|].
    exact (proj1 timeout_leaves_reader_unchanged _ _ _ _ _ _ OK1 H1 T1).
  - split; [exact OK2|]. split; [exact H2|]. split; [exact T2|].
    exact (proj2 timeout_leaves_reader_unchanged _ _ _ OK2 H2 T2).
Defined.

(** ** The invariant along sequences of calls *)

Lemma inv_sound r : inv r -> sound r.
Proof.
  intros I. split; [exact (inv_nonneg r I)|].
  unfold inv in I. intros F. rewrite F in I. exact I.
Qed.

Lemma closeFile_spec m err m' :
  ok m -> closeFile m = Ret err m' ->
  ok m' /\ file (rd m') = None /\ offset (rd m') = 0.
Proof.
  intros OK H. apply closeFile_inv in H.
  destruct H as [(F & -> & _)|(f & t & rest & _ & E & -> & _)].
  - split; [exact OK|]. split; [exact F|].
    destruct OK as (I & _). unfold inv in I. rewrite F in I. exact I.
  - split; [|split; reflexivity].
    apply ok_with_rd; [apply inv_closed|].
    exact (ok_advance CFileClose t rest m OK E).
Qed.

Lemma Close_spec m err m' :
  ok m -> Close m = Ret err m' -> ok m'.
Proof.
  intros OK H. unfold Close in H.
  apply bind_inv in H. destruct H as (r & m0 & G & H).
  unfold get in G. inversion G; subst r m0; clear G.
  destruct (watcher (rd m)) as [w|]; [|discriminate].
  apply bind_inv in H. destruct H as (werr & m1 & Hw & H).
  unfold watcher_Close in Hw.
  apply bind_inv in Hw. destruct Hw as (t & m2 & Ht & Hw).
  apply tick_inv in Ht. destruct Ht as (rest & E & ->).
  apply ret_inv in Hw. destruct Hw as [-> ->].
  apply bind_inv in H. destruct H as ([] & m3 & Hp & H).
  unfold put in Hp. inversion Hp; subst m3; clear Hp.
  assert (OK1 : ok (with_rd (set_watcher None (rd m)) (advance CWatcherClose t rest m))).
  { apply ok_with_rd; [exact (proj1 OK)|].
    exact (ok_advance CWatcherClose t rest m OK E). }
  destruct (watcher_close_of t).
  - apply ret_inv in H. destruct H as [_ ->]. exact OK1.
  - exact (proj1 (closeFile_spec _ _ _ OK1 H)).
Qed.

Lemma run_op_spec o m u m' :
  ok m -> run_op o m = Ret u m' -> ok m'.
Proof.
  intros OK H. destruct o as [p| |]; simpl in H;
    apply bind_inv in H; destruct H as (a & m1 & Ho & H);
    apply ret_inv in H; destruct H as [_ ->].
  - exact (proj1 (Read_loop_spec _ _ _ _ _ OK Ho)).
  - unfold WaitForFile in Ho.
    apply bind_inv in Ho. destruct Ho as ([size err] & m2 & Hw & Ho).
    apply ret_inv in Ho. destruct Ho as [_ ->].
    exact (proj1 (waitForFile_spec _ _ _ _ _ OK Hw)).
  - exact (Close_spec _ _ _ OK Ho).
Qed.

Lemma run_ops_spec os m u m' :
  ok m -> run_ops os m = Ret u m' -> ok m'.
Proof.
  revert m. induction os as [|o os IH]; intros m OK H; simpl in H.
  - apply ret_inv in H. destruct H as [_ ->]. exact OK.
  - apply bind_inv in H. destruct H as (a & m1 & Ho & H).
    exact (IH _ (run_op_spec _ _ _ _ OK Ho) H).
Qed.

Lemma NewTailingReader_ok filepath_Dir path opts ticks m :
  wf_env ticks = true ->
  NewTailingReader filepath_Dir path opts ticks = Built m ->
  ok m /\ file (rd m) = None /\ offset (rd m) = 0.
Proof.
  intros W H. unfold NewTailingReader in H.
  destruct ticks as [|t1 [|t2 ticks]]; try discriminate.
  - destruct (t_fault t1); discriminate.
  - destruct (t_fault t1); [discriminate|].
    destruct (t_fault t2); [discriminate|].
    inversion H; subst m; clear H.
    split; [|split; reflexivity].
    split; [reflexivity|]. split.
    + simpl. simpl in W.
      apply andb_true_iff in W. destruct W as [_ W].
      apply andb_true_iff in W. apply W.
    + simpl. repeat constructor.
Qed.

(** C9. From construction on, through every sequence of [Read],
    [WaitForFile] and [Close] calls: the offset is never negative and it is
    zero whenever no file is open, both in the reader the calls leave behind
    and in the reader as it was at every primitive call made on the way.
    Opening the file sets the offset to zero, and after [closeFile] no file
    is open and the offset is zero. *)
Theorem offset_invariant :
  (forall filepath_Dir path opts ticks m os u m',
     wf_env ticks = true ->
     NewTailingReader filepath_Dir path opts ticks = Built m ->
     run_ops os m = Ret u m' ->
     sound (rd m) /\ sound (rd m') /\ Forall (fun e => sound (before e)) (log m')) /\
  (forall m m',
     file (rd m) = None -> openFile m = Ret None m' ->
     offset (rd m') = 0 /\ exists i, file (rd m') = Some {| ino := i; pos := 0 |}) /\
  (forall m err m',
     ok m -> closeFile m = Ret err m' ->
     file (rd m') = None /\ offset (rd m') = 0).
Proof.
  split; [|split].
  - intros filepath_Dir path opts ticks m os u m' W B H.
    destruct (NewTailingReader_ok _ _ _ _ _ W B) as (OK & _).
    pose proof (run_ops_spec _ _ _ _ OK H) as (I & _ & L).
    split; [exact (inv_sound _ (proj1 OK))|].
    split; [exact (inv_sound _ I)|].
    revert L. apply Forall_impl. intros e. apply inv_sound.
  - intros m m' F H. apply openFile_inv in H.
    destruct H as [(f & F' & _)|(t & rest & _ & E & H)].
    + rewrite F in F'. discriminate.
    + unfold open_of in H. destruct (t_fault t); [destruct H; discriminate|].
      destruct (w_path (t_world t)) as [i|]; [|destruct H; discriminate].
      destruct H as [_ ->]. split; [reflexivity|]. exists i. reflexivity.
  - intros m err m' OK H. exact (proj2 (closeFile_spec _ _ _ OK H)).
Qed.

Lemma offset_invariant_witness :
  (wf_env session_ticks = true /\
   NewTailingReader (fun _ => "."%string) "app.log" [] session_ticks = Built session_start /\
   run_ops session_calls session_start = Ret tt session_end /\
   sound (rd session_start) /\ sound (rd session_end) /\
   Forall (fun e => sound (before e)) (log session_end)) /\
  (file (rd hello_start) = None /\
   openFile hello_start =
     Ret None (with_rd (set_file (Some {| ino := 1; pos := 0 |}) 0 (rd hello_start))
                 (advance COpen (see hello_world) [see hello_world; see hello_world]
                    hello_start)) /\
   offset (set_file (Some {| ino := 1; pos := 0 |}) 0 (rd hello_start)) = 0) /\
  (ok idle_start /\
   closeFile idle_start =
     Ret None (with_rd (set_file None 0 (rd idle_start))
                 (advance CFileClose (see hello_world) [see hello_world] idle_start)) /\
   file (set_file None 0 (rd idle_start)) = None /\
   offset (set_file None 0 (rd idle_start)) = 0).
Proof.
  assert (W : wf_env session_ticks = true) by reflexivity.
  assert (B : NewTailingReader (fun _ => "."%string) "app.log" [] session_ticks
              = Built session_start) by reflexivity.
  assert (H : run_ops session_calls session_start = Ret tt session_end)
    by (vm_compute; reflexivity).
  assert (F : file (rd hello_start) = None) by reflexivity.
  assert (O : openFile hello_start =
     Ret None (with_rd (set_file (Some {| ino := 1; pos := 0 |}) 0 (rd hello_start))
                 (advance COpen (see hello_world) [see hello_world; see hello_world]
                    hello_start))) by reflexivity.
  assert (OK : ok idle_start) by ok_start.
  assert (C : closeFile idle_start =
     Ret None (with_rd (set_file None 0 (rd idle_start))
                 (advance CFileClose (see hello_world) [see hello_world] idle_start)))
    by reflexivity.
  destruct offset_invariant as (T1 & T2 & T3).
  split; [|split].
  - split; [exact W|]. split; [exact B|]. split; [exact H|].
    exact (T1 _ _ _ _ _ _ _ _ W B H).
  - split; [exact F|]. split; [exact O|].
    exact (proj1 (T2 _ _ F O)).
  - split; [exact OK|]. split; [exact C|].
    exact (T3 _ _ _ OK C).
Defined.

(** ** Waiting *)

Lemma select_loop_ignored eventType timeout path pre rest :
  forallb (ignored eventType timeout path) pre = true ->
  select_loop eventType timeout path (pre ++ rest) =
  select_loop eventType timeout path rest.
Proof.
  induction pre as [|t pre IH]; simpl; [reflexivity|].
  intros H. apply andb_true_iff in H. destruct H as [Ht Hp].
  unfold ignored in Ht. destruct (t_sel t) as [ev|c|].
  - apply negb_true_iff in Ht. rewrite Ht. exact (IH Hp).
  - discriminate.
  - apply negb_true_iff in Ht. rewrite Ht. exact (IH Hp).
Qed.

Lemma select_loop_timer eventType timeout path pre t rest :
  forallb (ignored eventType timeout path) pre = true ->
  t_sel t = SelTimer -> 0 < timeout ->
  select_loop eventType timeout path (pre ++ t :: rest) =
  Some ((Some errTimeout, 0), rest).
Proof.
  intros Hp Ht L. rewrite (select_loop_ignored _ _ _ _ _ Hp). simpl.
  rewrite Ht. apply Z.ltb_lt in L. rewrite L. reflexivity.
Qed.

Lemma Read_idle_timeout again p m w pre t rest :
  watcher (rd m) = Some w ->
  env m = pre ++ t :: rest ->
  forallb (ignored idle_mask (Options.IdleTimeout (options (rd m))) (filePath (rd m))) pre
    = true ->
  t_sel t = SelTimer ->
  0 < Options.IdleTimeout (options (rd m)) ->
  Read_idle again p m =
  Ret (0, Some (idle_verdict (options (rd m))), p)
    (with_env rest (marked (CWait idle_mask (Options.IdleTimeout (options (rd m)))) m)).
Proof.
  intros W E Hp Ht L. unfold Read_idle.
  unfold bind at 1. unfold get at 1. cbv beta iota.
  unfold bind. rewrite (waitForEventWithTimeout_eq _ _ _ _ W).
  rewrite E, (select_loop_timer _ _ _ _ _ _ Hp Ht L). simpl.
  unfold idle_verdict.
  destruct (Options.TreatTimeoutsAsEOF (options (rd m))); reflexivity.
Qed.

(** C5. When [Read] blocks waiting for new data and the idle timeout elapses
    before any accepted event arrives (only events that are not accepted come
    first), [Read] returns zero bytes with [ErrIdleTimeout] when
    [TreatTimeoutsAsEOF] is false and with [io.EOF] when it is true.  This
    holds at the idle wait wherever it is reached, and so for a [Read]
    entered when the size of the file equals the offset. *)
Theorem idle_timeout_verdict :
  (forall again p m w pre t rest,
     watcher (rd m) = Some w ->
     env m = pre ++ t :: rest ->
     forallb (ignored idle_mask (Options.IdleTimeout (options (rd m)))
                (filePath (rd m))) pre = true ->
     t_sel t = SelTimer ->
     0 < Options.IdleTimeout (options (rd m)) ->
     returned (Read_idle again p m) =
     Some (0, Some (if Options.TreatTimeoutsAsEOF (options (rd m))
                    then io_EOF else ErrIdleTimeout), p)) /\
  (forall p m w t0 pre t rest,
     watcher (rd m) = Some w ->
     env m = t0 :: pre ++ t :: rest ->
     stat_of t0 = inl (offset (rd m)) ->
     forallb (ignored idle_mask (Options.IdleTimeout (options (rd m)))
                (filePath (rd m))) pre = true ->
     t_sel t = SelTimer ->
     0 < Options.IdleTimeout (options (rd m)) ->
     returned (Read p m) =
     Some (0, Some (if Options.TreatTimeoutsAsEOF (options (rd m))
                    then io_EOF else ErrIdleTimeout), p)).
Proof.
  split.
  - intros again p m w pre t rest W E Hp Ht L.
    rewrite (Read_idle_timeout _ _ _ _ _ _ _ W E Hp Ht L). reflexivity.
  - intros p m w t0 pre t rest W E S Hp Ht L. unfold Read.
    rewrite (Read_loop_found _ _ _ _ _ _ E S).
    rewrite Z.ltb_irrefl. unfold Read_data.
    unfold bind at 1. unfold get at 1. cbv beta iota.
    change (offset (rd (advance CStat t0 (pre ++ t :: rest) m))) with (offset (rd m)).
    rewrite Z.ltb_irrefl.
    rewrite (Read_idle_timeout _ p (advance CStat t0 (pre ++ t :: rest) m)
               w pre t rest W eq_refl Hp Ht L).
    reflexivity.
Qed.

Lemma idle_timeout_verdict_witness :
  (watcher (rd quiet_eof_start) = Some {| watched := [] |} /\
   env quiet_eof_start =
     [event hello_world "other.log" fsnotify.Write] ++ see hello_world :: [] /\
   forallb (ignored idle_mask 5 "app.log")
     [event hello_world "other.log" fsnotify.Write] = true /\
   t_sel (see hello_world) = SelTimer /\
   0 < 5 /\
   returned (Read_idle (Read_loop 0 buffer16) buffer16 quiet_eof_start) =
     Some (0, Some io_EOF, buffer16)) /\
  (watcher (rd quiet_start) = Some {| watched := [] |} /\
   env quiet_start =
     see hello_world :: [event hello_world "other.log" fsnotify.Write]
       ++ see hello_world :: [] /\
   stat_of (see hello_world) = inl 13 /\
   forallb (ignored idle_mask 5 "app.log")
     [event hello_world "other.log" fsnotify.Write] = true /\
   t_sel (see hello_world) = SelTimer /\
   0 < 5 /\
   returned (Read buffer16 quiet_start) = Some (0, Some ErrIdleTimeout, buffer16)).
Proof.
  assert (L : 0 < 5) by reflexivity.
  destruct idle_timeout_verdict as [T1 T2].
  split.
  - repeat (split; [reflexivity|]).
    exact (T1 (Read_loop 0 buffer16) buffer16 quiet_eof_start {| watched := [] |}
             [event hello_world "other.log" fsnotify.Write] (see hello_world) []
             eq_refl eq_refl eq_refl eq_refl L).
  - repeat (split; [reflexivity|]).
    exact (T2 buffer16 quiet_start {| watched := [] |} (see hello_world)
             [event hello_world "other.log" fsnotify.Write] (see hello_world) []
             eq_refl eq_refl eq_refl eq_refl eq_refl L).
Defined.

(** ** Truncation *)

Lemma Read_loop_truncated fuel p m f t1 t2 rest size :
  file (rd m) = Some f -> env m = t1 :: t2 :: rest ->
  stat_of t1 = inl size -> size < offset (rd m) ->
  Read_loop (S fuel) p m =
  (if Options.CloseOnTruncate (options (rd m))
   then ret (0, Some io_EOF, p)
   else Read_data (Read_loop fuel p) p size) (after_truncation t1 t2 rest m).
Proof.
  intros F E S L. rewrite (Read_loop_found _ _ _ _ _ _ E S).
  apply Z.ltb_lt in L. rewrite L.
  assert (C : closeFile (advance CStat t1 (t2 :: rest) m) =
              Ret (close_of t2) (after_truncation t1 t2 rest m)).
  { exact (closeFile_open (advance CStat t1 (t2 :: rest) m) f t2 rest F eq_refl). }
  rewrite (bind_Ret _ _ _ _ _ C). reflexivity.
Qed.

(** A read of the freshly opened file [i] into [p] that finds data. *)
Lemma Read_data_fresh again p size m t3 t4 rest i :
  file (rd m) = None -> offset (rd m) = 0 -> 0 < size ->
  env m = t3 :: t4 :: rest ->
  open_of t3 = inl {| ino := i; pos := 0 |} ->
  t_fault t4 = None ->
  wf_world (t_world t4) = true ->
  firstn (length p) (content (w_data (t_world t4)) i) <> [] ->
  exists m',
    Read_data again p size m =
    Ret (Z.of_nat (length (firstn (length p) (content (w_data (t_world t4)) i))),
         None,
         firstn (length p) (content (w_data (t_world t4)) i)
           ++ skipn (length (firstn (length p) (content (w_data (t_world t4)) i))) p)
        m' /\
    file (rd m') =
      Some {| ino := i;
              pos := length (firstn (length p) (content (w_data (t_world t4)) i)) |} /\
    offset (rd m') =
      Z.of_nat (length (firstn (length p) (content (w_data (t_world t4)) i))).
Proof.
  intros F O L E Ho Hf W Hd.
  set (d := firstn (length p) (content (w_data (t_world t4)) i)) in *.
  unfold Read_data.
  unfold bind at 1. unfold get at 1. cbv beta iota.
  rewrite O. apply Z.ltb_lt in L. rewrite L.
  pose proof (openFile_closed m t3 (t4 :: rest) F E) as Hopen.
  rewrite Ho in Hopen. rewrite (bind_Ret _ _ _ _ _ Hopen).
  unfold bind at 1. unfold get at 1. cbv beta iota.
  cbn [rd with_rd file set_file].
  rewrite (bind_Ret _ _ _ _ _
             (file_Read_cons {| ino := i; pos := 0 |} p
                (with_rd (set_file (Some {| ino := i; pos := 0 |}) 0 (rd m))
                   (advance COpen t3 (t4 :: rest) m)) t4 rest eq_refl)).
  assert (R : read_of {| ino := i; pos := 0 |} p t4 =
              (Z.of_nat (length d), None, d ++ skipn (length d) p,
               {| ino := i; pos := length d |})).
  { unfold read_of. rewrite Hf.
    destruct p as [|b p]; [exfalso; apply Hd; reflexivity|].
    unfold available. cbn [pos ino skipn]. fold d.
    destruct d as [|x d']; [contradiction|]. reflexivity. }
  rewrite R. cbv beta iota.
  assert (P : 0 < Z.of_nat (length d)).
  { destruct d; [contradiction|simpl; lia]. }
  apply Z.ltb_lt in P. rewrite P.
  eexists. split; [reflexivity|]. cbn [rd with_rd file offset set_file advance].
  split; [reflexivity|].
  change (0 + Z.of_nat (length d)) with (Z.of_nat (length d)).
  apply wrap64_small.
  pose proof (content_wf _ i W) as C.
  assert (length d <= length (content (w_data (t_world t4)) i))%nat.
  { unfold d. rewrite length_firstn. lia. }
  lia.
Qed.

(** C2. A [Read] entered with the offset beyond the size it observes releases
    the file handle ([Close] is called on it, the handle is cleared and the
    offset is zero).  With [CloseOnTruncate] it returns zero bytes and
    [io.EOF].  Without, the call goes on from the state with no handle and
    offset zero: the file is opened again and read from its start, so when
    the new file holds data, the call returns the first bytes of the new
    file and the offset is their count. *)
Theorem truncation_releases_handle p m f t1 t2 rest size :
  file (rd m) = Some f ->
  env m = t1 :: t2 :: rest ->
  stat_of t1 = inl size ->
  size < offset (rd m) ->
  call (hd {| call := CStat; before := rd m; seen := None |}
          (log (after_truncation t1 t2 rest m))) = CFileClose /\
  file (rd (after_truncation t1 t2 rest m)) = None /\
  offset (rd (after_truncation t1 t2 rest m)) = 0 /\
  (Options.CloseOnTruncate (options (rd m)) = true ->
   Read p m = Ret (0, Some io_EOF, p) (after_truncation t1 t2 rest m)) /\
  (Options.CloseOnTruncate (options (rd m)) = false ->
   (forall fuel,
      Read_loop (S fuel) p m =
      Read_data (Read_loop fuel p) p size (after_truncation t1 t2 rest m)) /\
   (forall t3 t4 rest' i,
      rest = t3 :: t4 :: rest' ->
      0 < size ->
      open_of t3 = inl {| ino := i; pos := 0 |} ->
      t_fault t4 = None ->
      wf_world (t_world t4) = true ->
      firstn (length p) (content (w_data (t_world t4)) i) <> [] ->
      exists m',
        Read p m =
        Ret (Z.of_nat (length (firstn (length p) (content (w_data (t_world t4)) i))),
             None,
             firstn (length p) (content (w_data (t_world t4)) i)
               ++ skipn (length (firstn (length p) (content (w_data (t_world t4)) i))) p)
            m' /\
        file (rd m') =
          Some {| ino := i;
                  pos := length (firstn (length p) (content (w_data (t_world t4)) i)) |} /\
        offset (rd m') =
          Z.of_nat (length (firstn (length p) (content (w_data (t_world t4)) i))))).
Proof.
  intros F E S L.
  split; [reflexivity|]. split; [reflexivity|]. split; [reflexivity|].
  split.
  - intros C. unfold Read.
    rewrite (Read_loop_truncated _ _ _ _ _ _ _ _ F E S L), C. reflexivity.
  - intros C. split.
    + intros fuel.
      rewrite (Read_loop_truncated _ _ _ _ _ _ _ _ F E S L), C. reflexivity.
    + intros t3 t4 rest' i -> P Ho Hf W Hd. unfold Read.
      rewrite (Read_loop_truncated _ _ _ _ _ _ _ _ F E S L), C.
      exact (Read_data_fresh _ p size
               (after_truncation t1 t2 (t3 :: t4 :: rest') m) t3 t4 rest' i
               eq_refl eq_refl P eq_refl Ho Hf W Hd).
Qed.

Lemma truncation_releases_handle_witness :
  (file (rd emptied_start) = Some {| ino := 1; pos := 13 |} /\
   env emptied_start = [see empty_world; see empty_world] /\
   stat_of (see empty_world) = inl 0 /\
   0 < offset (rd emptied_start) /\
   Read buffer16 emptied_start =
     Ret (0, Some io_EOF, buffer16)
       (after_truncation (see empty_world) (see empty_world) [] emptied_start)) /\
  (file (rd rewritten_start) = Some {| ino := 1; pos := 13 |} /\
   env rewritten_start =
     [see again_world; see again_world; see again_world; see again_world] /\
   stat_of (see again_world) = inl 11 /\
   11 < offset (rd rewritten_start) /\
   exists m',
     Read buffer16 rewritten_start = Ret (11, None, again_buffer) m' /\
     file (rd m') = Some {| ino := 1; pos := 11 |} /\
     offset (rd m') = 11).
Proof.
  split.
  - assert (L : 0 < offset (rd emptied_start)) by reflexivity.
    repeat (split; [reflexivity|]).
    exact (proj1 (proj2 (proj2 (proj2
             (truncation_releases_handle buffer16 emptied_start
                {| ino := 1; pos := 13 |} (see empty_world) (see empty_world) [] 0
                eq_refl eq_refl eq_refl L)))) eq_refl).
  - assert (L : 11 < offset (rd rewritten_start)) by reflexivity.
    assert (P : 0 < 11) by reflexivity.
    repeat (split; [reflexivity|]).
    refine (proj2 (proj2 (proj2 (proj2 (proj2
             (truncation_releases_handle buffer16 rewritten_start
                {| ino := 1; pos := 13 |} (see again_world) (see again_world)
                [see again_world; see again_world] 11
                eq_refl eq_refl eq_refl L)))) eq_refl)
             (see again_world) (see again_world) [] 1%nat
             eq_refl P eq_refl eq_refl eq_refl _).
    discriminate.
Defined.

(** ** Close *)

(** When the watcher closes without error, [Close] releases the file handle
    as well. *)
Lemma Close_releases_both m w f t1 t2 rest :
  watcher (rd m) = Some w -> file (rd m) = Some f ->
  env m = t1 :: t2 :: rest -> t_fault t1 = None ->
  exists m',
    Close m = Ret (close_of t2) m' /\
    watcher (rd m') = None /\ file (rd m') = None /\ offset (rd m') = 0.
Proof.
  intros W F E Hf. unfold Close.
  unfold bind at 1. unfold get at 1. cbv beta iota. rewrite W.
  unfold watcher_Close, bind. rewrite (tick_cons _ _ _ _ E).
  unfold ret, put, watcher_close_of. rewrite Hf.
  rewrite (closeFile_open
             (with_rd (set_watcher None (rd m)) (advance CWatcherClose t1 (t2 :: rest) m))
             f t2 rest F eq_refl).
  eexists. split; [reflexivity|]. repeat split.
Qed.

(** C8 (fails). When closing the watcher fails, [Close] returns that error at
    once: the file handle is still open, and [Close] was never called on
    it. *)
Theorem Close_leaks_file_on_watcher_error :
  exists m',
    Close leaky_start = Ret (Some (WatcherError 5)) m' /\
    watcher (rd m') = None /\
    file (rd m') = Some {| ino := 1; pos := 13 |} /\
    map call (log m') = [CWatcherClose] /\
    env m' = [see hello_world].
Proof.
  eexists. split; [reflexivity|]. repeat split.
Qed.

(** ** The filter of the idle wait *)

Lemma accepts_iff eventType path ev :
  accepts eventType path ev = true <->
  Z.land eventType (fsnotify.Op ev) = fsnotify.Op ev /\ fsnotify.Name ev = path.
Proof.
  unfold accepts. rewrite andb_true_iff, Z.eqb_eq, String.eqb_eq. reflexivity.
Qed.

Lemma testbit_kinds ks i :
  Z.testbit (fold_right Z.lor 0 ks) i = existsb (fun k => Z.testbit k i) ks.
Proof.
  induction ks as [|k ks IH]; simpl.
  - apply Z.bits_0.
  - rewrite Z.lor_spec, IH. reflexivity.
Qed.

Lemma only_kinds_mask ks op :
  only_kinds ks op <-> Z.land (fold_right Z.lor 0 ks) op = op.
Proof.
  split.
  - intros H. apply Z.bits_inj'. intros i _.
    rewrite Z.land_spec, testbit_kinds.
    destruct (Z.testbit op i) eqn:B; [|apply andb_false_r].
    rewrite andb_true_r. apply existsb_exists.
    destruct (H i B) as (k & I & T). exists k. split; assumption.
  - intros H i B. rewrite <- H, Z.land_spec, testbit_kinds in B.
    apply andb_true_iff in B. destruct B as [B _].
    apply existsb_exists in B. exact B.
Qed.

Lemma accepts_idle path ev :
  accepts idle_mask path ev = true <->
  fsnotify.Name ev = path /\
  only_kinds [fsnotify.Write; fsnotify.Remove; fsnotify.Rename; fsnotify.Chmod]
    (fsnotify.Op ev).
Proof.
  rewrite accepts_iff, only_kinds_mask.
  change (fold_right Z.lor 0
            [fsnotify.Write; fsnotify.Remove; fsnotify.Rename; fsnotify.Chmod])
    with idle_mask.
  tauto.
Qed.

Lemma Read_idle_skips again p m w t rest :
  watcher (rd m) = Some w ->
  env m = t :: rest ->
  ignored idle_mask (Options.IdleTimeout (options (rd m))) (filePath (rd m)) t = true ->
  Read_idle again p m = Read_idle again p (with_env rest m).
Proof.
  intros W E I. unfold Read_idle.
  unfold bind at 1. unfold get at 1. cbv beta iota.
  unfold bind at 2. unfold get at 1. cbv beta iota.
  unfold bind.
  rewrite (waitForEventWithTimeout_eq _ _ m w W).
  rewrite (waitForEventWithTimeout_eq _ _ (with_env rest m) w W).
  rewrite E. change (t :: rest) with ([t] ++ rest).
  rewrite select_loop_ignored; [reflexivity|].
  simpl. rewrite I. reflexivity.
Qed.

Lemma Read_idle_event again p m w pre t rest ev :
  watcher (rd m) = Some w ->
  env m = pre ++ t :: rest ->
  forallb (ignored idle_mask (Options.IdleTimeout (options (rd m)))
             (filePath (rd m))) pre = true ->
  t_sel t = SelEvent ev ->
  accepts idle_mask (filePath (rd m)) ev = true ->
  Read_idle again p m =
  (if reports_removal (fsnotify.Op ev)
   then if Options.CloseOnDelete (options (rd m))
        then ret (0, Some io_EOF, p)
        else closeFile ;;; again
   else again)
    (with_env rest (marked (CWait idle_mask (Options.IdleTimeout (options (rd m)))) m)).
Proof.
  intros W E Hp Ht A. unfold Read_idle.
  unfold bind at 1. unfold get at 1. cbv beta iota.
  unfold bind at 1. rewrite (waitForEventWithTimeout_eq _ _ _ _ W).
  rewrite E, (select_loop_ignored _ _ _ _ _ Hp). simpl select_loop.
  rewrite Ht, A. reflexivity.
Qed.

Lemma Read_loop_nothing_new fuel p m t0 ticks :
  env m = t0 :: ticks -> stat_of t0 = inl (offset (rd m)) ->
  Read_loop (S fuel) p m = Read_idle (Read_loop fuel p) p (advance CStat t0 ticks m).
Proof.
  intros E S. rewrite (Read_loop_found _ _ _ _ _ _ E S).
  rewrite Z.ltb_irrefl. unfold Read_data.
  unfold bind at 1. unfold get at 1. cbv beta iota.
  change (offset (rd (advance CStat t0 ticks m))) with (offset (rd m)).
  rewrite Z.ltb_irrefl. reflexivity.
Qed.

Lemma Read_idle_passes again p m w t rest ev :
  watcher (rd m) = Some w ->
  env m = t :: rest ->
  t_sel t = SelEvent ev ->
  accepts idle_mask (filePath (rd m)) ev = false ->
  Read_idle again p m = Read_idle again p (with_env rest m).
Proof.
  intros W E Ht A. apply (Read_idle_skips _ _ _ w t rest W E).
  unfold ignored. rewrite Ht, A. reflexivity.
Qed.

Lemma not_accepts_idle path ev :
  fsnotify.Name ev <> path \/
  ~ only_kinds [fsnotify.Write; fsnotify.Remove; fsnotify.Rename; fsnotify.Chmod]
      (fsnotify.Op ev) ->
  accepts idle_mask path ev = false.
Proof.
  intros H. destruct (accepts idle_mask path ev) eqn:A; [|reflexivity].
  apply accepts_idle in A. destruct A as [N K].
  destruct H as [H|H]; contradiction.
Qed.

Lemma Read_nothing_new p m t0 ticks :
  env m = t0 :: ticks -> stat_of t0 = inl (offset (rd m)) ->
  Read p m = Read_idle (Read p) p (advance CStat t0 ticks m).
Proof.
  intros E S. unfold Read at 1. rewrite E. cbn [length].
  rewrite (Read_loop_nothing_new _ _ _ _ _ E S).
  apply Read_idle_ext. intros m1 L. apply Read_eq_loop.
  cbn [env advance] in L. lia.
Qed.

(** C6 (as stated, fails). A creation event on the exact path does not
    unblock the idle wait of [Read]: it is passed over, and the call ends
    with the idle timeout. *)
Lemma idle_wait_passes_over_creation :
  accepts idle_mask "app.log"
    {| fsnotify.Name := "app.log"; fsnotify.Op := fsnotify.Create |} = false /\
  returned (Read buffer16 created_start) = Some (0, Some ErrIdleTimeout, buffer16).
Proof. split; reflexivity. Qed.

(** C6 (amended). The idle wait of [Read] waits for the kinds write, removal,
    rename and attribute change, and not for creation.  An event whose path
    is the target path and whose kinds are all among these four ends the
    wait: [Read] returns [io.EOF] or takes its next turn, as the event
    tells.  Any other event, one for another path or one that carries a kind
    outside the four, such as a creation, is passed over: the call goes on
    as if the event had not arrived.  Both hold at the wait itself and for a
    [Read] entered when the file has nothing new. *)
Theorem idle_wait_filter p w t rest ev :
  t_sel t = SelEvent ev ->
  (forall again m,
     watcher (rd m) = Some w ->
     env m = t :: rest ->
     (fsnotify.Name ev = filePath (rd m) ->
      only_kinds [fsnotify.Write; fsnotify.Remove; fsnotify.Rename; fsnotify.Chmod]
        (fsnotify.Op ev) ->
      Read_idle again p m =
      (if reports_removal (fsnotify.Op ev)
       then if Options.CloseOnDelete (options (rd m))
            then ret (0, Some io_EOF, p)
            else closeFile ;;; again
       else again)
        (with_env rest
           (marked (CWait idle_mask (Options.IdleTimeout (options (rd m)))) m))) /\
     (fsnotify.Name ev <> filePath (rd m) \/
      ~ only_kinds [fsnotify.Write; fsnotify.Remove; fsnotify.Rename; fsnotify.Chmod]
          (fsnotify.Op ev) ->
      Read_idle again p m = Read_idle again p (with_env rest m))) /\
  (forall m t0,
     watcher (rd m) = Some w ->
     env m = t0 :: t :: rest ->
     stat_of t0 = inl (offset (rd m)) ->
     (fsnotify.Name ev = filePath (rd m) ->
      only_kinds [fsnotify.Write; fsnotify.Remove; fsnotify.Rename; fsnotify.Chmod]
        (fsnotify.Op ev) ->
      Read p m =
      (if reports_removal (fsnotify.Op ev)
       then if Options.CloseOnDelete (options (rd m))
            then ret (0, Some io_EOF, p)
            else closeFile ;;; Read p
       else Read p)
        (after_idle_wait t0 (t :: rest) rest m)) /\
     (fsnotify.Name ev <> filePath (rd m) \/
      ~ only_kinds [fsnotify.Write; fsnotify.Remove; fsnotify.Rename; fsnotify.Chmod]
          (fsnotify.Op ev) ->
      Read p m = Read p (with_env (t0 :: rest) m))).
Proof.
  intros Ht. split.
  - intros again m W E. split.
    + intros N K.
      exact (Read_idle_event again p m w [] t rest ev W E eq_refl Ht
               (proj2 (accepts_idle _ _) (conj N K))).
    + intros H.
      exact (Read_idle_passes again p m w t rest ev W E Ht (not_accepts_idle _ _ H)).
  - intros m t0 W E S. split.
    + intros N K. rewrite (Read_nothing_new _ _ _ _ E S).
      exact (Read_idle_event (Read p) p (advance CStat t0 (t :: rest) m)
               w [] t rest ev W eq_refl eq_refl Ht
               (proj2 (accepts_idle _ _) (conj N K))).
    + intros H. rewrite (Read_nothing_new _ _ _ _ E S).
      rewrite (Read_nothing_new p (with_env (t0 :: rest) m) t0 rest eq_refl S).
      exact (Read_idle_passes (Read p) p (advance CStat t0 (t :: rest) m)
               w t rest ev W eq_refl Ht (not_accepts_idle _ _ H)).
Qed.

Lemma idle_wait_filter_witness :
  (t_sel (event no_file "app.log" fsnotify.Remove) =
     SelEvent {| fsnotify.Name := "app.log"; fsnotify.Op := fsnotify.Remove |} /\
   env removed_start =
     [see hello_world; event no_file "app.log" fsnotify.Remove] /\
   stat_of (see hello_world) = inl (offset (rd removed_start)) /\
   only_kinds [fsnotify.Write; fsnotify.Remove; fsnotify.Rename; fsnotify.Chmod]
     fsnotify.Remove /\
   Read buffer16 removed_start =
     Ret (0, Some io_EOF, buffer16)
       (after_idle_wait (see hello_world)
          [event no_file "app.log" fsnotify.Remove] [] removed_start)) /\
  (t_sel (event grown_world "app.log" fsnotify.Write) =
     SelEvent {| fsnotify.Name := "app.log"; fsnotify.Op := fsnotify.Write |} /\
   env written_start =
     [see hello_world; event grown_world "app.log" fsnotify.Write;
      see grown_world; see grown_world] /\
   only_kinds [fsnotify.Write; fsnotify.Remove; fsnotify.Rename; fsnotify.Chmod]
     fsnotify.Write /\
   returned (Read buffer16 written_start) = Some (5, None, grown_buffer) /\
   Read buffer16 written_start =
     Read buffer16
       (after_idle_wait (see hello_world)
          [event grown_world "app.log" fsnotify.Write; see grown_world; see grown_world]
          [see grown_world; see grown_world] written_start)) /\
  (t_sel (event hello_world "app.log" fsnotify.Create) =
     SelEvent {| fsnotify.Name := "app.log"; fsnotify.Op := fsnotify.Create |} /\
   env created_start =
     [see hello_world; event hello_world "app.log" fsnotify.Create; see hello_world] /\
   ~ only_kinds [fsnotify.Write; fsnotify.Remove; fsnotify.Rename; fsnotify.Chmod]
       fsnotify.Create /\
   returned (Read buffer16 created_start) = Some (0, Some ErrIdleTimeout, buffer16) /\
   Read buffer16 created_start =
     Read buffer16 (with_env [see hello_world; see hello_world] created_start)) /\
  (t_sel (event hello_world "other.log" fsnotify.Write) =
     SelEvent {| fsnotify.Name := "other.log"; fsnotify.Op := fsnotify.Write |} /\
   env quiet_start =
     [see hello_world; event hello_world "other.log" fsnotify.Write; see hello_world] /\
   "other.log"%string <> filePath (rd quiet_start) /\
   returned (Read buffer16 quiet_start) = Some (0, Some ErrIdleTimeout, buffer16) /\
   Read buffer16 quiet_start =
     Read buffer16 (with_env [see hello_world; see hello_world] quiet_start)) /\
  (env quiet_eof_start =
     [event hello_world "other.log" fsnotify.Write; see hello_world] /\
   "other.log"%string <> filePath (rd quiet_eof_start) /\
   Read_idle (Read buffer16) buffer16 quiet_eof_start =
   Read_idle (Read buffer16) buffer16 (with_env [see hello_world] quiet_eof_start)).
Proof.
  assert (K1 : only_kinds
                 [fsnotify.Write; fsnotify.Remove; fsnotify.Rename; fsnotify.Chmod]
                 fsnotify.Remove)
    by (apply only_kinds_mask; reflexivity).
  assert (K2 : only_kinds
                 [fsnotify.Write; fsnotify.Remove; fsnotify.Rename; fsnotify.Chmod]
                 fsnotify.Write)
    by (apply only_kinds_mask; reflexivity).
  assert (K3 : ~ only_kinds
                 [fsnotify.Write; fsnotify.Remove; fsnotify.Rename; fsnotify.Chmod]
                 fsnotify.Create)
    by (intros K; apply only_kinds_mask in K; discriminate K).
  assert (N : "other.log"%string <> filePath (rd quiet_start)) by discriminate.
  split; [|split; [|split; [|split]]].
  - do 3 (split; [reflexivity|]). split; [exact K1|].
    exact (proj1 (proj2 (idle_wait_filter buffer16 {| watched := [] |}
                           (event no_file "app.log" fsnotify.Remove) []
                           {| fsnotify.Name := "app.log"; fsnotify.Op := fsnotify.Remove |}
                           eq_refl)
                    removed_start (see hello_world) eq_refl eq_refl eq_refl)
             eq_refl K1).
  - do 2 (split; [reflexivity|]). split; [exact K2|]. split; [reflexivity|].
    exact (proj1 (proj2 (idle_wait_filter buffer16 {| watched := [] |}
                           (event grown_world "app.log" fsnotify.Write)
                           [see grown_world; see grown_world]
                           {| fsnotify.Name := "app.log"; fsnotify.Op := fsnotify.Write |}
                           eq_refl)
                    written_start (see hello_world) eq_refl eq_refl eq_refl)
             eq_refl K2).
  - do 2 (split; [reflexivity|]). split; [exact K3|]. split; [reflexivity|].
    exact (proj2 (proj2 (idle_wait_filter buffer16 {| watched := [] |}
                           (event hello_world "app.log" fsnotify.Create)
                           [see hello_world]
                           {| fsnotify.Name := "app.log"; fsnotify.Op := fsnotify.Create |}
                           eq_refl)
                    created_start (see hello_world) eq_refl eq_refl eq_refl)
             (or_intror K3)).
  - do 2 (split; [reflexivity|]). split; [exact N|]. split; [reflexivity|].
    exact (proj2 (proj2 (idle_wait_filter buffer16 {| watched := [] |}
                           (event hello_world "other.log" fsnotify.Write)
                           [see hello_world]
                           {| fsnotify.Name := "other.log"; fsnotify.Op := fsnotify.Write |}
                           eq_refl)
                    quiet_start (see hello_world) eq_refl eq_refl eq_refl)
             (or_introl N)).
  - split; [reflexivity|]. split; [exact N|].
    exact (proj2 (proj1 (idle_wait_filter buffer16 {| watched := [] |}
                           (event hello_world "other.log" fsnotify.Write)
                           [see hello_world]
                           {| fsnotify.Name := "other.log"; fsnotify.Op := fsnotify.Write |}
                           eq_refl)
                    (Read buffer16) quiet_eof_start eq_refl eq_refl)
             (or_introl N)).
Defined.

(** ** Waiting for the file *)

Lemma waitForFile_missing fuel forceWait m t rest e :
  env m = t :: rest -> stat_of t = inr e ->
  waits_when_missing forceWait (rd m) ->
  waitForFile (S fuel) forceWait m =
  waitForFile_wait (waitForFile fuel forceWait) (advance CStat t rest m).
Proof.
  intros E S [G D]. cbn [waitForFile]. unfold waitForFile_body.
  unfold bind at 1. rewrite (getFileSize_cons _ _ _ E).
  unfold size_of_tick. rewrite S. cbv beta iota.
  unfold bind at 1. unfold get at 1. cbv beta iota.
  cbn [rd advance]. rewrite G.
  destruct D as [F|C].
  - rewrite F. reflexivity.
  - rewrite C. destruct (file (rd m)); reflexivity.
Qed.

Lemma waitForFile_refused fuel m t rest e :
  env m = t :: rest -> stat_of t = inr e ->
  Options.WaitForFile (options (rd m)) = false ->
  waitForFile (S fuel) false m = Ret (0, Some e) (advance CStat t rest m).
Proof.
  intros E S G. cbn [waitForFile]. unfold waitForFile_body.
  unfold bind at 1. rewrite (getFileSize_cons _ _ _ E).
  unfold size_of_tick. rewrite S. cbv beta iota.
  unfold bind at 1. unfold get at 1. cbv beta iota.
  cbn [rd advance]. rewrite G. reflexivity.
Qed.

Lemma waitForFile_deleted fuel forceWait m f t t2 rest e :
  env m = t :: t2 :: rest -> stat_of t = inr e ->
  negb (Options.WaitForFile (options (rd m))) && negb forceWait = false ->
  file (rd m) = Some f ->
  Options.CloseOnDelete (options (rd m)) = true ->
  waitForFile (S fuel) forceWait m =
  Ret (0, Some io_EOF)
    (with_rd (set_file None 0 (rd m))
       (advance CFileClose t2 rest (advance CStat t (t2 :: rest) m))).
Proof.
  intros E S G F C. cbn [waitForFile]. unfold waitForFile_body.
  unfold bind at 1. rewrite (getFileSize_cons _ _ _ E).
  unfold size_of_tick. rewrite S. cbv beta iota.
  unfold bind at 1. unfold get at 1. cbv beta iota.
  cbn [rd advance]. rewrite G, F, C.
  rewrite (bind_Ret _ _ _ _ _
             (closeFile_open (advance CStat t (t2 :: rest) m) f t2 rest F eq_refl)).
  reflexivity.
Qed.

Lemma waitForFile_wait_timeout again m w pre t rest :
  watcher (rd m) = Some w ->
  env m = pre ++ t :: rest ->
  forallb (ignored fsnotify.Create (Options.WaitForFileTimeout (options (rd m)))
             (filePath (rd m))) pre = true ->
  t_sel t = SelTimer ->
  0 < Options.WaitForFileTimeout (options (rd m)) ->
  waitForFile_wait again m =
  Ret (0, Some (wait_verdict (options (rd m))))
    (with_env rest
       (marked (CWait fsnotify.Create (Options.WaitForFileTimeout (options (rd m)))) m)).
Proof.
  intros W E Hp Ht L. unfold waitForFile_wait.
  unfold bind at 1. unfold get at 1. cbv beta iota.
  unfold bind. rewrite (waitForEventWithTimeout_eq _ _ _ _ W).
  rewrite E, (select_loop_timer _ _ _ _ _ _ Hp Ht L). simpl.
  unfold wait_verdict.
  destruct (Options.TreatTimeoutsAsEOF (options (rd m))); reflexivity.
Qed.

Lemma waitForFile_wait_created again m w pre t rest ev :
  watcher (rd m) = Some w ->
  env m = pre ++ t :: rest ->
  forallb (ignored fsnotify.Create (Options.WaitForFileTimeout (options (rd m)))
             (filePath (rd m))) pre = true ->
  t_sel t = SelEvent ev ->
  accepts fsnotify.Create (filePath (rd m)) ev = true ->
  waitForFile_wait again m =
  again (with_env rest
           (marked (CWait fsnotify.Create (Options.WaitForFileTimeout (options (rd m)))) m)).
Proof.
  intros W E Hp Ht A. unfold waitForFile_wait.
  unfold bind at 1. unfold get at 1. cbv beta iota.
  unfold bind. rewrite (waitForEventWithTimeout_eq _ _ _ _ W).
  rewrite E, (select_loop_ignored _ _ _ _ _ Hp). simpl.
  rewrite Ht, A. reflexivity.
Qed.

Lemma select_loop_starved eventType timeout path pre :
  forallb (ignored eventType timeout path) pre = true ->
  select_loop eventType timeout path pre = None.
Proof.
  intros H. rewrite <- (app_nil_r pre).
  rewrite (select_loop_ignored _ _ _ _ _ H). reflexivity.
Qed.

Lemma waitForFile_wait_pending again m w :
  watcher (rd m) = Some w ->
  forallb (ignored fsnotify.Create (Options.WaitForFileTimeout (options (rd m)))
             (filePath (rd m))) (env m) = true ->
  waitForFile_wait again m =
  Pending (with_env []
             (marked (CWait fsnotify.Create (Options.WaitForFileTimeout (options (rd m)))) m)).
Proof.
  intros W Hp. unfold waitForFile_wait.
  unfold bind at 1. unfold get at 1. cbv beta iota.
  unfold bind. rewrite (waitForEventWithTimeout_eq _ _ _ _ W).
  rewrite (select_loop_starved _ _ _ _ Hp). reflexivity.
Qed.

(** ** A missing file *)

Lemma Read_missing_timeout fuel p m w t pre tm rest e :
  watcher (rd m) = Some w ->
  env m = t :: pre ++ tm :: rest ->
  stat_of t = inr e ->
  waits_when_missing false (rd m) ->
  forallb (ignored fsnotify.Create (Options.WaitForFileTimeout (options (rd m)))
             (filePath (rd m))) pre = true ->
  t_sel tm = SelTimer ->
  0 < Options.WaitForFileTimeout (options (rd m)) ->
  returned (Read_loop (S fuel) p m) =
  Some (0, Some (wait_verdict (options (rd m))), p).
Proof.
  intros W E S G Hp Ht L. cbn [Read_loop]. unfold Read_body.
  unfold bind at 1.
  rewrite (waitForFile_missing _ _ _ _ _ _ E S G).
  rewrite (waitForFile_wait_timeout _ (advance CStat t (pre ++ tm :: rest) m)
             w pre tm rest W eq_refl Hp Ht L).
  reflexivity.
Qed.

Lemma Read_missing_pending fuel p m w t pre e :
  watcher (rd m) = Some w ->
  env m = t :: pre ->
  stat_of t = inr e ->
  waits_when_missing false (rd m) ->
  forallb (ignored fsnotify.Create (Options.WaitForFileTimeout (options (rd m)))
             (filePath (rd m))) pre = true ->
  pending (Read_loop (S fuel) p m) = true.
Proof.
  intros W E S G Hp. cbn [Read_loop]. unfold Read_body.
  unfold bind at 1.
  rewrite (waitForFile_missing _ _ _ _ _ _ E S G).
  rewrite (waitForFile_wait_pending _ (advance CStat t pre m) w W Hp).
  reflexivity.
Qed.

Lemma Read_missing_created p m w t pre tc rest e ev :
  watcher (rd m) = Some w ->
  env m = t :: pre ++ tc :: rest ->
  stat_of t = inr e ->
  waits_when_missing false (rd m) ->
  forallb (ignored fsnotify.Create (Options.WaitForFileTimeout (options (rd m)))
             (filePath (rd m))) pre = true ->
  t_sel tc = SelEvent ev ->
  accepts fsnotify.Create (filePath (rd m)) ev = true ->
  Read p m =
  Read p (with_env rest
            (marked (CWait fsnotify.Create
                       (Options.WaitForFileTimeout (options (rd m))))
               (advance CStat t (pre ++ tc :: rest) m))).
Proof.
  intros W E S G Hp Ht A. unfold Read at 1.
  apply Read_loop_resume.
  - rewrite (waitForFile_missing _ _ _ _ _ _ E S G).
    exact (waitForFile_wait_created _ (advance CStat t (pre ++ tc :: rest) m)
             w pre tc rest ev W eq_refl Hp Ht A).
  - rewrite E. cbn [env with_env length]. rewrite length_app. cbn [length]. lia.
Qed.

(** C3 (as stated, fails). With [WaitForFile] false, a [Read] that finds the
    file missing returns the error of [os.Stat] even though the handle was
    open and [CloseOnDelete] is set: it does not signal the end of the
    stream. *)
Lemma missing_file_error_before_deletion :
  Options.WaitForFile (options (rd gone_start)) = false /\
  Options.CloseOnDelete (options (rd gone_start)) = true /\
  file (rd gone_start) = Some {| ino := 1; pos := 13 |} /\
  stat_of (see no_file) = inr (PathError ENOENT) /\
  returned (Read buffer16 gone_start) = Some (0, Some (PathError ENOENT), buffer16) /\
  returned (Read buffer16 gone_start) <> Some (0, Some io_EOF, buffer16).
Proof. repeat split. discriminate. Qed.

(** C3 (amended). When [Read] finds the target file missing: if
    [WaitForFile] is false, it returns the file-access error at once, after
    the one [os.Stat] and without waiting, whether or not the handle was
    open; if [WaitForFile] is true, the handle was open and [CloseOnDelete]
    is set, it releases the handle and signals the end of the stream; if
    [WaitForFile] is true and the handle was never open or [CloseOnDelete] is
    not set, it waits for the file to appear, bounded by
    [WaitForFileTimeout]: it stays pending while nothing but ignored
    observations arrive, a timeout ends it with [ErrWaitTimeout] or, with
    [TreatTimeoutsAsEOF], with [io.EOF], and a creation event accepted for
    the path ends the wait, after which the call goes on as a [Read] that
    starts with the observations left. *)
Theorem missing_file_handling p m t rest e :
  env m = t :: rest ->
  stat_of t = inr e ->
  (Options.WaitForFile (options (rd m)) = false ->
   Read p m = Ret (0, Some e, p) (advance CStat t rest m)) /\
  (Options.WaitForFile (options (rd m)) = true ->
   forall f t2 rest',
     file (rd m) = Some f ->
     Options.CloseOnDelete (options (rd m)) = true ->
     rest = t2 :: rest' ->
     Read p m =
     Ret (0, Some io_EOF, p)
       (with_rd (set_file None 0 (rd m))
          (advance CFileClose t2 rest' (advance CStat t rest m)))) /\
  (Options.WaitForFile (options (rd m)) = true ->
   file (rd m) = None \/ Options.CloseOnDelete (options (rd m)) = false ->
   forall w,
     watcher (rd m) = Some w ->
     (forallb (ignored fsnotify.Create (Options.WaitForFileTimeout (options (rd m)))
                 (filePath (rd m))) rest = true ->
      pending (Read p m) = true) /\
     (forall pre tm rest',
        rest = pre ++ tm :: rest' ->
        forallb (ignored fsnotify.Create (Options.WaitForFileTimeout (options (rd m)))
                   (filePath (rd m))) pre = true ->
        t_sel tm = SelTimer ->
        0 < Options.WaitForFileTimeout (options (rd m)) ->
        returned (Read p m) =
        Some (0, Some (if Options.TreatTimeoutsAsEOF (options (rd m))
                       then io_EOF else ErrWaitTimeout), p)) /\
     (forall pre tc rest' ev,
        rest = pre ++ tc :: rest' ->
        forallb (ignored fsnotify.Create (Options.WaitForFileTimeout (options (rd m)))
                   (filePath (rd m))) pre = true ->
        t_sel tc = SelEvent ev ->
        accepts fsnotify.Create (filePath (rd m)) ev = true ->
        Read p m =
        Read p (with_env rest'
                  (marked (CWait fsnotify.Create
                             (Options.WaitForFileTimeout (options (rd m))))
                     (advance CStat t rest m))))).
Proof.
  intros E S. split; [|split].
  - intros G. unfold Read. cbn [Read_loop]. unfold Read_body.
    unfold bind at 1.
    rewrite (waitForFile_refused _ _ _ _ _ E S G). reflexivity.
  - intros G f t2 rest' F C ->. unfold Read. cbn [Read_loop]. unfold Read_body.
    unfold bind at 1.
    rewrite (waitForFile_deleted _ false _ f _ _ _ _ E S); try assumption.
    + reflexivity.
    + rewrite G. reflexivity.
  - intros G D w W.
    assert (Wm : waits_when_missing false (rd m)).
    { split; [rewrite G; reflexivity | exact D]. }
    split; [|split].
    + intros Hp. unfold Read.
      exact (Read_missing_pending _ p m w t rest e W E S Wm Hp).
    + intros pre tm rest' -> Hp Ht L. unfold Read.
      exact (Read_missing_timeout _ p m w t pre tm rest' e W E S Wm Hp Ht L).
    + intros pre tc rest' ev -> Hp Ht A.
      exact (Read_missing_created p m w t pre tc rest' e ev W E S Wm Hp Ht A).
Qed.

Lemma missing_file_handling_witness :
  (env refused_start = [see no_file] /\
   stat_of (see no_file) = inr (PathError ENOENT) /\
   Options.WaitForFile (options (rd refused_start)) = false /\
   Read buffer16 refused_start =
     Ret (0, Some (PathError ENOENT), buffer16)
       (advance CStat (see no_file) [] refused_start)) /\
  (env deleted_start = [see no_file; see no_file] /\
   Options.WaitForFile (options (rd deleted_start)) = true /\
   file (rd deleted_start) = Some {| ino := 1; pos := 13 |} /\
   Options.CloseOnDelete (options (rd deleted_start)) = true /\
   Read buffer16 deleted_start =
     Ret (0, Some io_EOF, buffer16)
       (with_rd (set_file None 0 (rd deleted_start))
          (advance CFileClose (see no_file) []
             (advance CStat (see no_file) [see no_file] deleted_start)))) /\
  (env lonely_start = [see no_file; event no_file "other.log" fsnotify.Create] /\
   Options.WaitForFile (options (rd lonely_start)) = true /\
   file (rd lonely_start) = None /\
   pending (Read buffer16 lonely_start) = true) /\
  (env absent_start = see no_file :: [] ++ see no_file :: [] /\
   Options.WaitForFile (options (rd absent_start)) = true /\
   file (rd absent_start) = None /\
   0 < Options.WaitForFileTimeout (options (rd absent_start)) /\
   returned (Read buffer16 absent_start) = Some (0, Some ErrWaitTimeout, buffer16)) /\
  (env appeared_start =
     see no_file :: [event no_file "other.log" fsnotify.Create] ++
     event hello_world "app.log" fsnotify.Create ::
     [see hello_world; see hello_world; see hello_world] /\
   Options.WaitForFile (options (rd appeared_start)) = true /\
   file (rd appeared_start) = None /\
   accepts fsnotify.Create (filePath (rd appeared_start))
     {| fsnotify.Name := "app.log"; fsnotify.Op := fsnotify.Create |} = true /\
   returned (Read buffer16 appeared_start) = Some (13, None, hello_buffer) /\
   Read buffer16 appeared_start =
   Read buffer16
     (with_env [see hello_world; see hello_world; see hello_world]
        (marked (CWait fsnotify.Create
                   (Options.WaitForFileTimeout (options (rd appeared_start))))
           (advance CStat (see no_file)
              ([event no_file "other.log" fsnotify.Create] ++
               event hello_world "app.log" fsnotify.Create ::
               [see hello_world; see hello_world; see hello_world])
              appeared_start)))).
Proof.
  split; [|split; [|split; [|split]]].
  - do 3 (split; [reflexivity|]).
    exact (proj1 (missing_file_handling buffer16 refused_start (see no_file) []
                    (PathError ENOENT) eq_refl eq_refl) eq_refl).
  - do 4 (split; [reflexivity|]).
    exact (proj1 (proj2 (missing_file_handling buffer16 deleted_start (see no_file)
                           [see no_file] (PathError ENOENT) eq_refl eq_refl))
             eq_refl {| ino := 1; pos := 13 |} (see no_file) []
             eq_refl eq_refl eq_refl).
  - do 3 (split; [reflexivity|]).
    exact (proj1 (proj2 (proj2 (missing_file_handling buffer16 lonely_start
                                  (see no_file)
                                  [event no_file "other.log" fsnotify.Create]
                                  (PathError ENOENT) eq_refl eq_refl))
                    eq_refl (or_introl eq_refl) {| watched := [] |} eq_refl)
             eq_refl).
  - assert (L : 0 < Options.WaitForFileTimeout (options (rd absent_start)))
      by reflexivity.
    do 4 (split; [reflexivity|]).
    exact (proj1 (proj2 (proj2 (proj2 (missing_file_handling buffer16 absent_start
                                  (see no_file) [see no_file]
                                  (PathError ENOENT) eq_refl eq_refl))
                    eq_refl (or_introl eq_refl) {| watched := [] |} eq_refl))
             [] (see no_file) [] eq_refl eq_refl eq_refl L).
  - do 5 (split; [reflexivity|]).
    exact (proj2 (proj2 (proj2 (proj2 (missing_file_handling buffer16 appeared_start
                                  (see no_file)
                                  ([event no_file "other.log" fsnotify.Create] ++
                                   event hello_world "app.log" fsnotify.Create ::
                                   [see hello_world; see hello_world; see hello_world])
                                  (PathError ENOENT) eq_refl eq_refl))
                    eq_refl (or_introl eq_refl) {| watched := [] |} eq_refl))
             [event no_file "other.log" fsnotify.Create]
             (event hello_world "app.log" fsnotify.Create)
             [see hello_world; see hello_world; see hello_world]
             {| fsnotify.Name := "app.log"; fsnotify.Op := fsnotify.Create |}
             eq_refl eq_refl eq_refl eq_refl).
Defined.

(** ** WaitForFile *)

Lemma waits_when_forced r :
  file r = None \/ Options.CloseOnDelete (options r) = false ->
  waits_when_missing true r.
Proof. intros D. split; [apply andb_false_r | exact D]. Qed.

(** C4 (as stated, fails). [WaitForFile] hands no size to its caller: it
    returns the same nil error for a file of thirteen bytes and for a file of
    eleven.  Nor does it always wait until the file exists: with the handle
    open and [CloseOnDelete] set it signals the end of the stream at once,
    though no timeout is configured. *)
Lemma WaitForFile_returns_no_size :
  stat_of (see hello_world) = inl 13 /\
  stat_of (see again_world) = inl 11 /\
  returned (WaitForFile found13_start) = Some None /\
  returned (WaitForFile found11_start) = Some None /\
  Options.WaitForFileTimeout (options (rd deleted_start)) = 0 /\
  Options.TreatTimeoutsAsEOF (options (rd deleted_start)) = false /\
  returned (WaitForFile deleted_start) = Some (Some io_EOF).
Proof. repeat split. Qed.

(** C4 (amended). [WaitForFile] waits for the target file whatever the value
    of the [WaitForFile] option, bounded by [WaitForFileTimeout]: when the
    file exists it returns nil (the size is observed by [waitForFile] and
    dropped); when the file is missing it stays pending while nothing but
    ignored observations arrive, goes on to look again when the creation of
    the file is reported, and returns [ErrWaitTimeout] on a timeout, or
    [io.EOF] with [TreatTimeoutsAsEOF].  The one case in which it does not
    wait: with the handle open and [CloseOnDelete] set, a missing file makes
    it release the handle and return [io.EOF]. *)
Theorem WaitForFile_waits m t rest :
  env m = t :: rest ->
  (forall size,
     stat_of t = inl size ->
     WaitForFile m = Ret None (advance CStat t rest m) /\
     forall fuel,
       waitForFile (S fuel) true m = Ret (size, None) (advance CStat t rest m)) /\
  (forall e w,
     stat_of t = inr e ->
     watcher (rd m) = Some w ->
     file (rd m) = None \/ Options.CloseOnDelete (options (rd m)) = false ->
     (forallb (ignored fsnotify.Create (Options.WaitForFileTimeout (options (rd m)))
                 (filePath (rd m))) rest = true ->
      pending (WaitForFile m) = true) /\
     (forall pre tm rest',
        rest = pre ++ tm :: rest' ->
        forallb (ignored fsnotify.Create (Options.WaitForFileTimeout (options (rd m)))
                   (filePath (rd m))) pre = true ->
        t_sel tm = SelTimer ->
        0 < Options.WaitForFileTimeout (options (rd m)) ->
        returned (WaitForFile m) =
        Some (Some (if Options.TreatTimeoutsAsEOF (options (rd m))
                    then io_EOF else ErrWaitTimeout))) /\
     (forall pre tc ev t' rest' size,
        rest = pre ++ tc :: t' :: rest' ->
        forallb (ignored fsnotify.Create (Options.WaitForFileTimeout (options (rd m)))
                   (filePath (rd m))) pre = true ->
        t_sel tc = SelEvent ev ->
        accepts fsnotify.Create (filePath (rd m)) ev = true ->
        stat_of t' = inl size ->
        exists m',
          WaitForFile m = Ret None m' /\ rd m' = rd m /\ env m' = rest')) /\
  (forall e f t2 rest',
     stat_of t = inr e ->
     file (rd m) = Some f ->
     Options.CloseOnDelete (options (rd m)) = true ->
     rest = t2 :: rest' ->
     WaitForFile m =
     Ret (Some io_EOF)
       (with_rd (set_file None 0 (rd m))
          (advance CFileClose t2 rest' (advance CStat t rest m)))).
Proof.
  intros E. split; [|split].
  - intros size Hs. split.
    + unfold WaitForFile, bind.
      rewrite (waitForFile_found _ true _ _ _ _ E Hs). reflexivity.
    + intros fuel. exact (waitForFile_found fuel true _ _ _ _ E Hs).
  - intros e w Hs W D. pose proof (waits_when_forced _ D) as Wm.
    split; [|split].
    + intros Hp. unfold WaitForFile, bind.
      rewrite (waitForFile_missing _ _ _ _ _ _ E Hs Wm).
      rewrite (waitForFile_wait_pending _ (advance CStat t rest m) w W Hp).
      reflexivity.
    + intros pre tm rest' -> Hp Ht L. unfold WaitForFile, bind.
      rewrite (waitForFile_missing _ _ _ _ _ _ E Hs Wm).
      rewrite (waitForFile_wait_timeout _ (advance CStat t (pre ++ tm :: rest') m)
                 w pre tm rest' W eq_refl Hp Ht L).
      reflexivity.
    + intros pre tc ev t' rest' size -> Hp Ht A Hs'. unfold WaitForFile, bind.
      rewrite (waitForFile_missing _ _ _ _ _ _ E Hs Wm).
      rewrite (waitForFile_wait_created _
                 (advance CStat t (pre ++ tc :: t' :: rest') m)
                 w pre tc (t' :: rest') ev W eq_refl Hp Ht A).
      assert (K : exists k, length (pre ++ tc :: t' :: rest') = S k).
      { rewrite length_app. simpl. rewrite Nat.add_succ_r. eexists. reflexivity. }
      destruct K as [k K]. rewrite E. cbn [length]. rewrite K.
      erewrite waitForFile_found; [|reflexivity|exact Hs'].
      eexists. split; [reflexivity|]. split; reflexivity.
  - intros e f t2 rest' Hs F C ->. unfold WaitForFile, bind.
    rewrite (waitForFile_deleted _ true _ f _ _ _ _ E Hs (andb_false_r _) F C).
    reflexivity.
Qed.

Lemma WaitForFile_waits_witness :
  (env found13_start = [see hello_world] /\
   stat_of (see hello_world) = inl 13 /\
   WaitForFile found13_start =
     Ret None (advance CStat (see hello_world) [] found13_start)) /\
  (env absent_start = see no_file :: [] ++ see no_file :: [] /\
   stat_of (see no_file) = inr (PathError ENOENT) /\
   file (rd absent_start) = None /\
   0 < Options.WaitForFileTimeout (options (rd absent_start)) /\
   returned (WaitForFile absent_start) = Some (Some ErrWaitTimeout)) /\
  (Options.WaitForFile (options (rd forced_start)) = false /\
   env forced_start =
     see no_file :: [] ++ event hello_world "app.log" fsnotify.Create
       :: see hello_world :: [] /\
   accepts fsnotify.Create "app.log"
     {| fsnotify.Name := "app.log"; fsnotify.Op := fsnotify.Create |} = true /\
   exists m',
     WaitForFile forced_start = Ret None m' /\
     rd m' = rd forced_start /\ env m' = []) /\
  (env deleted_start = [see no_file; see no_file] /\
   file (rd deleted_start) = Some {| ino := 1; pos := 13 |} /\
   Options.CloseOnDelete (options (rd deleted_start)) = true /\
   WaitForFile deleted_start =
     Ret (Some io_EOF)
       (with_rd (set_file None 0 (rd deleted_start))
          (advance CFileClose (see no_file) []
             (advance CStat (see no_file) [see no_file] deleted_start)))).
Proof.
  split; [|split; [|split]].
  - repeat (split; [reflexivity|]).
    exact (proj1 (proj1 (WaitForFile_waits found13_start (see hello_world) [] eq_refl)
                    13 eq_refl)).
  - assert (L : 0 < Options.WaitForFileTimeout (options (rd absent_start)))
      by reflexivity.
    repeat (split; [reflexivity|]).
    exact (proj1 (proj2 (proj1 (proj2
             (WaitForFile_waits absent_start (see no_file) [see no_file] eq_refl))
             (PathError ENOENT) {| watched := [] |} eq_refl eq_refl
             (or_introl eq_refl)))
             [] (see no_file) [] eq_refl eq_refl eq_refl L).
  - repeat (split; [reflexivity|]).
    exact (proj2 (proj2 (proj1 (proj2
             (WaitForFile_waits forced_start (see no_file)
                [event hello_world "app.log" fsnotify.Create; see hello_world]
                eq_refl))
             (PathError ENOENT) {| watched := [] |} eq_refl eq_refl
             (or_introl eq_refl)))
             [] (event hello_world "app.log" fsnotify.Create)
             {| fsnotify.Name := "app.log"; fsnotify.Op := fsnotify.Create |}
             (see hello_world) [] 13 eq_refl eq_refl eq_refl eq_refl eq_refl).
  - repeat (split; [reflexivity|]).
    exact (proj2 (proj2
             (WaitForFile_waits deleted_start (see no_file) [see no_file] eq_refl))
             (PathError ENOENT) {| ino := 1; pos := 13 |} (see no_file) []
             eq_refl eq_refl eq_refl eq_refl).
Defined.

(** * Further properties of the package *)

(** ** Options (options.go) *)

(** X1. Of two options of the same kind applied one after the other, the
    later one wins; two options of different kinds can be applied in either
    order. *)
Theorem options_override_and_commute s1 s2 o :
  (same_kind s1 s2 = true ->
   option_of s2 (option_of s1 o) = option_of s2 o) /\
  (same_kind s1 s2 = false ->
   option_of s2 (option_of s1 o) = option_of s1 (option_of s2 o)).
Proof.
  destruct s1, s2; simpl; split; intros H; try discriminate; reflexivity.
Qed.

Lemma options_override_and_commute_witness :
  (same_kind (SetIdleTimeout 3) (SetIdleTimeout 7) = true /\
   WithIdleTimeout 7 (WithIdleTimeout 3 Options.zero) =
   WithIdleTimeout 7 Options.zero) /\
  (same_kind (SetCloseOnDelete true) (SetWaitForFile true 30) = false /\
   WithWaitForFile true 30 (WithCloseOnDelete true Options.zero) =
   WithCloseOnDelete true (WithWaitForFile true 30 Options.zero)).
Proof.
  split.
  - split; [reflexivity|].
    exact (proj1 (options_override_and_commute (SetIdleTimeout 3) (SetIdleTimeout 7)
                    Options.zero) eq_refl).
  - split; [reflexivity|].
    exact (proj2 (options_override_and_commute (SetCloseOnDelete true)
                    (SetWaitForFile true 30) Options.zero) eq_refl).
Defined.

(** ** Construction (tailreader.go, NewTailingReader) *)

(** X2. [NewTailingReader] succeeds exactly when creating the watcher and
    adding the directory both succeed, and fails with the error of the first
    of the two that fails.  The reader it builds is on the given path, has
    no file open, offset zero, and a watcher on the directory of the path
    only; its options are the given ones applied in order to the zero value,
    with the defaults used only when no option is given at all.
    Construction consumes two observations and never looks at the target
    file. *)
Theorem NewTailingReader_builds filepath_Dir path opts :
  (forall ticks m,
     NewTailingReader filepath_Dir path opts ticks = Built m ->
     exists t1 t2,
       ticks = t1 :: t2 :: env m /\ t_fault t1 = None /\ t_fault t2 = None /\
       map call (log m) = [CWatcherAdd (filepath_Dir path); CNewWatcher] /\
       rd m =
       {| file := None; filePath := path;
          options := apply_options
                       (match opts with [] => DefaultOptions | _ :: _ => opts end)
                       Options.zero;
          watcher := Some {| watched := [filepath_Dir path] |};
          offset := 0 |}) /\
  (forall t1 t2 rest,
     t_fault t1 = None -> t_fault t2 = None ->
     exists m, NewTailingReader filepath_Dir path opts (t1 :: t2 :: rest) = Built m) /\
  (forall t1 rest c,
     t_fault t1 = Some c ->
     NewTailingReader filepath_Dir path opts (t1 :: rest) =
     Failed (WatcherError c) rest) /\
  (forall t1 t2 rest c,
     t_fault t1 = None -> t_fault t2 = Some c ->
     NewTailingReader filepath_Dir path opts (t1 :: t2 :: rest) =
     Failed (WatcherError c) rest).
Proof.
  split; [|split; [|split]].
  - intros ticks m H. unfold NewTailingReader in H.
    destruct ticks as [|t1 [|t2 rest]]; try discriminate.
    + destruct (t_fault t1); discriminate.
    + destruct (t_fault t1) eqn:F1; [discriminate|].
      destruct (t_fault t2) eqn:F2; [discriminate|].
      inversion H; subst m; clear H.
      exists t1, t2. repeat split; assumption.
  - intros t1 t2 rest F1 F2. unfold NewTailingReader. rewrite F1, F2.
    eexists. reflexivity.
  - intros t1 rest c F1. unfold NewTailingReader. rewrite F1. reflexivity.
  - intros t1 t2 rest c F1 F2. unfold NewTailingReader. rewrite F1, F2.
    reflexivity.
Qed.

Lemma NewTailingReader_builds_witness :
  NewTailingReader (fun _ => "."%string) "app.log" [WithIdleTimeout 5]
    [see hello_world; see hello_world] =
    Built (Build_Machine
             {| file := None; filePath := "app.log";
                options := WithIdleTimeout 5 Options.zero;
                watcher := Some {| watched := ["."%string] |}; offset := 0 |}
             []
             [ {| call := CWatcherAdd "."; 
                  before := {| file := None; filePath := "app.log";
                               options := WithIdleTimeout 5 Options.zero;
                               watcher := Some {| watched := [] |}; offset := 0 |};
                  seen := Some (see hello_world) |};
               {| call := CNewWatcher;
                  before := {| file := None; filePath := "app.log";
                               options := WithIdleTimeout 5 Options.zero;
                               watcher := None; offset := 0 |};
                  seen := Some (see hello_world) |} ]) /\
  Options.WaitForFile (WithIdleTimeout 5 Options.zero) = false /\
  exists t1 t2,
    [see hello_world; see hello_world] = t1 :: t2 :: [] /\
    t_fault t1 = None /\ t_fault t2 = None.
Proof.
  assert (H : NewTailingReader (fun _ => "."%string) "app.log" [WithIdleTimeout 5]
    [see hello_world; see hello_world] =
    Built (Build_Machine
             {| file := None; filePath := "app.log";
                options := WithIdleTimeout 5 Options.zero;
                watcher := Some {| watched := ["."%string] |}; offset := 0 |}
             []
             [ {| call := CWatcherAdd "."; 
                  before := {| file := None; filePath := "app.log";
                               options := WithIdleTimeout 5 Options.zero;
                               watcher := Some {| watched := [] |}; offset := 0 |};
                  seen := Some (see hello_world) |};
               {| call := CNewWatcher;
                  before := {| file := None; filePath := "app.log";
                               options := WithIdleTimeout 5 Options.zero;
                               watcher := None; offset := 0 |};
                  seen := Some (see hello_world) |} ])) by reflexivity.
  split; [exact H|]. split; [reflexivity|].
  destruct (proj1 (NewTailingReader_builds (fun _ => "."%string) "app.log"
                     [WithIdleTimeout 5]) _ _ H)
    as (t1 & t2 & E & F1 & F2 & _).
  exists t1, t2. repeat split; assumption.
Defined.

(** ** Waiting for events (tailreader.go, waitForEventWithTimeout) *)

Lemma decisive_ignored eventType timeout path t :
  decisive eventType timeout path t = None <->
  ignored eventType timeout path t = true.
Proof.
  unfold decisive, ignored. destruct (t_sel t) as [ev|e|].
  - destruct (accepts eventType path ev); simpl; split; intros H;
      try discriminate; reflexivity.
  - split; discriminate.
  - destruct (0 <? timeout); simpl; split; intros H; try discriminate; reflexivity.
Qed.

Lemma select_loop_decisive eventType timeout path t rest res :
  decisive eventType timeout path t = Some res ->
  select_loop eventType timeout path (t :: rest) = Some (res, rest).
Proof.
  unfold decisive. simpl. destruct (t_sel t) as [ev|e|].
  - destruct (accepts eventType path ev); [|discriminate].
    intros H. inversion H. reflexivity.
  - intros H. inversion H. reflexivity.
  - destruct (0 <? timeout); [|discriminate].
    intros H. inversion H. reflexivity.
Qed.

Lemma select_loop_first eventType timeout path ticks res rest :
  select_loop eventType timeout path ticks = Some (res, rest) <->
  exists pre t,
    ticks = pre ++ t :: rest /\
    forallb (ignored eventType timeout path) pre = true /\
    decisive eventType timeout path t = Some res.
Proof.
  split.
  - revert res rest. induction ticks as [|t ticks IH]; intros res rest H;
      [discriminate|].
    destruct (decisive eventType timeout path t) as [res0|] eqn:D.
    + rewrite (select_loop_decisive _ _ _ _ _ _ D) in H. inversion H; subst.
      exists [], t. repeat split. exact D.
    + pose proof (proj1 (decisive_ignored _ _ _ _) D) as I.
      change (t :: ticks) with ([t] ++ ticks) in H.
      rewrite select_loop_ignored in H by (simpl; rewrite I; reflexivity).
      destruct (IH _ _ H) as (pre & t' & -> & Hp & Hd).
      exists (t :: pre), t'. repeat split; [|exact Hd].
      simpl. rewrite I. exact Hp.
  - intros (pre & t & -> & Hp & Hd).
    rewrite (select_loop_ignored _ _ _ _ _ Hp).
    exact (select_loop_decisive _ _ _ _ _ _ Hd).
Qed.

(** X3. A wait returns at the first observation that is an accepted event, an
    error of the watcher, or, when the timeout is positive, the timer; the
    observations before it are consumed and dropped, and the reader is left
    as it was. *)
Theorem wait_returns_at_first_decisive eventType timeout m w res m' :
  watcher (rd m) = Some w ->
  (waitForEventWithTimeout eventType timeout m = Ret res m' <->
   exists pre t rest,
     env m = pre ++ t :: rest /\
     forallb (ignored eventType timeout (filePath (rd m))) pre = true /\
     decisive eventType timeout (filePath (rd m)) t = Some res /\
     m' = with_env rest (marked (CWait eventType timeout) m)).
Proof.
  intros W. rewrite (waitForEventWithTimeout_eq _ _ _ _ W). split.
  - destruct (select_loop _ _ _ _) as [[res0 rest]|] eqn:S; [|discriminate].
    intros H. inversion H; subst res0 m'; clear H.
    apply select_loop_first in S. destruct S as (pre & t & E & Hp & Hd).
    exists pre, t, rest. repeat split; assumption.
  - intros (pre & t & rest & E & Hp & Hd & ->).
    assert (S : select_loop eventType timeout (filePath (rd m)) (env m)
                = Some (res, rest)).
    { apply select_loop_first. exists pre, t. repeat split; assumption. }
    rewrite S. reflexivity.
Qed.

Lemma wait_returns_at_first_decisive_witness :
  watcher (rd quiet_eof_start) = Some {| watched := [] |} /\
  (exists pre t rest,
     env quiet_eof_start = pre ++ t :: rest /\
     forallb (ignored idle_mask 5 "app.log") pre = true /\
     decisive idle_mask 5 "app.log" t = Some (Some errTimeout, 0) /\
     with_env [] (marked (CWait idle_mask 5) quiet_eof_start) =
     with_env rest (marked (CWait idle_mask 5) quiet_eof_start)) /\
  waitForEventWithTimeout idle_mask 5 quiet_eof_start =
    Ret (Some errTimeout, 0) (with_env [] (marked (CWait idle_mask 5) quiet_eof_start)).
Proof.
  assert (W : watcher (rd quiet_eof_start) = Some {| watched := [] |}) by reflexivity.
  assert (H : exists pre t rest,
     env quiet_eof_start = pre ++ t :: rest /\
     forallb (ignored idle_mask 5 "app.log") pre = true /\
     decisive idle_mask 5 "app.log" t = Some (Some errTimeout, 0) /\
     with_env [] (marked (CWait idle_mask 5) quiet_eof_start) =
     with_env rest (marked (CWait idle_mask 5) quiet_eof_start)).
  { exists [event hello_world "other.log" fsnotify.Write], (see hello_world), [].
    repeat split. }
  split; [exact W|]. split; [exact H|].
  exact (proj2 (wait_returns_at_first_decisive idle_mask 5 quiet_eof_start _ _ _ W) H).
Defined.

Lemma decisive_sound eventType timeout path t err op :
  decisive eventType timeout path t = Some (err, op) ->
  (err = Some errTimeout -> 0 < timeout) /\
  (err = None -> Z.land eventType op = op) /\
  (err <> None -> op = 0) /\
  (forall e, err = Some e -> e = errTimeout \/ exists c, e = WatcherError c).
Proof.
  unfold decisive. destruct (t_sel t) as [ev|e|].
  - destruct (accepts eventType path ev) eqn:A; [|discriminate].
    intros H. inversion H; subst. apply accepts_iff in A.
    repeat split; try discriminate.
    + intros _. apply A.
    + intros N. contradiction.
  - intros H. inversion H; subst. repeat split; try discriminate.
    intros e0 He. inversion He. right. exists e. reflexivity.
  - destruct (0 <? timeout) eqn:L; [|discriminate].
    intros H. inversion H; subst. apply Z.ltb_lt in L.
    repeat split; try discriminate.
    + intros _. exact L.
    + intros e He. inversion He. left. reflexivity.
Qed.

(** X4. A wait can only time out when its timeout is positive: with a zero or
    negative timeout it never returns the timeout error.  An event it returns
    carries only kinds of the mask it was given; with an error it returns no
    event; its only errors are the timeout and the errors of the watcher. *)
Theorem wait_result_sound eventType timeout m err op m' :
  waitForEventWithTimeout eventType timeout m = Ret (err, op) m' ->
  rd m' = rd m /\
  (timeout <= 0 -> err <> Some errTimeout) /\
  (err = None -> Z.land eventType op = op) /\
  (err <> None -> op = 0) /\
  (forall e, err = Some e -> e = errTimeout \/ exists c, e = WatcherError c).
Proof.
  intros H. apply waitForEventWithTimeout_inv in H.
  destruct H as (rest & S & ->). split; [reflexivity|].
  apply select_loop_first in S. destruct S as (pre & t & _ & _ & D).
  destruct (decisive_sound _ _ _ _ _ _ D) as (T & A & Z0 & E).
  repeat split; try assumption.
  intros L He. specialize (T He). lia.
Qed.

Lemma wait_result_sound_witness :
  waitForEventWithTimeout idle_mask 5 quiet_eof_start =
    Ret (Some errTimeout, 0) (with_env [] (marked (CWait idle_mask 5) quiet_eof_start)) /\
  rd (with_env [] (marked (CWait idle_mask 5) quiet_eof_start)) = rd quiet_eof_start /\
  (Some errTimeout <> None -> 0 = 0).
Proof.
  assert (H : waitForEventWithTimeout idle_mask 5 quiet_eof_start =
    Ret (Some errTimeout, 0) (with_env [] (marked (CWait idle_mask 5) quiet_eof_start)))
    by reflexivity.
  destruct (wait_result_sound _ _ _ _ _ _ H) as (R & _ & _ & Z0 & _).
  split; [exact H|]. split; [exact R|exact Z0].
Defined.

(** ** What the loops keep *)

Section Keeping.

(** A property [J] of machines that every step of the reader keeps, and a
    set [E] of errors that contains every error the reader can come by. *)
Variable J : Machine -> Prop.
Variable E : error -> Prop.

Hypothesis J_tick : forall c t rest m,
  J m -> env m = t :: rest -> J (advance c t rest m).
Hypothesis J_wait : forall c pre rest m,
  J m -> env m = pre ++ rest -> J (with_env rest (marked c m)).
Hypothesis J_close : forall t rest m f,
  J m -> file (rd m) = Some f -> env m = t :: rest ->
  J (with_rd (set_file None 0 (rd m)) (advance CFileClose t rest m)).
Hypothesis J_open : forall t rest m f,
  J m -> file (rd m) = None -> env m = t :: rest ->
  J (with_rd (set_file (Some f) 0 (rd m)) (advance COpen t rest m)).

Hypothesis E_eof : E io_EOF.
Hypothesis E_path : forall c, E (PathError c).
Hypothesis E_watcher : forall c, E (WatcherError c).
Hypothesis E_idle : forall m,
  J m -> Options.TreatTimeoutsAsEOF (options (rd m)) = false ->
  0 < Options.IdleTimeout (options (rd m)) -> E ErrIdleTimeout.
Hypothesis E_wait : forall m,
  J m -> Options.TreatTimeoutsAsEOF (options (rd m)) = false ->
  0 < Options.WaitForFileTimeout (options (rd m)) -> E ErrWaitTimeout.

Lemma closeFile_keeps m err m' :
  J m -> closeFile m = Ret err m' -> J m'.
Proof.
  intros Jm H. apply closeFile_inv in H.
  destruct H as [(_ & -> & _)|(f & t & rest & F & Ev & -> & _)].
  - exact Jm.
  - exact (J_close t rest m f Jm F Ev).
Qed.

Lemma openFile_keeps m err m' :
  J m -> openFile m = Ret err m' ->
  J m' /\ forall e, err = Some e -> E e.
Proof.
  intros Jm H. apply openFile_inv in H.
  destruct H as [(f & _ & -> & ->)|(t & rest & F & Ev & H)].
  - split; [exact Jm|discriminate].
  - unfold open_of in H. destruct (t_fault t) as [c|].
    + destruct H as [-> ->]. split; [exact (J_tick _ _ _ _ Jm Ev)|].
      intros e He. inversion He. apply E_path.
    + destruct (w_path (t_world t)) as [i|].
      * destruct H as [-> ->]. split; [|discriminate].
        exact (J_open t rest m _ Jm F Ev).
      * destruct H as [-> ->]. split; [exact (J_tick _ _ _ _ Jm Ev)|].
        intros e He. inversion He. apply E_path.
Qed.

Lemma wait_keeps eventType timeout m err op m' :
  J m -> waitForEventWithTimeout eventType timeout m = Ret (err, op) m' ->
  J m' /\ rd m' = rd m /\
  (err = Some errTimeout -> 0 < timeout) /\
  (forall e, err = Some e -> e <> errTimeout -> E e).
Proof.
  intros Jm H.
  apply waitForEventWithTimeout_inv in H. destruct H as (rest & S & ->).
  pose proof (proj1 (select_loop_first _ _ _ _ _ _) S) as (pre & t & Ev & _ & D).
  destruct (decisive_sound _ _ _ _ _ _ D) as (T & _ & _ & Er).
  split; [exact (J_wait _ (pre ++ [t]) rest m Jm
                   (eq_trans Ev (app_assoc pre [t] rest)))|].
  split; [reflexivity|]. split.
  - exact T.
  - intros e He N. destruct (Er e He) as [->|[c ->]]; [contradiction|].
    apply E_watcher.
Qed.

Lemma errors_Is_errTimeout_true err :
  errors_Is_errTimeout err = true -> err = Some errTimeout.
Proof. destruct err as [[]|]; simpl; intros H; try discriminate; reflexivity. Qed.

Lemma errors_Is_errTimeout_false e :
  errors_Is_errTimeout (Some e) = false -> e <> errTimeout.
Proof. intros H ->. discriminate. Qed.

Lemma waitForFile_keeps fuel forceWait m size err m' :
  J m -> waitForFile fuel forceWait m = Ret (size, err) m' ->
  J m' /\ forall e, err = Some e -> E e.
Proof.
  revert m. induction fuel as [|fuel IH]; intros m Jm H; [discriminate|].
  cbn [waitForFile] in H. unfold waitForFile_body in H.
  apply bind_inv in H. destruct H as ([size0 serr] & m1 & Hs & H).
  apply getFileSize_inv in Hs. destruct Hs as (t & rest & Ev & -> & Hs).
  pose proof (J_tick CStat t rest m Jm Ev) as J1. simpl in H.
  destruct serr as [e0|].
  - symmetry in Hs. apply size_of_tick_err in Hs. destruct Hs as [_ Hs].
    destruct (stat_of_err _ _ Hs) as [c ->].
    apply bind_inv in H. destruct H as (r & m0 & G & H).
    unfold get in G. inversion G; subst r m0; clear G. simpl in H.
    destruct (negb (Options.WaitForFile (options (rd m))) && negb forceWait).
    { apply ret_inv in H. destruct H as [H ->]. inversion H; subst.
      split; [exact J1|]. intros e He. inversion He. apply E_path. }
    assert (W : waitForFile_wait (waitForFile fuel forceWait)
                  (advance CStat t rest m) = Ret (size, err) m' ->
                J m' /\ forall e, err = Some e -> E e).
    { clear H. intros H. unfold waitForFile_wait in H.
      apply bind_inv in H. destruct H as (r & m0 & G & H).
      unfold get in G. inversion G; subst r m0; clear G.
      apply bind_inv in H. destruct H as ([werr ev] & m2 & Hw & H).
      destruct (wait_keeps _ _ _ _ _ _ J1 Hw) as (J2 & R2 & T2 & E2).
      simpl in H. destruct (errors_Is_errTimeout werr) eqn:T.
      - apply errors_Is_errTimeout_true in T. specialize (T2 T).
        destruct (Options.TreatTimeoutsAsEOF (options (rd m))) eqn:Tr;
          apply ret_inv in H; destruct H as [H ->]; inversion H; subst;
          (split; [exact J2|]); intros e He; inversion He.
        + apply E_eof.
        + apply (E_wait m Jm Tr T2).
      - destruct werr as [e1|].
        + apply ret_inv in H; destruct H as [H ->]. inversion H; subst.
          split; [exact J2|]. intros e He. inversion He; subst.
          exact (E2 e eq_refl (errors_Is_errTimeout_false _ T)).
        + exact (IH _ J2 H). }
    destruct (file (rd m)) as [f|] eqn:F; [|exact (W H)].
    destruct (Options.CloseOnDelete (options (rd m))); [|exact (W H)].
    apply bind_inv in H. destruct H as (cerr & m2 & Hc & H).
    apply ret_inv in H. destruct H as [H ->]. inversion H; subst.
    split; [exact (closeFile_keeps _ _ _ J1 Hc)|].
    intros e He. inversion He. apply E_eof.
  - apply ret_inv in H. destruct H as [H ->]. inversion H; subst.
    split; [exact J1|discriminate].
Qed.

Lemma Read_idle_keeps again p m res m' :
  (forall m1, J m1 -> again m1 = Ret res m' -> Read_kept J E p res m') ->
  J m -> Read_idle again p m = Ret res m' -> Read_kept J E p res m'.
Proof.
  intros IH Jm H. unfold Read_idle in H.
  apply bind_inv in H. destruct H as (r & m0 & G & H).
  unfold get in G. inversion G; subst r m0; clear G.
  apply bind_inv in H. destruct H as ([werr ev] & m1 & Hw & H).
  destruct (wait_keeps _ _ _ _ _ _ Jm Hw) as (J1 & R1 & T1 & E1).
  simpl in H. destruct (errors_Is_errTimeout werr) eqn:T.
  - apply errors_Is_errTimeout_true in T. specialize (T1 T).
    destruct (Options.TreatTimeoutsAsEOF (options (rd m))) eqn:Tr;
      apply ret_inv in H; destruct H as [-> ->]; (split; [exact J1|]).
    + apply E_eof.
    + apply (E_idle m Jm Tr T1).
  - destruct werr as [e1|].
    + apply ret_inv in H; destruct H as [-> ->]. split; [exact J1|].
      exact (E1 e1 eq_refl (errors_Is_errTimeout_false _ T)).
    + destruct (fsnotify.Has ev fsnotify.Remove || fsnotify.Has ev fsnotify.Rename);
        [|exact (IH _ J1 H)].
      destruct (Options.CloseOnDelete (options (rd m))).
      * apply ret_inv in H; destruct H as [-> ->]. split; [exact J1|apply E_eof].
      * apply bind_inv in H. destruct H as (cerr & m2 & Hc & H).
        exact (IH _ (closeFile_keeps _ _ _ J1 Hc) H).
Qed.

Lemma Read_data_keeps again p size m res m' :
  (forall m1, J m1 -> again m1 = Ret res m' -> Read_kept J E p res m') ->
  J m -> Read_data again p size m = Ret res m' -> Read_kept J E p res m'.
Proof.
  intros IH Jm H. unfold Read_data in H.
  apply bind_inv in H. destruct H as (r & m0 & G & H).
  unfold get in G. inversion G; subst r m0; clear G. simpl in H.
  destruct (offset (rd m) <? size); [|exact (Read_idle_keeps _ _ _ _ _ IH Jm H)].
  apply bind_inv in H. destruct H as (oerr & m1 & Ho & H).
  destruct (openFile_keeps _ _ _ Jm Ho) as [J1 Eo]. clear Ho.
  destruct oerr as [e|].
  { apply ret_inv in H. destruct H as [-> ->]. split; [exact J1|].
    exact (Eo e eq_refl). }
  apply bind_inv in H. destruct H as (r & m0 & G & H).
  unfold get in G. inversion G; subst r m0; clear G. simpl in H.
  destruct (file (rd m1)) as [f|] eqn:F; [|discriminate].
  apply bind_inv in H. destruct H as ([[[n rerr] p'] f'] & m2 & Hr & H).
  apply file_Read_inv in Hr. destruct Hr as (t & rest & Ev & -> & Hr).
  pose proof (J_tick CFileRead t rest m1 J1 Ev) as J2. simpl in H.
  assert (G : (if 0 <? n
               then put (set_file (Some f') (wrap64 (offset (rd m1) + n)) (rd m1)) ;;;
                    ret (n, None, p')
               else Read_idle again p) (advance CFileRead t rest m1) = Ret res m' ->
              Read_kept J E p res m').
  { destruct (0 <? n) eqn:L.
    - intros G. apply bind_inv in G. destruct G as ([] & m3 & Hp & G).
      unfold put in Hp. inversion Hp; subst m3; clear Hp.
      apply ret_inv in G. destruct G as [-> ->].
      exists m1. split; [exact J1|].
      exists f, t, rest, rerr, f'. apply Z.ltb_lt in L.
      repeat split; try assumption. symmetry. exact Hr.
    - exact (Read_idle_keeps _ _ _ _ _ IH J2). }
  destruct (read_of_cases f p t) as [[c Hc]|[Hc|[Hc|[_ Hc]]]];
    rewrite Hc in Hr; inversion Hr; subst n rerr p' f'; clear Hr;
    try exact (G H).
  apply ret_inv in H. destruct H as [-> ->]. split; [exact J2|apply E_path].
Qed.

Lemma Read_loop_keeps fuel p m res m' :
  J m -> Read_loop fuel p m = Ret res m' -> Read_kept J E p res m'.
Proof.
  revert m. induction fuel as [|fuel IH]; intros m Jm H; [discriminate|].
  cbn [Read_loop] in H. unfold Read_body in H.
  apply bind_inv in H. destruct H as ([size err] & m1 & Hs & H).
  destruct (waitForFile_keeps (S fuel) false _ _ _ _ Jm Hs) as [J1 E1].
  simpl in H. destruct err as [e|].
  { apply ret_inv in H. destruct H as [-> ->]. split; [exact J1|].
    exact (E1 e eq_refl). }
  apply bind_inv in H. destruct H as (r & m0 & G & H).
  unfold get in G. inversion G; subst r m0; clear G. simpl in H.
  assert (D : forall m2, J m2 ->
                Read_data (Read_loop fuel p) p size m2 = Ret res m' ->
                Read_kept J E p res m').
  { intros m2 J2. apply Read_data_keeps; [|exact J2].
    intros m3 J3. exact (IH m3 J3). }
  destruct (size <? offset (rd m1)); [|exact (D _ J1 H)].
  apply bind_inv in H. destruct H as (cerr & m2 & Hc & H).
  pose proof (closeFile_keeps _ _ _ J1 Hc) as J2.
  destruct (Options.CloseOnTruncate (options (rd m1))).
  - apply ret_inv in H. destruct H as [-> ->]. split; [exact J2|apply E_eof].
  - exact (D _ J2 H).
Qed.

End Keeping.

(** ** The configuration of the reader *)

Lemma configured_Read fuel p r m res m' :
  configured_as r m -> Read_loop fuel p m = Ret res m' -> configured_as r m'.
Proof.
  intros C H.
  assert (K : Read_kept (configured_as r) (fun _ => True) p res m').
  { eapply (Read_loop_keeps (configured_as r) (fun _ => True));
      [..|exact C|exact H]; intros; first [exact I | assumption]. }
  unfold Read_kept in K. destruct (snd (fst res)).
  - apply K.
  - destruct K as (m1 & C1 & f & t & rest & rerr & f' & _ & _ & _ & _ & ->).
    exact C1.
Qed.

Lemma configured_waitForFile fuel forceWait r m res m' :
  configured_as r m -> waitForFile fuel forceWait m = Ret res m' ->
  configured_as r m'.
Proof.
  intros C H. destruct res as [size err].
  eapply (waitForFile_keeps (configured_as r) (fun _ => True));
    [..|exact C|exact H]; intros; first [exact I | assumption].
Qed.

Lemma Close_config m err m' :
  Close m = Ret err m' ->
  filePath (rd m') = filePath (rd m) /\ options (rd m') = options (rd m) /\
  watcher (rd m') = None.
Proof.
  intros H. unfold Close in H.
  apply bind_inv in H. destruct H as (r & m0 & G & H).
  unfold get in G. inversion G; subst r m0; clear G.
  destruct (watcher (rd m)) as [w|]; [|discriminate].
  apply bind_inv in H. destruct H as (werr & m1 & Hw & H).
  unfold watcher_Close in Hw.
  apply bind_inv in Hw. destruct Hw as (t & m2 & Ht & Hw).
  apply tick_inv in Ht. destruct Ht as (rest & Ev & ->).
  apply ret_inv in Hw. destruct Hw as [-> ->].
  apply bind_inv in H. destruct H as ([] & m3 & Hp & H).
  unfold put in Hp. inversion Hp; subst m3; clear Hp.
  destruct (watcher_close_of t).
  - apply ret_inv in H. destruct H as [_ ->]. repeat split.
  - apply closeFile_inv in H.
    destruct H as [(_ & -> & _)|(f & t' & rest' & _ & _ & -> & _)];
      repeat split.
Qed.

(** X5. The path and the options of a reader never change: [Read] and
    [WaitForFile] leave them and the watcher as they are, [Close] leaves path
    and options and clears the watcher, and so path and options are the same
    after any sequence of calls. *)
Theorem configuration_is_kept :
  (forall p m res m',
     Read p m = Ret res m' ->
     filePath (rd m') = filePath (rd m) /\ options (rd m') = options (rd m) /\
     watcher (rd m') = watcher (rd m)) /\
  (forall m err m',
     WaitForFile m = Ret err m' ->
     filePath (rd m') = filePath (rd m) /\ options (rd m') = options (rd m) /\
     watcher (rd m') = watcher (rd m)) /\
  (forall m err m',
     Close m = Ret err m' ->
     filePath (rd m') = filePath (rd m) /\ options (rd m') = options (rd m) /\
     watcher (rd m') = None) /\
  (forall os m u m',
     run_ops os m = Ret u m' ->
     filePath (rd m') = filePath (rd m) /\ options (rd m') = options (rd m)).
Proof.
  assert (R : forall p m res m', Read p m = Ret res m' -> configured_as (rd m) m').
  { intros p m res m' H.
    apply (configured_Read (S (length (env m))) p (rd m) m res m'); [|exact H].
    repeat split. }
  assert (W : forall m err m', WaitForFile m = Ret err m' -> configured_as (rd m) m').
  { intros m err m' H. unfold WaitForFile in H.
    apply bind_inv in H. destruct H as ([size werr] & m1 & Hw & H).
    apply ret_inv in H. destruct H as [_ ->].
    apply (configured_waitForFile (S (length (env m))) true (rd m) m
             (size, werr) m1); [|exact Hw].
    repeat split. }
  pose proof Close_config as C.
  split; [exact R|]. split; [exact W|]. split; [exact C|].
  intros os. induction os as [|o os IH]; intros m u m' H; simpl in H.
  - apply ret_inv in H. destruct H as [_ ->]. split; reflexivity.
  - apply bind_inv in H. destruct H as (a & m1 & Ho & H).
    destruct (IH _ _ _ H) as [P1 O1].
    assert (S : filePath (rd m1) = filePath (rd m) /\ options (rd m1) = options (rd m)).
    { destruct o as [p| |]; simpl in Ho;
        apply bind_inv in Ho; destruct Ho as (b & m2 & Ho & Hr);
        apply ret_inv in Hr; destruct Hr as [_ ->].
      - destruct (R _ _ _ _ Ho) as (A & B & _). split; assumption.
      - destruct (W _ _ _ Ho) as (A & B & _). split; assumption.
      - destruct (C _ _ _ Ho) as (A & B & _). split; assumption. }
    destruct S as [P0 O0]. split; congruence.
Qed.

Lemma configuration_is_kept_witness :
  run_ops session_calls session_start = Ret tt session_end /\
  filePath (rd session_end) = filePath (rd session_start) /\
  options (rd session_end) = options (rd session_start).
Proof.
  assert (H : run_ops session_calls session_start = Ret tt session_end)
    by (vm_compute; reflexivity).
  split; [exact H|].
  exact (proj2 (proj2 (proj2 configuration_is_kept)) _ _ _ _ H).
Defined.

(** ** Which errors the options allow *)

Lemma allowed_eof o : allowed o io_EOF.
Proof. repeat split; intros; discriminate. Qed.

Lemma allowed_path o c : allowed o (PathError c).
Proof. repeat split; intros; discriminate. Qed.

Lemma allowed_watcher o c : allowed o (WatcherError c).
Proof. repeat split; intros; discriminate. Qed.

Lemma allowed_idle o :
  Options.TreatTimeoutsAsEOF o = false -> 0 < Options.IdleTimeout o ->
  allowed o ErrIdleTimeout.
Proof.
  intros T L. repeat split; intros; try discriminate; try congruence; try lia.
Qed.

Lemma allowed_wait o :
  Options.TreatTimeoutsAsEOF o = false -> 0 < Options.WaitForFileTimeout o ->
  allowed o ErrWaitTimeout /\ ErrWaitTimeout <> ErrIdleTimeout.
Proof.
  intros T L. repeat split; intros; try discriminate; try congruence; try lia.
Qed.

(** X6. The timeout errors come out only when the options ask for them:
    [Read] and [WaitForFile] never return [ErrIdleTimeout] or
    [ErrWaitTimeout] when [TreatTimeoutsAsEOF] is set, never
    [ErrIdleTimeout] when [IdleTimeout] is zero or negative, never
    [ErrWaitTimeout] when [WaitForFileTimeout] is zero or negative;
    [WaitForFile] never returns [ErrIdleTimeout] at all; and the internal
    [errTimeout] is never handed to the caller. *)
Theorem timeouts_as_configured :
  (forall p m n e p' m',
     Read p m = Ret (n, Some e, p') m' -> allowed (options (rd m)) e) /\
  (forall m e m',
     WaitForFile m = Ret (Some e) m' ->
     allowed (options (rd m)) e /\ e <> ErrIdleTimeout).
Proof.
  split.
  - intros p m n e p' m' H. unfold Read in H.
    assert (K : Read_kept (fun m1 => options (rd m1) = options (rd m))
                  (allowed (options (rd m))) p (n, Some e, p') m').
    { eapply (Read_loop_keeps (fun m1 => options (rd m1) = options (rd m))
                (allowed (options (rd m)))); [..|reflexivity|exact H];
        intros; try assumption.
      - apply allowed_eof.
      - apply allowed_path.
      - apply allowed_watcher.
      - apply allowed_idle; congruence.
      - apply allowed_wait; congruence. }
    apply K.
  - intros m e m' H. unfold WaitForFile in H.
    apply bind_inv in H. destruct H as ([size werr] & m1 & Hw & H).
    apply ret_inv in H. destruct H as [E ->]. simpl in E. subst werr.
    refine (proj2 (waitForFile_keeps (fun m1 => options (rd m1) = options (rd m))
                     (fun e => allowed (options (rd m)) e /\ e <> ErrIdleTimeout)
                     _ _ _ _ _ _ _ _ _ _ _ _ _ eq_refl Hw) e eq_refl);
      intros; try assumption.
    + split; [apply allowed_eof|discriminate].
    + split; [apply allowed_path|discriminate].
    + split; [apply allowed_watcher|discriminate].
    + apply allowed_wait; congruence.
Qed.

(** ** Reading on from where the last read stopped *)

Lemma logged_by_app new m m' :
  log m' = new ++ log m -> logged_by m m' = new.
Proof.
  intros H. unfold logged_by. rewrite H, length_app.
  replace (length new + length (log m) - length (log m))%nat with (length new) by lia.
  rewrite firstn_app, Nat.sub_diag, firstn_all. simpl. apply app_nil_r.
Qed.

Lemma Read_loop_same_reader fuel p m f res m' :
  file (rd m) = Some f ->
  Read_loop fuel p m = Ret res m' ->
  Read_kept (closed_or_same (rd m) (log m)) (fun _ => True) p res m'.
Proof.
  intros F H.
  eapply (Read_loop_keeps (closed_or_same (rd m) (log m)) (fun _ => True));
    [..| |exact H]; try (intros; exact I).
  - intros c t rest m1 (new & L & D) _.
    exists ({| call := c; before := rd m1; seen := Some t |} :: new).
    split; [simpl; rewrite L; reflexivity|].
    destruct D as [D|D]; [left; right; exact D|right; exact D].
  - intros c pre rest m1 (new & L & D) _.
    exists ({| call := c; before := rd m1; seen := None |} :: new).
    split; [simpl; rewrite L; reflexivity|].
    destruct D as [D|D]; [left; right; exact D|right; exact D].
  - intros t rest m1 f1 (new & L & D) _ _.
    exists ({| call := CFileClose; before := rd m1; seen := Some t |} :: new).
    split; [simpl; rewrite L; reflexivity|]. left. left. reflexivity.
  - intros t rest m1 f1 (new & L & D) F1 _.
    exists ({| call := COpen; before := rd m1; seen := Some t |} :: new).
    split; [simpl; rewrite L; reflexivity|].
    destruct D as [D|D]; [left; right; exact D|].
    rewrite D, F in F1. discriminate.
  - exists []. split; [reflexivity|right; reflexivity].
Qed.

Lemma Read_entry_snapshot fuel p m f n p' m' st t l :
  file (rd m) = Some f ->
  Read_loop fuel p m = Ret (n, None, p') m' ->
  ~ In CFileClose (map call (logged_by m m')) ->
  log m' = {| call := CFileRead; before := st; seen := Some t |} :: l ->
  st = rd m.
Proof.
  intros F H N Hl.
  pose proof (Read_loop_same_reader _ _ _ _ _ _ F H) as K.
  unfold Read_kept in K. simpl in K.
  destruct K as (m1 & (new & Lg & C) & f2 & t2 & rest & rerr & f2' & _ & _ & _ & _ & E).
  assert (Hlog : log m' = ({| call := CFileRead; before := rd m1; seen := Some t2 |}
                             :: new) ++ log m).
  { rewrite E. simpl. rewrite Lg. reflexivity. }
  rewrite (logged_by_app _ _ _ Hlog) in N.
  assert (R1 : rd m1 = rd m).
  { destruct C as [C|C]; [|exact C]. exfalso. apply N. right. exact C. }
  rewrite Hlog in Hl. simpl in Hl. inversion Hl. rewrite <- R1. congruence.
Qed.

(** X7. A [Read] that returns data without having closed the file on the way
    has read at the offset the reader had when the call was entered: the
    bytes are those of the open file in the range
    [[offset, offset + n)], and the call leaves the same file open with the
    offset advanced by [n].  So the next [Read] goes on exactly where this
    one stopped. *)
Theorem Read_goes_on_from_offset p m f n p' m' :
  ok m ->
  file (rd m) = Some f ->
  Read p m = Ret (n, None, p') m' ->
  ~ In CFileClose (map call (logged_by m m')) ->
  exists t l,
    log m' = {| call := CFileRead; before := rd m; seen := Some t |} :: l /\
    firstn (Z.to_nat n) p' =
      range (content (w_data (t_world t)) (ino f))
        (Z.to_nat (offset (rd m))) (Z.to_nat n) /\
    offset (rd m) + n <= Z.of_nat (length (content (w_data (t_world t)) (ino f))) /\
    offset (rd m') = offset (rd m) + n /\
    file (rd m') = Some {| ino := ino f; pos := Z.to_nat (offset (rd m) + n) |}.
Proof.
  intros OK F H N. unfold Read in H.
  pose proof (Read_loop_spec _ _ _ _ _ OK H) as [_ S]. simpl in S.
  destruct S as [L D].
  destruct (delivered_range _ _ _ _ L D)
    as (st & f1 & t & l & Hl & F1 & O1 & B & Bd & _ & _ & Off & Fi).
  pose proof (Read_entry_snapshot _ _ _ _ _ _ _ _ _ _ F H N Hl) as St.
  subst st. rewrite F in F1. inversion F1; subst f1.
  exists t, l. repeat split; assumption.
Qed.

Lemma firstn_plus {A} a b (l : list A) :
  firstn (a + b) l = firstn a l ++ firstn b (skipn a l).
Proof.
  revert l. induction a as [|a IH]; intros l; [reflexivity|].
  destruct l as [|x l]; simpl.
  - rewrite firstn_nil. reflexivity.
  - rewrite IH. reflexivity.
Qed.

Lemma skipn_plus {A} a b (l : list A) :
  skipn a (skipn b l) = skipn (b + a) l.
Proof.
  revert l. induction b as [|b IH]; intros l; [reflexivity|].
  destruct l as [|x l]; simpl; [apply skipn_nil|apply IH].
Qed.

Lemma range_split c lo a b :
  range c lo (a + b) = range c lo a ++ range c (lo + a) b.
Proof. unfold range. rewrite firstn_plus, skipn_plus. reflexivity. Qed.

Lemma range_app c more lo a :
  (lo + a <= length c)%nat -> range (c ++ more) lo a = range c lo a.
Proof.
  intros H. unfold range. rewrite skipn_app, firstn_app, length_skipn.
  replace (a - (length c - lo))%nat with 0%nat by lia.
  simpl. apply app_nil_r.
Qed.

(** X8. Two [Read] calls in a row that both return data, the second without
    closing the file on the way, deliver adjacent ranges of the open file:
    the second starts at the byte where the first stopped.  When the file
    has only been appended to between the two reads, the two results
    together are the bytes of the file from the first offset on, with
    nothing lost and nothing repeated. *)
Theorem consecutive_reads_are_adjacent p1 p2 m0 n1 p1' m1 n2 p2' m2 :
  ok m0 ->
  Read p1 m0 = Ret (n1, None, p1') m1 ->
  Read p2 m1 = Ret (n2, None, p2') m2 ->
  ~ In CFileClose (map call (logged_by m1 m2)) ->
  exists st f t1 l1 t2 l2,
    log m1 = {| call := CFileRead; before := st; seen := Some t1 |} :: l1 /\
    file st = Some f /\
    log m2 = {| call := CFileRead; before := rd m1; seen := Some t2 |} :: l2 /\
    firstn (Z.to_nat n1) p1' =
      range (content (w_data (t_world t1)) (ino f))
        (Z.to_nat (offset st)) (Z.to_nat n1) /\
    firstn (Z.to_nat n2) p2' =
      range (content (w_data (t_world t2)) (ino f))
        (Z.to_nat (offset st) + Z.to_nat n1) (Z.to_nat n2) /\
    (forall more,
       content (w_data (t_world t2)) (ino f) =
         content (w_data (t_world t1)) (ino f) ++ more ->
       firstn (Z.to_nat n1) p1' ++ firstn (Z.to_nat n2) p2' =
       range (content (w_data (t_world t2)) (ino f))
         (Z.to_nat (offset st)) (Z.to_nat n1 + Z.to_nat n2)).
Proof.
  intros OK H1 H2 N.
  pose proof (Read_loop_spec _ _ _ _ _ OK H1) as [OK1 S]. simpl in S.
  destruct S as [L1 D1].
  destruct (delivered_range _ _ _ _ L1 D1)
    as (st & f & t1 & l1 & Hl1 & F & O & B1 & Bd1 & _ & _ & Off1 & Fi1).
  assert (P0 : 0 <= offset st) by (rewrite O; lia).
  unfold Read in H2.
  pose proof (Read_loop_spec _ _ _ _ _ OK1 H2) as [_ S2]. simpl in S2.
  destruct S2 as [L2 D2].
  destruct (delivered_range _ _ _ _ L2 D2)
    as (st2 & f2 & t2 & l2 & Hl2 & F2 & _ & B2 & _).
  pose proof (Read_entry_snapshot _ _ _ _ _ _ _ _ _ _ Fi1 H2 N Hl2) as St.
  subst st2. rewrite Fi1 in F2. inversion F2; subst f2.
  cbn [ino] in B2.
  assert (E : Z.to_nat (offset (rd m1)) = (Z.to_nat (offset st) + Z.to_nat n1)%nat).
  { rewrite Off1. apply Z2Nat.inj_add; lia. }
  rewrite E in B2.
  exists st, f, t1, l1, t2, l2. repeat split; try assumption.
  intros more C. rewrite range_split, B1, B2. f_equal.
  rewrite C. symmetry. apply range_app. lia.
Qed.

Lemma Read_goes_on_from_offset_witness :
  ok two_reads_mid /\
  file (rd two_reads_mid) = Some {| ino := 1; pos := 13 |} /\
  Read buffer16 two_reads_mid = Ret (5, None, grown_buffer) two_reads_end /\
  ~ In CFileClose (map call (logged_by two_reads_mid two_reads_end)) /\
  exists t l,
    log two_reads_end =
      {| call := CFileRead; before := rd two_reads_mid; seen := Some t |} :: l /\
    firstn (Z.to_nat 5) grown_buffer =
      range (content (w_data (t_world t)) 1)
        (Z.to_nat (offset (rd two_reads_mid))) (Z.to_nat 5) /\
    offset (rd two_reads_mid) + 5 <=
      Z.of_nat (length (content (w_data (t_world t)) 1)) /\
    offset (rd two_reads_end) = offset (rd two_reads_mid) + 5 /\
    file (rd two_reads_end) =
      Some {| ino := 1; pos := Z.to_nat (offset (rd two_reads_mid) + 5) |}.
Proof.
  assert (OK : ok two_reads_mid).
  { split; [reflexivity|]. split; [reflexivity|].
    repeat constructor. }
  assert (F : file (rd two_reads_mid) = Some {| ino := 1; pos := 13 |}) by reflexivity.
  assert (H : Read buffer16 two_reads_mid = Ret (5, None, grown_buffer) two_reads_end)
    by (vm_compute; reflexivity).
  assert (N : ~ In CFileClose (map call (logged_by two_reads_mid two_reads_end))).
  { vm_compute. intros [C|[C|C]]; [discriminate|discriminate|exact C]. }
  split; [exact OK|]. split; [exact F|]. split; [exact H|]. split; [exact N|].
  exact (Read_goes_on_from_offset _ _ _ _ _ _ OK F H N).
Defined.

Lemma consecutive_reads_are_adjacent_witness :
  ok two_reads_start /\
  Read buffer16 two_reads_start = Ret (13, None, hello_buffer) two_reads_mid /\
  Read buffer16 two_reads_mid = Ret (5, None, grown_buffer) two_reads_end /\
  ~ In CFileClose (map call (logged_by two_reads_mid two_reads_end)) /\
  bytes "Hello, World! More" = bytes "Hello, World!" ++ bytes " More" /\
  exists st f t1 l1 t2 l2,
    log two_reads_mid = {| call := CFileRead; before := st; seen := Some t1 |} :: l1 /\
    file st = Some f /\
    log two_reads_end =
      {| call := CFileRead; before := rd two_reads_mid; seen := Some t2 |} :: l2 /\
    firstn (Z.to_nat 13) hello_buffer =
      range (content (w_data (t_world t1)) (ino f))
        (Z.to_nat (offset st)) (Z.to_nat 13) /\
    firstn (Z.to_nat 5) grown_buffer =
      range (content (w_data (t_world t2)) (ino f))
        (Z.to_nat (offset st) + Z.to_nat 13) (Z.to_nat 5) /\
    (forall more,
       content (w_data (t_world t2)) (ino f) =
         content (w_data (t_world t1)) (ino f) ++ more ->
       firstn (Z.to_nat 13) hello_buffer ++ firstn (Z.to_nat 5) grown_buffer =
       range (content (w_data (t_world t2)) (ino f))
         (Z.to_nat (offset st)) (Z.to_nat 13 + Z.to_nat 5)).
Proof.
  assert (OK : ok two_reads_start) by ok_start.
  assert (H1 : Read buffer16 two_reads_start = Ret (13, None, hello_buffer) two_reads_mid)
    by (vm_compute; reflexivity).
  assert (H2 : Read buffer16 two_reads_mid = Ret (5, None, grown_buffer) two_reads_end)
    by (vm_compute; reflexivity).
  assert (N : ~ In CFileClose (map call (logged_by two_reads_mid two_reads_end))).
  { vm_compute. intros [C|[C|C]]; [discriminate|discriminate|exact C]. }
  split; [exact OK|]. split; [exact H1|]. split; [exact H2|]. split; [exact N|].
  split; [reflexivity|].
  exact (consecutive_reads_are_adjacent _ _ _ _ _ _ _ _ _ OK H1 H2 N).
Defined.

Lemma timeouts_as_configured_witness :
  (Read buffer16 idle_start = Ret (0, Some ErrIdleTimeout, buffer16) idle_end /\
   allowed (options (rd idle_start)) ErrIdleTimeout) /\
  (WaitForFile absent_start = Ret (Some ErrWaitTimeout) absent_end /\
   allowed (options (rd absent_start)) ErrWaitTimeout /\
   ErrWaitTimeout <> ErrIdleTimeout).
Proof.
  assert (H1 : Read buffer16 idle_start = Ret (0, Some ErrIdleTimeout, buffer16) idle_end)
    by (vm_compute; reflexivity).
  assert (H2 : WaitForFile absent_start = Ret (Some ErrWaitTimeout) absent_end)
    by (vm_compute; reflexivity).
  split.
  - split; [exact H1|]. exact (proj1 timeouts_as_configured _ _ _ _ _ _ H1).
  - split; [exact H2|]. exact (proj2 timeouts_as_configured _ _ _ H2).
Defined.

(** ** Events during the idle wait (tailreader.go, Read) *)

(** X9. A [Read] that has nothing new to deliver and then receives an
    accepted event for its file: on a removal or rename with [CloseOnDelete]
    it returns zero bytes and [io.EOF] and leaves the file handle as it is;
    on a removal or rename without [CloseOnDelete] it releases the handle,
    sets the offset to zero and takes the next turn; on any other accepted
    event it takes the next turn with the reader untouched. *)
Theorem event_during_idle_wait p m w t0 pre t rest ev :
  watcher (rd m) = Some w ->
  env m = t0 :: pre ++ t :: rest ->
  stat_of t0 = inl (offset (rd m)) ->
  forallb (ignored idle_mask (Options.IdleTimeout (options (rd m)))
             (filePath (rd m))) pre = true ->
  t_sel t = SelEvent ev ->
  accepts idle_mask (filePath (rd m)) ev = true ->
  (reports_removal (fsnotify.Op ev) = true ->
   (Options.CloseOnDelete (options (rd m)) = true ->
    Read p m = Ret (0, Some io_EOF, p) (after_idle_wait t0 (pre ++ t :: rest) rest m) /\
    rd (after_idle_wait t0 (pre ++ t :: rest) rest m) = rd m) /\
   (Options.CloseOnDelete (options (rd m)) = false ->
    (file (rd m) = None ->
     forall fuel,
       Read_loop (S fuel) p m =
       Read_loop fuel p (after_idle_wait t0 (pre ++ t :: rest) rest m)) /\
    (forall f t2 rest' fuel,
       file (rd m) = Some f -> rest = t2 :: rest' ->
       Read_loop (S fuel) p m =
       Read_loop fuel p
         (with_rd (set_file None 0 (rd m))
            (advance CFileClose t2 rest'
               (after_idle_wait t0 (pre ++ t :: rest) rest m)))))) /\
  (reports_removal (fsnotify.Op ev) = false ->
   forall fuel,
     Read_loop (S fuel) p m =
     Read_loop fuel p (after_idle_wait t0 (pre ++ t :: rest) rest m)).
Proof.
  intros W E Hs Hp Ht A.
  assert (G : forall fuel,
             Read_loop (S fuel) p m =
             (if reports_removal (fsnotify.Op ev)
              then if Options.CloseOnDelete (options (rd m))
                   then ret (0, Some io_EOF, p)
                   else closeFile ;;; Read_loop fuel p
              else Read_loop fuel p)
               (after_idle_wait t0 (pre ++ t :: rest) rest m)).
  { intros fuel. rewrite (Read_loop_nothing_new _ _ _ _ _ E Hs).
    exact (Read_idle_event _ p (advance CStat t0 (pre ++ t :: rest) m)
             w pre t rest ev W eq_refl Hp Ht A). }
  split.
  - intros R. split.
    + intros C. split; [|reflexivity]. unfold Read. rewrite G, R, C. reflexivity.
    + intros C. split.
      * intros F fuel. rewrite G, R, C.
        exact (bind_Ret closeFile (fun _ => Read_loop fuel p) _ None _
                 (closeFile_closed
                    (after_idle_wait t0 (pre ++ t :: rest) rest m) F)).
      * intros f t2 rest' fuel F ->. rewrite G, R, C.
        exact (bind_Ret closeFile (fun _ => Read_loop fuel p) _ (close_of t2) _
                 (closeFile_open
                    (after_idle_wait t0 (pre ++ t :: t2 :: rest') (t2 :: rest') m)
                    f t2 rest' F eq_refl)).
  - intros R fuel. rewrite G, R. reflexivity.
Qed.

Lemma event_during_idle_wait_witness :
  watcher (rd removed_start) = Some {| watched := [] |} /\
  env removed_start =
    see hello_world :: [] ++ event no_file "app.log" fsnotify.Remove :: [] /\
  stat_of (see hello_world) = inl (offset (rd removed_start)) /\
  accepts idle_mask "app.log"
    {| fsnotify.Name := "app.log"; fsnotify.Op := fsnotify.Remove |} = true /\
  reports_removal fsnotify.Remove = true /\
  Options.CloseOnDelete (options (rd removed_start)) = true /\
  Read buffer16 removed_start =
    Ret (0, Some io_EOF, buffer16)
      (after_idle_wait (see hello_world)
         ([] ++ event no_file "app.log" fsnotify.Remove :: []) [] removed_start) /\
  file (rd (after_idle_wait (see hello_world)
              ([] ++ event no_file "app.log" fsnotify.Remove :: []) []
              removed_start)) = Some {| ino := 1; pos := 13 |}.
Proof.
  do 6 (split; [reflexivity|]).
  split; [|reflexivity].
  exact (proj1 (proj1 (proj1
           (event_during_idle_wait buffer16 removed_start {| watched := [] |}
              (see hello_world) [] (event no_file "app.log" fsnotify.Remove) []
              {| fsnotify.Name := "app.log"; fsnotify.Op := fsnotify.Remove |}
              eq_refl eq_refl eq_refl eq_refl eq_refl eq_refl)
           eq_refl) eq_refl)).
Defined.

(** ** Failing file operations (tailreader.go, Read) *)

(** X10. When the size says there is data but opening the file fails, [Read]
    returns zero bytes and the error of [os.Open] without waiting, whatever
    the [WaitForFile] option says; when reading the open file fails, it
    returns zero bytes and the error of the read.  In both cases the reader
    is left as it was: no handle is set or dropped and the offset does not
    move. *)
Theorem failing_file_operations p m t1 t2 rest size :
  env m = t1 :: t2 :: rest ->
  stat_of t1 = inl size ->
  offset (rd m) < size ->
  (forall e,
     file (rd m) = None -> open_of t2 = inr e ->
     Read p m =
     Ret (0, Some e, p) (advance COpen t2 rest (advance CStat t1 (t2 :: rest) m))) /\
  (forall f c,
     file (rd m) = Some f -> t_fault t2 = Some c ->
     Read p m =
     Ret (0, Some (PathError c), p)
       (advance CFileRead t2 rest (advance CStat t1 (t2 :: rest) m))).
Proof.
  intros E Hs L.
  assert (G : (size <? offset (rd m)) = false) by (apply Z.ltb_ge; lia).
  apply Z.ltb_lt in L.
  split.
  - intros e F O. unfold Read. rewrite (Read_loop_found _ _ _ _ _ _ E Hs), G.
    unfold Read_data. unfold bind at 1. unfold get at 1. cbv beta iota.
    change (offset (rd (advance CStat t1 (t2 :: rest) m))) with (offset (rd m)).
    rewrite L.
    pose proof (openFile_closed (advance CStat t1 (t2 :: rest) m) t2 rest F eq_refl)
      as Ho.
    rewrite O in Ho. rewrite (bind_Ret _ _ _ _ _ Ho). reflexivity.
  - intros f c F Hf. unfold Read. rewrite (Read_loop_found _ _ _ _ _ _ E Hs), G.
    unfold Read_data. unfold bind at 1. unfold get at 1. cbv beta iota.
    change (offset (rd (advance CStat t1 (t2 :: rest) m))) with (offset (rd m)).
    rewrite L.
    rewrite (bind_Ret _ _ _ _ _
               (openFile_open (advance CStat t1 (t2 :: rest) m) f F)).
    unfold bind at 1. unfold get at 1. cbv beta iota.
    change (file (rd (advance CStat t1 (t2 :: rest) m))) with (file (rd m)).
    rewrite F.
    rewrite (bind_Ret _ _ _ _ _
               (file_Read_cons f p (advance CStat t1 (t2 :: rest) m) t2 rest eq_refl)).
    unfold read_of. rewrite Hf. reflexivity.
Qed.

Lemma failing_file_operations_witness :
  (env vanished_start = [see hello_world; see no_file] /\
   stat_of (see hello_world) = inl 13 /\
   offset (rd vanished_start) < 13 /\
   file (rd vanished_start) = None /\
   open_of (see no_file) = inr (PathError ENOENT) /\
   Options.WaitForFile (options (rd vanished_start)) = true /\
   Read buffer16 vanished_start =
     Ret (0, Some (PathError ENOENT), buffer16)
       (advance COpen (see no_file) []
          (advance CStat (see hello_world) [see no_file] vanished_start))) /\
  (env faulty_start = [see hello_world; fail_with hello_world 5] /\
   stat_of (see hello_world) = inl 13 /\
   offset (rd faulty_start) < 13 /\
   file (rd faulty_start) = Some {| ino := 1; pos := 5 |} /\
   t_fault (fail_with hello_world 5) = Some 5%nat /\
   Read buffer16 faulty_start =
     Ret (0, Some (PathError 5), buffer16)
       (advance CFileRead (fail_with hello_world 5) []
          (advance CStat (see hello_world) [fail_with hello_world 5] faulty_start))).
Proof.
  assert (L1 : offset (rd vanished_start) < 13) by reflexivity.
  assert (L2 : offset (rd faulty_start) < 13) by reflexivity.
  split.
  - do 6 (split; [reflexivity|]).
    exact (proj1 (failing_file_operations buffer16 vanished_start (see hello_world)
                    (see no_file) [] 13 eq_refl eq_refl L1)
             (PathError ENOENT) eq_refl eq_refl).
  - do 5 (split; [reflexivity|]).
    exact (proj2 (failing_file_operations buffer16 faulty_start (see hello_world)
                    (fail_with hello_world 5) [] 13 eq_refl eq_refl L2)
             {| ino := 1; pos := 5 |} 5%nat eq_refl eq_refl).
Defined.

(** ** The first read and the empty buffer (tailreader.go, Read) *)

(** X11. The file is opened lazily.  A reader with no file open that finds
    the file empty does not open it and goes on to wait for events; when it
    finds the file holding data it opens it and returns the first bytes of
    the file, as many as the buffer takes, leaving the offset at their
    count. *)
Theorem first_Read_opens_lazily p m t1 rest size :
  file (rd m) = None ->
  offset (rd m) = 0 ->
  env m = t1 :: rest ->
  stat_of t1 = inl size ->
  (size = 0 ->
   forall fuel,
     Read_loop (S fuel) p m =
     Read_idle (Read_loop fuel p) p (advance CStat t1 rest m)) /\
  (0 < size ->
   forall t2 t3 rest' i,
     rest = t2 :: t3 :: rest' ->
     open_of t2 = inl {| ino := i; pos := 0 |} ->
     t_fault t3 = None ->
     wf_world (t_world t3) = true ->
     firstn (length p) (content (w_data (t_world t3)) i) <> [] ->
     exists m',
       Read p m =
       Ret (Z.of_nat (length (firstn (length p) (content (w_data (t_world t3)) i))),
            None,
            firstn (length p) (content (w_data (t_world t3)) i)
              ++ skipn (length (firstn (length p) (content (w_data (t_world t3)) i))) p)
           m' /\
       file (rd m') =
         Some {| ino := i;
                 pos := length (firstn (length p) (content (w_data (t_world t3)) i)) |} /\
       offset (rd m') =
         Z.of_nat (length (firstn (length p) (content (w_data (t_world t3)) i)))).
Proof.
  intros F O E Hs. split.
  - intros -> fuel. apply (Read_loop_nothing_new fuel p m t1 rest E).
    rewrite O. exact Hs.
  - intros L t2 t3 rest' i -> Ho Hf W Hd. unfold Read.
    rewrite (Read_loop_found _ _ _ _ _ _ E Hs).
    assert (G : (size <? offset (rd m)) = false) by (apply Z.ltb_ge; lia).
    rewrite G.
    exact (Read_data_fresh _ p size (advance CStat t1 (t2 :: t3 :: rest') m)
             t2 t3 rest' i F O L eq_refl Ho Hf W Hd).
Qed.

Lemma first_Read_opens_lazily_witness :
  file (rd hello_start) = None /\
  offset (rd hello_start) = 0 /\
  env hello_start = [see hello_world; see hello_world; see hello_world] /\
  stat_of (see hello_world) = inl 13 /\
  0 < 13 /\
  exists m',
    Read buffer16 hello_start = Ret (13, None, hello_buffer) m' /\
    file (rd m') = Some {| ino := 1; pos := 13 |} /\
    offset (rd m') = 13.
Proof.
  assert (L : 0 < 13) by reflexivity.
  do 4 (split; [reflexivity|]). split; [exact L|].
  refine (proj2 (first_Read_opens_lazily buffer16 hello_start (see hello_world)
                   [see hello_world; see hello_world] 13
                   eq_refl eq_refl eq_refl eq_refl) L
            (see hello_world) (see hello_world) [] 1%nat
            eq_refl eq_refl eq_refl eq_refl _).
  discriminate.
Defined.

(** X12. With an empty buffer [Read] never delivers anything: whenever it
    returns, it returns zero bytes together with an error.  Data that is
    there does not make it return; it goes on to wait for events. *)
Theorem Read_into_empty_buffer :
  (forall m n err p' m',
     ok m -> Read [] m = Ret (n, err, p') m' ->
     n = 0 /\ p' = [] /\ err <> None) /\
  (forall fuel m f t1 t2 rest size,
     file (rd m) = Some f -> env m = t1 :: t2 :: rest ->
     stat_of t1 = inl size -> offset (rd m) < size ->
     t_fault t2 = None ->
     Read_loop (S fuel) [] m =
     Read_idle (Read_loop fuel []) []
       (advance CFileRead t2 rest (advance CStat t1 (t2 :: rest) m))).
Proof.
  split.
  - intros m n err p' m' OK H. unfold Read in H.
    pose proof (Read_loop_spec _ _ _ _ _ OK H) as [_ S]. simpl in S.
    destruct err as [e|].
    + destruct S as (-> & -> & _). repeat split. discriminate.
    + exfalso. destruct S as [L (st & f & t & l & _ & _ & _ & N & _)].
      unfold available in N. simpl in N. rewrite N in L. inversion L.
  - intros fuel m f t1 t2 rest size F E Hs L Hf.
    rewrite (Read_loop_found _ _ _ _ _ _ E Hs).
    assert (G : (size <? offset (rd m)) = false) by (apply Z.ltb_ge; lia).
    rewrite G. apply (Read_data_nothing _ _ _ _ f); try assumption; try reflexivity.
    split; [exact Hf|]. unfold read_of. rewrite Hf. reflexivity.
Qed.

Lemma Read_into_empty_buffer_witness :
  ok no_room_start /\
  Read [] no_room_start = Ret (0, Some ErrIdleTimeout, []) no_room_end /\
  0 = 0 /\ @nil byte = [] /\ Some ErrIdleTimeout <> None.
Proof.
  assert (OK : ok no_room_start) by ok_start.
  assert (H : Read [] no_room_start = Ret (0, Some ErrIdleTimeout, []) no_room_end)
    by (vm_compute; reflexivity).
  split; [exact OK|]. split; [exact H|].
  exact (proj1 Read_into_empty_buffer _ _ _ _ _ OK H).
Defined.

(** ** Opening and closing the file (tailreader.go, openFile and closeFile) *)

(** X13. [closeFile] always leaves the reader without a file handle, also
    when closing the file fails and the error is returned, and a second
    [closeFile] does nothing.  [openFile] that fails leaves the reader as it
    was; after an [openFile] that succeeded a second one does nothing: the
    file is not opened again and the offset is kept. *)
Theorem open_and_close_once :
  (forall m err m',
     closeFile m = Ret err m' ->
     file (rd m') = None /\ closeFile m' = Ret None m') /\
  (forall m e m',
     openFile m = Ret (Some e) m' -> rd m' = rd m /\ file (rd m') = None) /\
  (forall m m',
     openFile m = Ret None m' ->
     (exists f, file (rd m') = Some f) /\ openFile m' = Ret None m').
Proof.
  split; [|split].
  - intros m err m' H. apply closeFile_inv in H.
    destruct H as [(F & -> & _)|(f & t & rest & _ & _ & -> & _)].
    + split; [exact F|]. exact (closeFile_closed m F).
    + split; [reflexivity|]. apply closeFile_closed. reflexivity.
  - intros m e m' H. apply openFile_inv in H.
    destruct H as [(f & _ & _ & H)|(t & rest & F & _ & H)]; [discriminate|].
    destruct (open_of t); destruct H as [H ->]; [discriminate|].
    split; [reflexivity|exact F].
  - intros m m' H. apply openFile_inv in H.
    destruct H as [(f & F & -> & _)|(t & rest & _ & _ & H)].
    + split; [exists f; exact F|]. exact (openFile_open m f F).
    + destruct (open_of t) as [f|e]; destruct H as [H ->]; [|discriminate].
      split; [exists f; reflexivity|].
      apply (openFile_open _ f). reflexivity.
Qed.

Lemma open_and_close_once_witness :
  closeFile leaky_start =
    Ret (Some (PathError 5))
      (with_rd (set_file None 0 (rd leaky_start))
         (advance CFileClose (fail_with hello_world 5) [see hello_world] leaky_start)) /\
  file (set_file None 0 (rd leaky_start)) = None /\
  closeFile (with_rd (set_file None 0 (rd leaky_start))
               (advance CFileClose (fail_with hello_world 5) [see hello_world]
                  leaky_start)) =
    Ret None
      (with_rd (set_file None 0 (rd leaky_start))
         (advance CFileClose (fail_with hello_world 5) [see hello_world] leaky_start)).
Proof.
  assert (H : closeFile leaky_start =
    Ret (Some (PathError 5))
      (with_rd (set_file None 0 (rd leaky_start))
         (advance CFileClose (fail_with hello_world 5) [see hello_world] leaky_start)))
    by reflexivity.
  split; [exact H|].
  exact (proj1 open_and_close_once _ _ _ H).
Defined.

(** ** Close (tailreader.go, Close) *)

(** X14. When the watcher closes without error, [Close] clears the watcher
    and releases the file handle if there is one: with no file open it
    returns nil, with a file open it returns whatever closing the file
    returns, and in both cases the reader is left with no watcher, no file
    and, if a file was open, offset zero. *)
Theorem Close_without_watcher_error m w t1 rest :
  watcher (rd m) = Some w ->
  env m = t1 :: rest ->
  t_fault t1 = None ->
  (file (rd m) = None ->
   Close m =
   Ret None (with_rd (set_watcher None (rd m)) (advance CWatcherClose t1 rest m))) /\
  (forall f t2 rest',
     file (rd m) = Some f -> rest = t2 :: rest' ->
     exists m',
       Close m = Ret (close_of t2) m' /\
       watcher (rd m') = None /\ file (rd m') = None /\ offset (rd m') = 0 /\
       env m' = rest' /\
       map call (logged_by m m') = [CFileClose; CWatcherClose]).
Proof.
  intros W E Hf.
  assert (G : Close m =
              closeFile (with_rd (set_watcher None (rd m))
                           (advance CWatcherClose t1 rest m))).
  { unfold Close. unfold bind at 1. unfold get at 1. cbv beta iota. rewrite W.
    unfold watcher_Close, bind. rewrite (tick_cons _ _ _ _ E).
    unfold ret, put, watcher_close_of. rewrite Hf. reflexivity. }
  split.
  - intros F. rewrite G. apply closeFile_closed. exact F.
  - intros f t2 rest' F ->. rewrite G.
    rewrite (closeFile_open
               (with_rd (set_watcher None (rd m))
                  (advance CWatcherClose t1 (t2 :: rest') m))
               f t2 rest' F eq_refl).
    eexists. split; [reflexivity|]. repeat split.
    unfold logged_by. cbn [log with_rd advance length].
    replace (S (S (length (log m))) - length (log m))%nat with 2%nat by lia.
    reflexivity.
Qed.

Lemma Close_without_watcher_error_witness :
  watcher (rd idle_start) = Some {| watched := [] |} /\
  env idle_start = [see hello_world; see hello_world] /\
  t_fault (see hello_world) = None /\
  file (rd idle_start) = Some {| ino := 1; pos := 13 |} /\
  exists m',
    Close idle_start = Ret (close_of (see hello_world)) m' /\
    watcher (rd m') = None /\ file (rd m') = None /\ offset (rd m') = 0 /\
    env m' = [] /\
    map call (logged_by idle_start m') = [CFileClose; CWatcherClose].
Proof.
  do 4 (split; [reflexivity|]).
  exact (proj2 (Close_without_watcher_error idle_start {| watched := [] |}
                  (see hello_world) [see hello_world] eq_refl eq_refl eq_refl)
           {| ino := 1; pos := 13 |} (see hello_world) [] eq_refl eq_refl).
Defined.

(** ** A reader that was closed *)

Lemma wait_without_watcher eventType timeout m :
  watcher (rd m) = None -> waitForEventWithTimeout eventType timeout m = Panic.
Proof. intros W. unfold waitForEventWithTimeout, bind, get. rewrite W. reflexivity. Qed.

(** X15. After [Close] the reader has no watcher, and a call that has to wait
    panics on the nil watcher instead of returning an error: a [Read] that
    finds nothing new to deliver does, and so do a [Read] (with
    [WaitForFile] set) and a [WaitForFile] that find the file missing. *)
Theorem closed_reader_panics_on_wait m0 err m :
  Close m0 = Ret err m ->
  watcher (rd m) = None /\
  (forall p t rest,
     env m = t :: rest -> stat_of t = inl (offset (rd m)) ->
     Read p m = Panic) /\
  (forall p t rest e,
     env m = t :: rest -> stat_of t = inr e ->
     Options.WaitForFile (options (rd m)) = true ->
     file (rd m) = None \/ Options.CloseOnDelete (options (rd m)) = false ->
     Read p m = Panic) /\
  (forall t rest e,
     env m = t :: rest -> stat_of t = inr e ->
     file (rd m) = None \/ Options.CloseOnDelete (options (rd m)) = false ->
     WaitForFile m = Panic).
Proof.
  intros H. destruct (Close_config _ _ _ H) as (_ & _ & W).
  split; [exact W|]. split; [|split].
  - intros p t rest E Hs. unfold Read.
    rewrite (Read_loop_nothing_new _ _ _ _ _ E Hs).
    unfold Read_idle. unfold bind at 1. unfold get at 1. cbv beta iota.
    unfold bind. rewrite wait_without_watcher by exact W. reflexivity.
  - intros p t rest e E Hs G D. unfold Read. cbn [Read_loop]. unfold Read_body.
    unfold bind at 1.
    rewrite (waitForFile_missing _ false _ _ _ _ E Hs)
      by (split; [rewrite G; reflexivity|exact D]).
    unfold waitForFile_wait. unfold bind at 1. unfold get at 1. cbv beta iota.
    unfold bind. rewrite wait_without_watcher by exact W. reflexivity.
  - intros t rest e E Hs D. unfold WaitForFile. unfold bind at 1.
    rewrite (waitForFile_missing _ true _ _ _ _ E Hs (waits_when_forced _ D)).
    unfold waitForFile_wait. unfold bind at 1. unfold get at 1. cbv beta iota.
    unfold bind. rewrite wait_without_watcher by exact W. reflexivity.
Qed.

Lemma closed_reader_panics_on_wait_witness :
  Close closing_start = Ret None closing_end /\
  env closing_end = [see empty_world] /\
  stat_of (see empty_world) = inl (offset (rd closing_end)) /\
  Read buffer16 closing_end = Panic.
Proof.
  assert (H : Close closing_start = Ret None closing_end) by reflexivity.
  split; [exact H|]. do 2 (split; [reflexivity|]).
  exact (proj1 (proj2 (closed_reader_panics_on_wait _ _ _ H))
           buffer16 (see empty_world) [] eq_refl eq_refl).
Defined.

(** ** What waiting for the file does to the reader *)

Lemma waitForFile_reader fuel forceWait m size err m' :
  waitForFile fuel forceWait m = Ret (size, err) m' ->
  same_or_released (rd m) (rd m') err /\
  (err = None -> rd m' = rd m /\ 0 <= size) /\
  (err <> None -> size = 0).
Proof.
  revert m. induction fuel as [|fuel IH]; intros m H; [discriminate|].
  cbn [waitForFile] in H. unfold waitForFile_body in H.
  apply bind_inv in H. destruct H as ([size0 serr] & m1 & Hs & H).
  apply getFileSize_inv in Hs. destruct Hs as (t & rest & Ev & -> & Hs).
  simpl in H. destruct serr as [e0|].
  - apply bind_inv in H. destruct H as (r & m0 & G & H).
    unfold get in G. inversion G; subst r m0; clear G. simpl in H.
    destruct (negb (Options.WaitForFile (options (rd m))) && negb forceWait).
    { apply ret_inv in H. destruct H as [H ->]. inversion H; subst.
      split; [left; reflexivity|]. split; [discriminate|reflexivity]. }
    assert (W : waitForFile_wait (waitForFile fuel forceWait)
                  (advance CStat t rest m) = Ret (size, err) m' ->
                same_or_released (rd m) (rd m') err /\
                (err = None -> rd m' = rd m /\ 0 <= size) /\
                (err <> None -> size = 0)).
    { clear H. intros H. unfold waitForFile_wait in H.
      apply bind_inv in H. destruct H as (r & m0 & G & H).
      unfold get in G. inversion G; subst r m0; clear G.
      apply bind_inv in H. destruct H as ([werr ev] & m2 & Hw & H).
      apply waitForEventWithTimeout_inv in Hw. destruct Hw as (rest2 & _ & ->).
      simpl in H. destruct (errors_Is_errTimeout werr).
      - destruct (Options.TreatTimeoutsAsEOF (options (rd m)));
          apply ret_inv in H; destruct H as [H ->]; inversion H; subst;
          (split; [left; reflexivity|]); (split; [discriminate|reflexivity]).
      - destruct werr as [e1|].
        + apply ret_inv in H; destruct H as [H ->]. inversion H; subst.
          split; [left; reflexivity|]. split; [discriminate|reflexivity].
        + exact (IH _ H). }
    destruct (file (rd m)) as [f|] eqn:F; [|exact (W H)].
    destruct (Options.CloseOnDelete (options (rd m))) eqn:C; [|exact (W H)].
    apply bind_inv in H. destruct H as (cerr & m2 & Hc & H).
    apply ret_inv in H. destruct H as [H ->]. inversion H; subst.
    split; [|split; [discriminate|reflexivity]].
    right. apply closeFile_inv in Hc.
    destruct Hc as [(F' & _)|(f' & t' & rest' & _ & _ & -> & _)].
    + simpl in F'. rewrite F in F'. discriminate.
    + repeat split; try assumption. rewrite F. discriminate.
  - apply ret_inv in H. destruct H as [H ->]. inversion H; subst.
    split; [left; reflexivity|]. split; [|intros N; contradiction].
    intros _. split; [reflexivity|].
    symmetry in Hs. apply size_of_tick_ok in Hs. unfold stat_of in Hs.
    destruct (t_fault t); [discriminate|].
    destruct (w_path (t_world t)); [|discriminate].
    inversion Hs. lia.
Qed.

(** X16. [WaitForFile] never opens the file and never moves the offset: when
    it returns nil the reader is exactly as it was, even when the file was
    missing and created meanwhile; the only change it ever makes is to
    release the file handle when, with [CloseOnDelete] set and a file open,
    it reports the end of the stream for a file that is gone. *)
Theorem WaitForFile_keeps_reader m err m' :
  WaitForFile m = Ret err m' ->
  (err = None -> rd m' = rd m) /\
  (rd m' = rd m \/
   (err = Some io_EOF /\ Options.CloseOnDelete (options (rd m)) = true /\
    file (rd m) <> None /\ rd m' = set_file None 0 (rd m))).
Proof.
  intros H. unfold WaitForFile in H.
  apply bind_inv in H. destruct H as ([size werr] & m1 & Hw & H).
  apply ret_inv in H. destruct H as [E ->]. simpl in E. subst werr.
  destruct (waitForFile_reader _ _ _ _ _ _ Hw) as (S & N & _).
  split; [intros He; exact (proj1 (N He))|exact S].
Qed.

Lemma WaitForFile_keeps_reader_witness :
  WaitForFile deleted_start =
    Ret (Some io_EOF)
      (with_rd (set_file None 0 (rd deleted_start))
         (advance CFileClose (see no_file) []
            (advance CStat (see no_file) [see no_file] deleted_start))) /\
  (Some io_EOF = None -> set_file None 0 (rd deleted_start) = rd deleted_start) /\
  (set_file None 0 (rd deleted_start) = rd deleted_start \/
   (Some io_EOF = Some io_EOF /\
    Options.CloseOnDelete (options (rd deleted_start)) = true /\
    file (rd deleted_start) <> None /\
    set_file None 0 (rd deleted_start) = set_file None 0 (rd deleted_start))).
Proof.
  assert (H : WaitForFile deleted_start =
    Ret (Some io_EOF)
      (with_rd (set_file None 0 (rd deleted_start))
         (advance CFileClose (see no_file) []
            (advance CStat (see no_file) [see no_file] deleted_start))))
    by reflexivity.
  split; [exact H|].
  exact (WaitForFile_keeps_reader _ _ _ H).
Defined.

(** ** The caller's buffer *)

(** X17. [Read] never changes the length of the caller's buffer, and when it
    returns an error the buffer holds what it held before. *)
Theorem buffer_is_respected p m n err p' m' :
  ok m ->
  Read p m = Ret (n, err, p') m' ->
  length p' = length p /\ (err <> None -> p' = p).
Proof.
  intros OK H. unfold Read in H.
  pose proof (Read_loop_spec _ _ _ _ _ OK H) as [_ S]. simpl in S.
  destruct err as [e|].
  - destruct S as (_ & -> & _). split; reflexivity.
  - destruct S as [_ (st & f & t & l & _ & _ & _ & _ & -> & _)].
    split; [|intros N; contradiction].
    rewrite length_app, length_skipn.
    assert (length (available f (length p) t) <= length p)%nat.
    { unfold available. rewrite length_firstn. lia. }
    lia.
Qed.

Lemma buffer_is_respected_witness :
  ok more_start /\
  Read buffer16 more_start =
    Ret (8, None, more_buffer)
      (with_rd (set_file (Some {| ino := 1; pos := 13 |}) 13 (rd more_start))
         (advance CFileRead (see hello_world) []
            (advance CStat (see hello_world) [see hello_world] more_start))) /\
  length more_buffer = length buffer16 /\
  (@None error <> None -> more_buffer = buffer16).
Proof.
  assert (OK : ok more_start) by ok_start.
  assert (H : Read buffer16 more_start =
    Ret (8, None, more_buffer)
      (with_rd (set_file (Some {| ino := 1; pos := 13 |}) 13 (rd more_start))
         (advance CFileRead (see hello_world) []
            (advance CStat (see hello_world) [see hello_world] more_start))))
    by (vm_compute; reflexivity).
  split; [exact OK|]. split; [exact H|].
  exact (buffer_is_respected _ _ _ _ _ _ OK H).
Defined.

(** ** Waiting without a timeout *)

Lemma Read_idle_pending again p m w :
  watcher (rd m) = Some w ->
  forallb (ignored idle_mask (Options.IdleTimeout (options (rd m)))
             (filePath (rd m))) (env m) = true ->
  pending (Read_idle again p m) = true.
Proof.
  intros W Hp. unfold Read_idle.
  unfold bind at 1. unfold get at 1. cbv beta iota.
  unfold bind. rewrite (waitForEventWithTimeout_eq _ _ _ _ W).
  rewrite (select_loop_starved _ _ _ _ Hp). reflexivity.
Qed.

(** What the timer alone cannot end: a wait whose timeout is zero or
    negative passes over every timer observation. *)
Lemma ignored_timer eventType timeout path t :
  timeout <= 0 -> t_sel t = SelTimer -> ignored eventType timeout path t = true.
Proof.
  intros L S. unfold ignored. rewrite S.
  apply negb_true_iff. apply Z.ltb_ge. exact L.
Qed.

(** X18. With an idle timeout of zero (or a negative one) a [Read] that has
    nothing new to deliver waits without bound: as long as nothing arrives
    but the passing of time and events that are not accepted, it does not
    return. *)
Theorem Read_waits_without_bound p m w t0 rest :
  watcher (rd m) = Some w ->
  Options.IdleTimeout (options (rd m)) <= 0 ->
  env m = t0 :: rest ->
  stat_of t0 = inl (offset (rd m)) ->
  Forall (fun t => match t_sel t with
                   | SelTimer => True
                   | SelEvent ev => accepts idle_mask (filePath (rd m)) ev = false
                   | SelError _ => False
                   end) rest ->
  pending (Read p m) = true.
Proof.
  intros W L E Hs Hr. unfold Read.
  rewrite (Read_loop_nothing_new _ _ _ _ _ E Hs).
  apply (Read_idle_pending _ p (advance CStat t0 rest m) w W).
  cbn [rd env advance]. clear E.
  induction Hr as [|t rest Ht _ IH]; [reflexivity|].
  simpl. rewrite IH, andb_true_r.
  destruct (t_sel t) as [ev|c|] eqn:S.
  - unfold ignored. rewrite S, Ht. reflexivity.
  - contradiction.
  - exact (ignored_timer _ _ _ _ L S).
Qed.

Lemma Read_waits_without_bound_witness :
  watcher (rd forever_start) = Some {| watched := [] |} /\
  Options.IdleTimeout (options (rd forever_start)) <= 0 /\
  stat_of (see hello_world) = inl (offset (rd forever_start)) /\
  pending (Read buffer16 forever_start) = true.
Proof.
  assert (L : Options.IdleTimeout (options (rd forever_start)) <= 0)
    by (intros C; discriminate).
  split; [reflexivity|]. split; [exact L|]. split; [reflexivity|].
  apply (Read_waits_without_bound buffer16 forever_start {| watched := [] |}
           (see hello_world)
           [see hello_world; event hello_world "other.log" fsnotify.Write;
            see hello_world] eq_refl L eq_refl eq_refl).
  repeat constructor.
Defined.

(** ** Rotation of the file *)

(** X19. Rotation without [CloseOnDelete]: a [Read] that is idle when the
    removal or rename of its file is reported releases the old handle, and
    when the path then names a file that holds data, opens that file and
    returns its first bytes, with the offset counting from the start of the
    new file. *)
Theorem Read_follows_rotation p m w f t0 pre tev ev tclose tstat topen tread rest size i :
  watcher (rd m) = Some w ->
  file (rd m) = Some f ->
  Options.CloseOnDelete (options (rd m)) = false ->
  env m = t0 :: pre ++ tev :: tclose :: tstat :: topen :: tread :: rest ->
  stat_of t0 = inl (offset (rd m)) ->
  forallb (ignored idle_mask (Options.IdleTimeout (options (rd m)))
             (filePath (rd m))) pre = true ->
  t_sel tev = SelEvent ev ->
  accepts idle_mask (filePath (rd m)) ev = true ->
  reports_removal (fsnotify.Op ev) = true ->
  stat_of tstat = inl size ->
  0 < size ->
  open_of topen = inl {| ino := i; pos := 0 |} ->
  t_fault tread = None ->
  wf_world (t_world tread) = true ->
  firstn (length p) (content (w_data (t_world tread)) i) <> [] ->
  exists m',
    Read p m =
    Ret (Z.of_nat (length (firstn (length p) (content (w_data (t_world tread)) i))),
         None,
         firstn (length p) (content (w_data (t_world tread)) i)
           ++ skipn (length (firstn (length p) (content (w_data (t_world tread)) i))) p)
        m' /\
    file (rd m') =
      Some {| ino := i;
              pos := length (firstn (length p) (content (w_data (t_world tread)) i)) |} /\
    offset (rd m') =
      Z.of_nat (length (firstn (length p) (content (w_data (t_world tread)) i))).
Proof.
  intros W F C E Hs Hp Ht A R Hs2 L Ho Hf Wf Hd.
  set (m1 := with_env (tclose :: tstat :: topen :: tread :: rest)
               (marked (CWait idle_mask (Options.IdleTimeout (options (rd m))))
                  (advance CStat t0
                     (pre ++ tev :: tclose :: tstat :: topen :: tread :: rest) m))).
  set (m2 := with_rd (set_file None 0 (rd m1))
               (advance CFileClose tclose (tstat :: topen :: tread :: rest) m1)).
  destruct (Read_data_fresh
              (Read_loop (length (pre ++ tev :: tclose :: tstat :: topen :: tread :: rest)) p)
              p size (advance CStat tstat (topen :: tread :: rest) m2)
              topen tread rest i eq_refl eq_refl L eq_refl Ho Hf Wf Hd)
    as (m' & H & Fi & Off).
  exists m'. split; [|split; assumption]. rewrite <- H.
  unfold Read. rewrite E at 1. cbn [length].
  rewrite (Read_loop_nothing_new _ _ _ _ _ E Hs).
  rewrite (Read_idle_event _ p
             (advance CStat t0 (pre ++ tev :: tclose :: tstat :: topen :: tread :: rest) m)
             w pre tev (tclose :: tstat :: topen :: tread :: rest) ev
             W eq_refl Hp Ht A).
  rewrite R. cbn [rd advance]. rewrite C. fold m1.
  rewrite (bind_Ret closeFile _ m1 (close_of tclose) _
             (closeFile_open m1 f tclose (tstat :: topen :: tread :: rest) F eq_refl)).
  fold m2.
  rewrite (Read_loop_found _ p m2 tstat (topen :: tread :: rest) size eq_refl Hs2).
  assert (G : (size <? offset (rd m2)) = false) by (apply Z.ltb_ge; simpl; lia).
  rewrite G. reflexivity.
Qed.

Lemma Read_follows_rotation_witness :
  file (rd rotation_start) = Some {| ino := 1; pos := 13 |} /\
  Options.CloseOnDelete (options (rd rotation_start)) = false /\
  stat_of (see hello_world) = inl (offset (rd rotation_start)) /\
  reports_removal fsnotify.Rename = true /\
  stat_of (see rotated_world) = inl 9 /\
  open_of (see rotated_world) = inl {| ino := 2; pos := 0 |} /\
  exists m',
    Read buffer16 rotation_start = Ret (9, None, fresh_buffer) m' /\
    file (rd m') = Some {| ino := 2; pos := 9 |} /\
    offset (rd m') = 9.
Proof.
  assert (L : 0 < 9) by reflexivity.
  do 6 (split; [reflexivity|]).
  refine (Read_follows_rotation buffer16 rotation_start {| watched := [] |}
            {| ino := 1; pos := 13 |} (see hello_world) []
            (event rotated_world "app.log" fsnotify.Rename)
            {| fsnotify.Name := "app.log"; fsnotify.Op := fsnotify.Rename |}
            (see rotated_world) (see rotated_world) (see rotated_world)
            (see rotated_world) [] 9 2%nat
            eq_refl eq_refl eq_refl eq_refl eq_refl eq_refl eq_refl eq_refl
            eq_refl eq_refl L eq_refl eq_refl eq_refl _).
  discriminate.
Defined.

(** ** A file that was missing and came back *)

Lemma Read_loop_S fuel p :
  Read_loop (S fuel) p =
  Read_body (waitForFile (S fuel) false) (Read_loop fuel p) p.
Proof. reflexivity. Qed.

(** X20. A [Read] that finds the file missing while it has a file open, with
    [WaitForFile] set and [CloseOnDelete] not set, keeps its handle while it
    waits for the file to be created.  When the creation is reported and the
    new file is larger than the offset, the call reads on from the file it
    still has open, at the old offset: the bytes it returns are those of the
    old file, not of the file the path names now. *)
Theorem Read_keeps_handle_across_recreation
  p m w f tgone pre tc ev tstat tread rest e size :
  inv (rd m) ->
  watcher (rd m) = Some w ->
  file (rd m) = Some f ->
  Options.WaitForFile (options (rd m)) = true ->
  Options.CloseOnDelete (options (rd m)) = false ->
  env m = tgone :: pre ++ tc :: tstat :: tread :: rest ->
  stat_of tgone = inr e ->
  forallb (ignored fsnotify.Create (Options.WaitForFileTimeout (options (rd m)))
             (filePath (rd m))) pre = true ->
  t_sel tc = SelEvent ev ->
  accepts fsnotify.Create (filePath (rd m)) ev = true ->
  stat_of tstat = inl size ->
  offset (rd m) < size ->
  t_fault tread = None ->
  wf_world (t_world tread) = true ->
  available f (length p) tread <> [] ->
  exists m',
    Read p m =
    Ret (Z.of_nat (length (available f (length p) tread)), None,
         available f (length p) tread
           ++ skipn (length (available f (length p) tread)) p) m' /\
    available f (length p) tread =
      range (content (w_data (t_world tread)) (ino f))
        (Z.to_nat (offset (rd m))) (length (available f (length p) tread)) /\
    file (rd m') =
      Some {| ino := ino f; pos := pos f + length (available f (length p) tread) |} /\
    map call (logged_by m m') =
      [CFileRead; CStat; CWait fsnotify.Create
                            (Options.WaitForFileTimeout (options (rd m))); CStat].
Proof.
  intros I W F G C E Hs Hp Ht A Hs2 L Hf Wf Hd.
  set (m1 := with_env (tstat :: tread :: rest)
               (marked (CWait fsnotify.Create
                          (Options.WaitForFileTimeout (options (rd m))))
                  (advance CStat tgone (pre ++ tc :: tstat :: tread :: rest) m))).
  set (m2 := advance CStat tstat (tread :: rest) m1).
  pose proof (Read_data_more
                (Read_loop (S (length (pre ++ tc :: tstat :: tread :: rest))) p)
                p size m2 f tread rest I F L eq_refl Hf Wf Hd) as H.
  eexists. split; [|split; [|split]].
  - rewrite <- H. unfold Read. rewrite E at 1. cbn [length].
    rewrite Read_loop_S. unfold Read_body. unfold bind at 1.
    assert (Wm : waits_when_missing false (rd m)).
    { split; [rewrite G; reflexivity|right; exact C]. }
    rewrite (waitForFile_missing _ false _ _ _ _ E Hs Wm).
    rewrite (waitForFile_wait_created _
               (advance CStat tgone (pre ++ tc :: tstat :: tread :: rest) m)
               w pre tc (tstat :: tread :: rest) ev W eq_refl Hp Ht A).
    fold m1.
    rewrite (waitForFile_found _ false m1 tstat (tread :: rest) size eq_refl Hs2).
    fold m2. cbv beta iota.
    unfold bind at 1. unfold get at 1. cbv beta iota.
    assert (N : (size <? offset (rd m2)) = false) by (apply Z.ltb_ge; simpl; lia).
    rewrite N. reflexivity.
  - unfold range, available. unfold inv in I. rewrite F in I.
    rewrite I, Nat2Z.id. symmetry. apply firstn_length_firstn.
  - reflexivity.
  - unfold logged_by. cbn [log with_rd advance marked with_env m2 m1 length].
    replace (S (S (S (S (length (log m))))) - length (log m))%nat with 4%nat by lia.
    reflexivity.
Qed.

Lemma Read_keeps_handle_across_recreation_witness :
  inv (rd recreated_start) /\
  file (rd recreated_start) = Some {| ino := 1; pos := 5 |} /\
  Options.WaitForFile (options (rd recreated_start)) = true /\
  Options.CloseOnDelete (options (rd recreated_start)) = false /\
  stat_of (see unlinked_world) = inr (PathError ENOENT) /\
  stat_of (see rotated_world) = inl 9 /\
  offset (rd recreated_start) < 9 /\
  w_path rotated_world = Some 2%nat /\
  exists m',
    Read buffer16 recreated_start = Ret (8, None, more_buffer) m' /\
    bytes ", World!" = range (bytes "Hello, World!") 5 8 /\
    file (rd m') = Some {| ino := 1; pos := 13 |} /\
    map call (logged_by recreated_start m') =
      [CFileRead; CStat; CWait fsnotify.Create 0; CStat].
Proof.
  assert (I : inv (rd recreated_start)) by reflexivity.
  assert (L : offset (rd recreated_start) < 9) by reflexivity.
  split; [exact I|]. do 7 (split; [reflexivity|]).
  refine (Read_keeps_handle_across_recreation buffer16 recreated_start
            {| watched := [] |} {| ino := 1; pos := 5 |}
            (see unlinked_world) []
            (event rotated_world "app.log" fsnotify.Create)
            {| fsnotify.Name := "app.log"; fsnotify.Op := fsnotify.Create |}
            (see rotated_world) (see rotated_world) []
            (PathError ENOENT) 9
            I eq_refl eq_refl eq_refl eq_refl eq_refl eq_refl eq_refl eq_refl
            eq_refl eq_refl L eq_refl eq_refl _).
  discriminate.
Defined.
